(** * NHANES preprocessing pipeline: conversion, aggregation, merge,
      range validation, stratification and the train/test split.

    The development embeds the two notebooks of the repository
    (the XPT-to-CSV converter and [data_preprocessing.ipynb]) as Rocq
    functions and proves the properties stated about them.

    Numbers.  The notebooks work on float64 columns.  A cell is either NaN
    or a number, held as a rational ([Qc]); a comparison with NaN is false
    as in IEEE 754.  The mean of the exam aggregator is rounded to the
    nearest float64, as pandas computes it; the division of the age in
    months by 12 is exact.

    Library calls.  pandas, numpy, scipy and scikit-learn functions are
    modelled by the behaviour their documentation and sources give for the
    arguments the notebooks pass; each such definition names the call it
    stands for. *)

From Stdlib Require Import QArith Qcanon Lqa Ascii.
From stdpp Require Import base numbers list strings gmap sorting countable pretty.

(** ** Part I: the embedding *)

(** *** Cells and tables *)

Inductive cell : Type :=
  | NaN
  | Num (q : Qc).

#[global] Instance cell_eq_dec : EqDecision cell.
Proof. solve_decision. Defined.

#[global] Instance cell_countable : Countable cell.
Proof.
  refine (inj_countable'
            (λ c, match c with NaN => None | Num q => Some q end)
            (λ o, match o with None => NaN | Some q => Num q end) _).
  by intros [].
Defined.

(** A number literal [n/d]. *)
Definition qc (n : Z) (d : positive) : Qc := Q2Qc (n # d).
Definition qz (n : Z) : Qc := Q2Qc (inject_Z n).

(** Elementwise comparisons of a Series against a scalar: [s < x],
    [s > x], [s >= x], [s <= x], [s == x].  NaN compares false. *)
Definition cell_lt (c : cell) (x : Qc) : bool :=
  match c with Num q => bool_decide (q < x)%Qc | NaN => false end.
Definition cell_gt (c : cell) (x : Qc) : bool :=
  match c with Num q => bool_decide (x < q)%Qc | NaN => false end.
Definition cell_ge (c : cell) (x : Qc) : bool :=
  match c with Num q => bool_decide (x <= q)%Qc | NaN => false end.
Definition cell_le (c : cell) (x : Qc) : bool :=
  match c with Num q => bool_decide (q <= x)%Qc | NaN => false end.
Definition cell_eq (c : cell) (x : Qc) : bool :=
  match c with Num q => bool_decide (q = x) | NaN => false end.
Definition cell_ne (c : cell) (x : Qc) : bool := negb (cell_eq c x).

(** [s / x] on a Series element. *)
Definition cell_div (c : cell) (x : Qc) : cell :=
  match c with Num q => Num (q / x)%Qc | NaN => NaN end.

Definition isna (c : cell) : bool :=
  match c with NaN => true | Num _ => false end.

(** The number of a cell as a reduced fraction, for reading results. *)
Definition cell_fraction (c : cell) : option Q :=
  match c with Num q => Some (this q) | NaN => None end.

(** A row maps column names to cells; a DataFrame is its column index
    and its rows, in order. *)
Abbreviation row := (gmap string cell).

Record DataFrame : Type := mkDataFrame {
  columns : list string;
  rows : list row;
}.

(** [r[column]]; every row of a frame has a cell for every column of the
    frame, so the default is never reached on a column of the frame.  (On
    a column outside the frame pandas raises [KeyError], which is not
    modelled.) *)
Definition at_col (r : row) (column : string) : cell :=
  default NaN (r !! column).

(** [df[mask]]: boolean-mask selection keeps the column index. *)
Definition select (mask : row → bool) (df : DataFrame) : DataFrame :=
  mkDataFrame (columns df) (filter (λ r, mask r = true) (rows df)).

(** [df.shape[0]] *)
Definition n_rows (df : DataFrame) : nat := length (rows df).

(** [df[column]] as a list of cells. *)
Definition series (df : DataFrame) (column : string) : list cell :=
  (λ r, at_col r column) <$> rows df.

(** [df.dropna()]: drop every row holding a NaN in some column. *)
Definition row_has_na (cols : list string) (r : row) : bool :=
  existsb (λ c, isna (at_col r c)) cols.

Definition dropna (df : DataFrame) : DataFrame :=
  select (λ r, negb (row_has_na (columns df) r)) df.

(** [df.drop(columns=cols, errors='ignore')] *)
Definition drop_columns (cols : list string) (df : DataFrame) : DataFrame :=
  mkDataFrame
    (filter (λ c, c ∉ cols) (columns df))
    ((λ r, filter (λ kv, kv.1 ∉ cols) r) <$> rows df).

(** *** Exam aggregator (notebook cells 3 and 4) *)

(** [lean_fat_data[lean_fat_data['exam_status'] == 1].dropna()] *)
Definition filtered_lean_fat_data (lean_fat_data : DataFrame) : DataFrame :=
  dropna (select (λ r, cell_eq (at_col r "exam_status") (qz 1)) lean_fat_data).

(** The numbers of a list of cells (all of them once NaN is dropped). *)
Definition numbers (s : list cell) : list Qc :=
  omap (λ c, match c with Num q => Some q | NaN => None end) s.

(** [np.unique(a)]: the distinct values of [a] in ascending order. *)
Definition np_unique {A} `{EqDecision A} (R : relation A) `{!RelDecision R}
    (a : list A) : list A :=
  remove_dups (merge_sort R a).

(** Number of occurrences of [x] in [a]. *)
Definition occurrences {A} `{EqDecision A} (x : A) (a : list A) : nat :=
  length (filter (λ y, y = x) a).

(** [np.unique(a, return_counts=True)]: each distinct value with its
    number of occurrences. *)
Definition np_unique_counts (a : list Qc) : list (Qc * nat) :=
  (λ v, (v, occurrences v a)) <$> np_unique Qcle a.

(** [counts.argmax()]: the first entry holding the largest count. *)
Fixpoint argmax_first (u : list (Qc * nat)) : option (Qc * nat) :=
  match u with
  | [] => None
  | p :: u' =>
      match argmax_first u' with
      | Some q => if (p.2 <? q.2) then Some q else Some p
      | None => Some p
      end
  end.

(** [scipy.stats.mode(a, keepdims=True)]: [(mode[0], count[0])], the
    smallest of the most frequent values and its count; NaN and a count
    of 0 on an empty input. *)
Definition mode (a : list Qc) : cell * nat :=
  match argmax_first (np_unique_counts a) with
  | Some (m, c) => (Num m, c)
  | None => (NaN, 0)
  end.

(** The sum of the values as numbers, without rounding. *)
Definition sum_Qc (a : list Qc) : Qc := foldr Qcplus (qz 0) a.

(** [num / den] rounded to the nearest whole number, a tie to the even
    one; for [0 <= num] and [0 < den]. *)
Definition round_half_even (num den : Z) : Z :=
  let k := (num / den)%Z in
  match (2 * (num `mod` den) ?= den)%Z with
  | Lt => k
  | Gt => (k + 1)%Z
  | Eq => if Z.even k then k else (k + 1)%Z
  end.

(** The float64 nearest to [x], a tie to the even significand: the
    rounding of every IEEE 754 operation.  The significand has 53 bits,
    fewer below 2^-1022 (gradual underflow); the overflow to infinity
    from 2^1024 on is not modelled. *)
Definition round_float64 (x : Qc) : Qc :=
  let n := Qnum (this x) in
  let d := Z.pos (Qden (this x)) in
  if (n =? 0)%Z then x
  else
    let a := Z.abs n in
    let l0 := (Z.log2 a - Z.log2 d)%Z in
    let reaches :=
      if (0 <=? l0)%Z then (d * 2 ^ l0 <=? a)%Z
      else (d <=? a * 2 ^ (- l0))%Z in
    let l := if reaches then l0 else (l0 - 1)%Z in
    let e := ((l - 52) `max` (-1074))%Z in
    let m :=
      if (0 <=? e)%Z then round_half_even a (d * 2 ^ e)
      else round_half_even (a * 2 ^ (- e)) d in
    let r :=
      if (0 <=? e)%Z then inject_Z (m * 2 ^ e)
      else Qmake m (Z.to_pos (2 ^ (- e))) in
    Q2Qc (if (n <? 0)%Z then Qopp r else r).

(** A whole number. *)
Definition whole (x : Qc) : Prop := Qden (this x) = 1%positive.

(** [values.sum()] in float64.  numpy adds in blocks and pairs,
    bottleneck one value after the other; which of the two pandas calls
    depends on the installation, so the order of the additions is left
    open.  In any order no addition rounds when the values are whole
    numbers, none negative, that add up to less than 2^53. *)
Class Float64Sum : Type := {
  float_sum : list Qc → Qc;
  float_sum_whole a :
    Forall (λ x, whole x ∧ (0 <= x)%Qc) a →
    (sum_Qc a < qz (2 ^ 53))%Qc →
    float_sum a = sum_Qc a;
}.

(** [Series.mean()]: the float64 sum of the values divided by their
    number, in float64. *)
Definition mean `{Float64Sum} (a : list Qc) : cell :=
  match a with
  | [] => NaN
  | _ => Num (round_float64 (float_sum a / qz (Z.of_nat (length a))))
  end.

(** [mode.mode[0] if mode.count[0] > 1 else series.mean()] *)
Definition mode_or_mean `{Float64Sum} (a : list Qc) : cell :=
  let tfm_mode := mode a in
  if (1 <? tfm_mode.2) then tfm_mode.1 else mean a.

(** [df.groupby('id')]: the groups in ascending order of the key, each
    with its rows in their original order. *)
Definition groupby_id (df : DataFrame) : list (Qc * list row) :=
  (λ kn : Qc * nat,
     (kn.1, filter (λ r, at_col r "id" = Num kn.1) (rows df)))
    <$> np_unique_counts (numbers (series df "id")).

(** The loop body of cell 4: one aggregated row per group. *)
Definition aggregate_group `{Float64Sum} (g : Qc * list row) : row :=
  let tfm_value :=
    mode_or_mean (numbers ((λ r, at_col r "total_fat_mass") <$> g.2)) in
  let tlm_value :=
    mode_or_mean (numbers ((λ r, at_col r "total_lean_mass") <$> g.2)) in
  {[ "id" := Num g.1;
     "total_fat_mass" := tfm_value;
     "total_lean_mass" := tlm_value ]}.

(** The loop of cell 4 and [pd.DataFrame(aggregated_lean_fat_data)]: the
    columns are the keys of the dicts; of an empty list, a frame without
    columns. *)
Definition aggregated_lean_fat_df `{Float64Sum} (filtered : DataFrame)
    : DataFrame :=
  let aggregated_lean_fat_data := aggregate_group <$> groupby_id filtered in
  mkDataFrame
    (match aggregated_lean_fat_data with
     | [] => []
     | _ => ["id"; "total_fat_mass"; "total_lean_mass"]
     end)
    aggregated_lean_fat_data.

(** *** Merge, inclusion filters and cleanup (notebook cells 5 to 7) *)

(** [left.merge(right, on='id', how='inner')]: every pair of a left row
    and a right row with equal keys, in the order of the left rows; the
    joined row carries the columns of both.  (pandas matches a NaN key
    with a NaN key; the tables of this pipeline share no other column
    than [id], so no suffix is added.  pandas raises [KeyError] when a
    side has no [id] column, as the aggregated table of no exam has; a
    side without rows gives the table without rows here.) *)
Definition merge_on_id (left right : DataFrame) : DataFrame :=
  mkDataFrame
    (columns left ++ filter (λ c, c ≠ "id") (columns right))
    (lr ← rows left;
     (λ rr, lr ∪ rr) <$>
       filter (λ rr, at_col rr "id" = at_col lr "id") (rows right)).

Definition merged_health_data
    (body_measurements demographic_data aggregated : DataFrame) : DataFrame :=
  merge_on_id (merge_on_id body_measurements demographic_data) aggregated.

(** The age mask of cell 6. *)
Definition age_mask (r : row) : bool :=
  cell_ge (cell_div (at_col r "age_in_months") (qz 12)) (qz 15)
  && cell_lt (cell_div (at_col r "age_in_months") (qz 12)) (qz 64).

Definition filtered_health_data (merged : DataFrame) : DataFrame :=
  let filtered := select (λ r, cell_ne (at_col r "amputation") (qz 1)) merged in
  select age_mask filtered.

Definition columns_to_remove : list string :=
  ["pregnancy_status"; "amputation"].

Definition cleaned_health_data (filtered : DataFrame) : DataFrame :=
  dropna (drop_columns columns_to_remove filtered).

(** *** Range validation (notebook cell 8) *)

Definition valid_ranges : list (string * (Qc * Qc)) :=
  [ ("weight", (qz 30, qz 300));
    ("height", (qz 100, qz 250));
    ("bmi", (qz 10, qz 60));
    ("upper_leg_length", (qz 30, qz 100));
    ("maximal_calf_circumference", (qz 20, qz 60));
    ("upper_arm_length", (qz 20, qz 50));
    ("arm_circumference", (qz 15, qz 60));
    ("waist_circumference", (qz 50, qz 200));
    ("thigh_circumference", (qz 30, qz 90)) ].

(** The two masks of the loop body. *)
Definition invalid_mask (column : string) (min_val max_val : Qc) (r : row)
    : bool :=
  cell_lt (at_col r column) min_val || cell_gt (at_col r column) max_val.

Definition keep_mask (column : string) (min_val max_val : Qc) (r : row)
    : bool :=
  cell_ge (at_col r column) min_val && cell_le (at_col r column) max_val.

(** A printed warning: ["Warning: {invalid_count} records removed due to
    unrealistic {column} values"]. *)
Record removal_warning : Type := mkWarning {
  invalid_count : nat;
  warned_column : string;
}.

#[global] Instance removal_warning_eq_dec : EqDecision removal_warning.
Proof. solve_decision. Defined.

(** One iteration of the loop: the state is the current frame and what
    has been printed so far. *)
Definition validate_column (st : DataFrame * list removal_warning)
    (item : string * (Qc * Qc)) : DataFrame * list removal_warning :=
  let '(df, printed) := st in
  let '(column, (min_val, max_val)) := item in
  if bool_decide (column ∈ columns df) then
    let count := n_rows (select (invalid_mask column min_val max_val) df) in
    let printed' :=
      if (0 <? count) then printed ++ [mkWarning count column]
      else printed in
    (select (keep_mask column min_val max_val) df, printed')
  else st.

(** [filter_unrealistic_values(df, valid_ranges)]: the returned frame and
    the warnings printed, in order. *)
Definition filter_unrealistic_values (df : DataFrame)
    (valid_ranges : list (string * (Qc * Qc)))
    : DataFrame * list removal_warning :=
  foldl validate_column (df, []) valid_ranges.

(** *** Stratification labels (notebook cell 10) *)

Definition classify_bmi (bmi_value : cell) : string :=
  if cell_lt bmi_value (qc 185 10) then "Underweight"
  else if cell_ge bmi_value (qc 185 10) && cell_lt bmi_value (qz 25)
       then "Healthy Weight"
  else if cell_ge bmi_value (qz 25) && cell_lt bmi_value (qz 30)
       then "Overweight"
  else if cell_ge bmi_value (qz 30) && cell_lt bmi_value (qz 35)
       then "Obese"
  else "Extremely Obese".

(** [pd.cut(x, bins=bins, labels=labels, right=False)] on one element:
    the label of the interval [bins[i] <= x < bins[i+1]] holding [x], and
    a missing value (None) when no interval does or [x] is NaN. *)
Fixpoint pd_cut (bins : list Qc) (labels : list string) (x : cell)
    : option string :=
  match bins, labels with
  | lo :: ((hi :: _) as bins'), label :: labels' =>
      if cell_ge x lo && cell_lt x hi then Some label
      else pd_cut bins' labels' x
  | _, _ => None
  end.

Definition age_bins : list Qc := [qz 16; qz 26; qz 36; qz 46; qz 56; qz 65].
Definition age_labels : list string :=
  ["16-26"; "26-36"; "36-46"; "46-56"; "56-65"].

(** The intervals of [pd.cut]: consecutive pairs of bin edges. *)
Definition bands (bins : list Qc) : list (Qc * Qc) :=
  zip bins (drop 1 bins).

Definition in_band (x : Qc) (b : Qc * Qc) : Prop := (b.1 <= x)%Qc ∧ (x < b.2)%Qc.

Definition age_group (r : row) : option string :=
  pd_cut age_bins age_labels (cell_div (at_col r "age_in_months") (qz 12)).

(** Python's [str] on a float64, as [Series.astype(str)] applies it to a
    number: ["1.0"] for 1.0 and so on.  Its digits are left open. *)
Class FloatStr := float_str : Qc → string.

(** [Series.astype(str)] on a float column and on a categorical column:
    a missing value becomes the text ["nan"]. *)
Definition cell_astype_str `{FloatStr} (c : cell) : string :=
  match c with Num q => float_str q | NaN => "nan" end.

Definition category_astype_str (c : option string) : string :=
  default "nan" c.

(** A row of the validated table with the three derived columns. *)
Record strat_row : Type := mkStratRow {
  base : row;
  age_group_col : option string;
  bmi_group_col : string;
  stratify_group_col : string;
}.

#[global] Instance strat_row_eq_dec : EqDecision strat_row.
Proof. solve_decision. Defined.

Definition stratify_key `{FloatStr} (r : row) : string :=
  category_astype_str (age_group r) +:+ "_" +:+
  cell_astype_str (at_col r "gender") +:+ "_" +:+
  cell_astype_str (at_col r "ethnicity") +:+ "_" +:+
  classify_bmi (at_col r "bmi").

Definition add_stratify_columns `{FloatStr} (validated : DataFrame)
    : list strat_row :=
  (λ r, mkStratRow r (age_group r) (classify_bmi (at_col r "bmi"))
                   (stratify_key r)) <$> rows validated.

(** *** Train/test split (notebook cell 11) *)

(** [Series.value_counts()]: occurrences of each value. *)
Definition value_counts (s : list string) : gmap string nat :=
  foldr (λ x m, <[x := S (default 0 (m !! x))]> m) ∅ s.

(** [x if group_counts[x] >= 2 else 'Other'] *)
Definition collapse_key (group_counts : gmap string nat) (x : string)
    : string :=
  if (2 <=? default 0 (group_counts !! x)) then x else "Other".

Definition collapse_rare_groups (table : list strat_row) : list strat_row :=
  let group_counts := value_counts (stratify_group_col <$> table) in
  (λ r, mkStratRow (base r) (age_group_col r) (bmi_group_col r)
          (collapse_key group_counts (stratify_group_col r))) <$> table.

(** numpy's [RandomState], as far as the splitter uses it.  The stream
    of random numbers is not modelled: a generator is any state type with
    the two draws below, each returning its result and the next state.
    - [rng.permutation(x)] returns a shuffled copy of [x] (of
      [np.arange(x)] for an integer [x]);
    - [rng.choice(a, size=k, replace=False)] returns [k] elements of
      [a] drawn without replacement.
    The splitter is seeded with [random_state=42]. *)
Class RandomState (RS : Type) : Type := {
  rng_seed : nat → RS;
  rng_permutation : RS → list nat → list nat * RS;
  rng_choice : RS → list nat → nat → list nat * RS;
  rng_permutation_spec s l : (rng_permutation s l).1 ≡ₚ l;
  rng_choice_spec s l size :
    size ≤ length l →
    (rng_choice s l size).1 ⊆+ l ∧ length (rng_choice s l size).1 = size;
}.

(** The [ValueError]s of the splitter. *)
Inductive split_error : Type :=
  | InconsistentLength       (* "Found input variables with inconsistent
                                 numbers of samples" *)
  | EmptyTrainSet            (* "the resulting train set will be empty" *)
  | LeastPopulatedClass      (* "The least populated class in y has only 1
                                 member, which is too few." *)
  | TrainSizeBelowClasses    (* "The train_size = .. should be greater or
                                 equal to the number of classes = .." *)
  | TestSizeBelowClasses.    (* "The test_size = .. should be greater or
                                 equal to the number of classes = .." *)

#[global] Instance split_error_eq_dec : EqDecision split_error.
Proof. solve_decision. Defined.

(** [_validate_shuffle_split(n_samples, test_size=0.30, train_size=None)]:
    [n_test = ceil(0.30 * n_samples)], [n_train = n_samples - n_test].
    The ceiling is taken of the exact product; the float64 product gives
    the same ceiling for every [n_samples] up to two million.  (The
    splitter validates the two sizes once more as integers, which cannot
    fail once the train set is not empty.) *)
Definition validate_shuffle_split (n_samples : nat)
    : split_error + (nat * nat) :=
  let n_test := (3 * n_samples + 9) / 10 in
  let n_train := n_samples - n_test in
  if (n_train =? 0) then inl EmptyTrainSet else inr (n_train, n_test).

(** [floored[inds] += 1] *)
Definition increment_at (inds : list nat) (floored : list nat) : list nat :=
  foldr (λ i f, alter S i f) floored inds.

(** [np.where(remainder == value)] *)
Definition np_where_eq (remainder : list nat) (value : nat) : list nat :=
  filter (λ j, remainder !! j = Some value) (seq 0 (length remainder)).

(** The loop [for value in values] of [_approximate_mode]. *)
Fixpoint add_by_remainder `{RandomState RS} (values remainder floored : list nat)
    (need_to_add : nat) (s : RS) : list nat * RS :=
  match values with
  | [] => (floored, s)
  | value :: values' =>
      let inds := np_where_eq remainder value in
      let add_now := length inds `min` need_to_add in
      let '(inds, s) := rng_choice s inds add_now in
      let floored := increment_at inds floored in
      let need_to_add := need_to_add - add_now in
      if (need_to_add =? 0) then (floored, s)
      else add_by_remainder values' remainder floored need_to_add s
  end.

(** [_approximate_mode(class_counts, n_draws, rng)].  The code computes
    [continuous = class_counts / class_counts.sum() * n_draws]; here
    [continuous[i]] is the exact fraction [class_counts[i] * n_draws / total],
    so [floored[i]] is its quotient and [remainder[i]] is held by its
    numerator over the common denominator [total]. *)
Definition approximate_mode `{RandomState RS} (class_counts : list nat)
    (n_draws : nat) (s : RS) : list nat * RS :=
  let total := sum_list class_counts in
  let floored := (λ c, c * n_draws / total) <$> class_counts in
  let need_to_add := n_draws - sum_list floored in
  if (0 <? need_to_add) then
    let remainder := (λ c, (c * n_draws) `mod` total) <$> class_counts in
    let values := reverse (np_unique le remainder) in
    add_by_remainder values remainder floored need_to_add s
  else (floored, s).

(** [a.take(permutation, mode='clip')] *)
Definition np_take_clip (a : list nat) (permutation : list nat) : list nat :=
  omap (λ p, a !! (p `min` (length a - 1))) permutation.

(** The loop [for i in range(n_classes)] of [_iter_indices]: the train and
    the test indices drawn from every class. *)
Fixpoint draw_per_class `{RandomState RS} (class_indices : list (list nat))
    (n_i t_i : list nat) (s : RS) : (list nat * list nat) * RS :=
  match class_indices, n_i, t_i with
  | indices :: class_indices', n :: n_i', t :: t_i' =>
      let '(permutation, s) := rng_permutation s (seq 0 (length indices)) in
      let perm_indices_class_i := np_take_clip indices permutation in
      let '((train, test), s) := draw_per_class class_indices' n_i' t_i' s in
      ((take n perm_indices_class_i ++ train,
        take t (drop n perm_indices_class_i) ++ test), s)
  | _, _, _ => (([], []), s)
  end.

Definition string_le (a b : string) : Prop := String.leb a b = true.

#[global] Instance string_le_dec : RelDecision string_le.
Proof. intros a b. unfold string_le. apply _. Defined.

(** [StratifiedShuffleSplit._iter_indices], first split. *)
Definition iter_indices `{RandomState RS} (n_train n_test : nat)
    (y : list string) (s : RS)
    : split_error + ((list nat * list nat) * RS) :=
  let classes := np_unique string_le y in
  let n_classes := length classes in
  let class_counts := (λ c, occurrences c y) <$> classes in
  if bool_decide (Exists (λ c, c < 2) class_counts)
  then inl LeastPopulatedClass
  else if (n_train <? n_classes) then inl TrainSizeBelowClasses
  else if (n_test <? n_classes) then inl TestSizeBelowClasses
  else
    let class_indices :=
      (λ c, filter (λ j, y !! j = Some c) (seq 0 (length y))) <$> classes in
    let '(n_i, s) := approximate_mode class_counts n_train s in
    let class_counts_remaining := zip_with Nat.sub class_counts n_i in
    let '(t_i, s) := approximate_mode class_counts_remaining n_test s in
    let '((train, test), s) := draw_per_class class_indices n_i t_i s in
    let '(train, s) := rng_permutation s train in
    let '(test, s) := rng_permutation s test in
    inr ((train, test), s).

(** [X.iloc[indices]] *)
Definition safe_indexing {A} (X : list A) (indices : list nat) : list A :=
  omap (λ i, X !! i) indices.

(** [train_test_split(X, test_size=0.30, random_state=seed, stratify=y)] *)
Definition train_test_split `{RandomState RS} {A} (X : list A)
    (y : list string) (random_state : nat)
    : split_error + (list A * list A) :=
  match validate_shuffle_split (length X) with
  | inl e => inl e
  | inr (n_train, n_test) =>
      if negb (length X =? length y) then inl InconsistentLength
      else
        match iter_indices n_train n_test y (rng_seed random_state) with
        | inl e => inl e
        | inr ((train, test), _) =>
            inr (safe_indexing X train, safe_indexing X test)
        end
  end.

(** Cells 10 and 11 as a whole: derive the labels, collapse the rare
    keys, then split. *)
Definition stratified_split `{FloatStr} `{RandomState RS}
    (validated : DataFrame)
    : split_error + (list strat_row * list strat_row) :=
  let table := collapse_rare_groups (add_stratify_columns validated) in
  train_test_split table (stratify_group_col <$> table) 42.

(** *** XPT to CSV converter (first notebook) *)

(** A value held by a decoded record: a number or a text. *)
Inductive pyval : Type :=
  | PyFloat (c : cell)
  | PyStr (s : string).

(** The csv writer stringifies a value with [str]; a text is written as
    it is. *)
Definition csv_str `{FloatStr} (v : pyval) : string :=
  match v with PyFloat c => cell_astype_str c | PyStr s => s end.

(** What [xport.XportReader] gives: the field names of the file and its
    records; a record is read by attribute name.  The records are named
    tuples built with [rename=True]: a field whose name cannot be an
    attribute (a leading underscore, a keyword, a repeated name) is held
    under the positional name ["_1"], ["_2"], ... instead, so a record
    need not have an attribute for every field. *)
Record XportReader : Type := mkReader {
  fields : list string;
  records : list (gmap string pyval);
}.

(** [getattr(row, name, default)] *)
Definition getattr (r : gmap string pyval) (name : string) (dflt : pyval)
    : pyval :=
  default dflt (r !! name).

(** A Python dict keeps its keys in insertion order; assigning to a key
    already present replaces the value and keeps the position. *)
Definition dict_set {V} (d : list (string * V)) (k : string) (v : V)
    : list (string * V) :=
  if bool_decide (k ∈ d.*1)
  then (λ kv, if bool_decide (kv.1 = k) then (k, v) else kv) <$> d
  else d ++ [(k, v)].

Definition dict_of_items {V} (items : list (string * V))
    : list (string * V) :=
  foldl (λ d kv, dict_set d kv.1 kv.2) [] items.

Definition dict_get {V} (d : list (string * V)) (k : string) : option V :=
  (λ ikv : nat * (string * V), ikv.2.2) <$> list_find (λ kv, kv.1 = k) d.

(** What the converter prints and writes, in order. *)
Inductive output : Type :=
  | PrintMissingColumns (missing_columns : list string)
      (* "Warning: Missing columns in XPT file: [...]" *)
  | MakeDirs
  | WriteHeader (fieldnames : list string)
  | WriteRow (cells : list string)
  | PrintSaved      (* "Data successfully saved to ..." *)
  | PrintError.     (* "Error: ..." *)

(** [DictWriter._dict_to_list]: a key outside [fieldnames] raises
    [ValueError] (None); a field without a key is written as the empty
    [restval]. *)
Definition dict_to_list `{FloatStr} (fieldnames : list string)
    (rowdict : list (string * pyval)) : option (list string) :=
  if bool_decide (Forall (λ k, k ∈ fieldnames) rowdict.*1)
  then Some ((λ key, default "" (csv_str <$> dict_get rowdict key))
               <$> fieldnames)
  else None.

(** [getattr(row, old_name, "nan") if old_name in available_fields
    else "nan"] *)
Definition requested_value (available_fields : list string)
    (r : gmap string pyval) (old_name : string) : pyval :=
  if bool_decide (old_name ∈ available_fields)
  then getattr r old_name (PyStr "nan")
  else PyStr "nan".

(** The dict comprehension of the row loop. *)
Definition row_dict (column_mapping : list (string * string))
    (available_fields : list string) (r : gmap string pyval)
    : list (string * pyval) :=
  dict_of_items
    ((λ on : string * string,
        (on.2, requested_value available_fields r on.1))
       <$> column_mapping).

(** [for row in reader: writer.writerow(...)], then the final print; an
    exception ends the loop and is reported by the handler. *)
Fixpoint write_rows `{FloatStr} (fieldnames : list string)
    (column_mapping : list (string * string)) (available_fields : list string)
    (rs : list (gmap string pyval)) : list output :=
  match rs with
  | [] => [PrintSaved]
  | r :: rs' =>
      match dict_to_list fieldnames
              (row_dict column_mapping available_fields r) with
      | Some cells =>
          WriteRow cells
            :: write_rows fieldnames column_mapping available_fields rs'
      | None => [PrintError]
      end
  end.

(** [convert_xpt_to_csv(columns_to_save, new_columns, xpt, csv)] on a
    file that opens and decodes to [reader], where creating the
    directory, opening the csv file and writing to it succeed.  What the
    function prints when one of these steps raises (the handler's error
    message, after the warning if it was already printed) is outside
    this definition; the only exception it follows is the [ValueError]
    of the csv writer. *)
Definition convert_xpt_to_csv `{FloatStr}
    (columns_to_save new_columns : list string) (reader : XportReader)
    : list output :=
  let column_mapping := dict_of_items (zip columns_to_save new_columns) in
  let available_fields := fields reader in
  let missing_columns :=
    filter (λ col, col ∉ available_fields) columns_to_save in
  (if bool_decide (missing_columns = []) then []
   else [PrintMissingColumns missing_columns])
  ++ [MakeDirs; WriteHeader new_columns]
  ++ write_rows new_columns column_mapping available_fields (records reader).

(** The rows written to the csv file, header excluded. *)
Definition data_rows (out : list output) : list (list string) :=
  omap (λ o, match o with WriteRow cells => Some cells | _ => None end) out.

(** The column mappings of the notebook. *)
Definition columns_to_save_bm : list string :=
  ["SEQN"; "BMXWT"; "BMXHT"; "BMXBMI"; "BMXLEG"; "BMXCALF"; "BMXARML";
   "BMXARMC"; "BMXWAIST"; "BMXTHICR"; "BMAAMP"].
Definition new_columns_bm : list string :=
  ["id"; "weight"; "height"; "bmi"; "upper_leg_length";
   "maximal_calf_circumference"; "upper_arm_length"; "arm_circumference";
   "waist_circumference"; "thigh_circumference"; "amputation"].

Definition columns_to_save_demo : list string :=
  ["SEQN"; "RIAGENDR"; "RIDAGEEX"; "RIDRETH1"; "RIDEXPRG"].
Definition new_columns_demo : list string :=
  ["id"; "gender"; "age_in_months"; "ethnicity"; "pregnancy_status"].

Definition columns_to_save_lean_mass_data : list string :=
  ["SEQN"; "DXAEXSTS"; "DXDTOFAT"; "DXDTOLI"].
Definition new_columns_lean_mass_data : list string :=
  ["id"; "exam_status"; "total_fat_mass"; "total_lean_mass"].

Definition columns_to_save_cv : list string := ["SEQN"; "CVDFITLV"].
Definition new_columns_cv : list string := ["id"; "cv_fitness_level"].

(** The mappings passed to the converter by the batch loop. *)
Definition column_mappings : list (list string * list string) :=
  [ (columns_to_save_bm, new_columns_bm);
    (columns_to_save_demo, new_columns_demo);
    (columns_to_save_lean_mass_data, new_columns_lean_mass_data);
    (columns_to_save_cv, new_columns_cv) ].

(** *** Vocabulary of the statements about the exam aggregator *)



(** *** Vocabulary of the statements about the split *)

(** The stratification labels the splitter accepts: the train set is not
    empty, every label occurs at least twice, and neither side of the
    split is smaller than the number of distinct labels. *)
Definition split_accepts (y : list string) : bool :=
  let n_test := (3 * length y + 9) / 10 in
  let n_train := length y - n_test in
  let classes := np_unique string_le y in
  negb (n_train =? 0)
  && forallb (λ c, 2 <=? occurrences c y) classes
  && (length classes <=? n_train)
  && (length classes <=? n_test).

(** The number of classes that can still take one more draw: those
    whose remainder is positive and among [values]. *)
Definition cap_pos (remainder values : list nat) : nat :=
  length (filter (λ v, 0 < v ∧ v ∈ values) remainder).

(** Whether a text holds the character [c]. *)
Fixpoint contains_char (c : Ascii.ascii) (s : string) : bool :=
  match s with
  | EmptyString => false
  | String a s' => bool_decide (a = c) || contains_char c s'
  end.

(** *** Vocabulary of the statements about range validation *)

(** The rule of one entry of the range table on a frame with columns
    [cols]: rows are kept by [keep_mask] when the column is covered. *)
Definition rule_keeps (cols : list string) (item : string * (Qc * Qc))
    (r : row) : bool :=
  if bool_decide (item.1 ∈ cols) then keep_mask item.1 item.2.1 item.2.2 r
  else true.

(** The rows still present when the [k]-th entry of the table is reached:
    those kept by every earlier rule. *)
Definition still_present (df : DataFrame)
    (ranges : list (string * (Qc * Qc))) (k : nat) : list row :=
  filter (λ r, forallb (λ item, rule_keeps (columns df) item r)
                       (take k ranges) = true)
         (rows df).

(** The row holds a number in [column], and that number is below the
    minimum or above the maximum. *)
Definition out_of_range (column : string) (min_val max_val : Qc) (r : row)
    : Prop :=
  match at_col r column with
  | Num q => (q < min_val)%Qc ∨ (max_val < q)%Qc
  | NaN => False
  end.

#[global] Instance out_of_range_dec column min_val max_val r :
  Decision (out_of_range column min_val max_val r).
Proof. unfold out_of_range. destruct (at_col r column); apply _. Defined.

(** What the [k]-th entry reports: the number of rows still present that
    hold a number below the minimum or above the maximum, when there is
    one. *)
Definition reported_at (df : DataFrame)
    (ranges : list (string * (Qc * Qc))) (k : nat) : option removal_warning :=
  item ← ranges !! k;
  if bool_decide (item.1 ∈ columns df) then
    let count :=
      length (filter (out_of_range item.1 item.2.1 item.2.2)
                     (still_present df ranges k)) in
    if (0 <? count) then Some (mkWarning count item.1) else None
  else None.

(** *** Concrete instances for examples *)

(** A rendering of floats that prints whole numbers as Python does
    (["1.0"]); it is only applied to whole numbers below. *)
Definition whole_float_str : FloatStr :=
  λ q, pretty (Qnum (this q)) +:+ ".0".

(** A generator without randomness: it reverses where numpy would
    shuffle and picks the first [size] elements where numpy would draw. *)
Definition reversing_permutation (s : unit) (l : list nat)
    : list nat * unit :=
  (reverse l, ()).

Definition first_choice (s : unit) (l : list nat) (size : nat)
    : list nat * unit :=
  (take size l, ()).

Lemma reversing_permutation_spec s l : (reversing_permutation s l).1 ≡ₚ l.
Proof. simpl. by rewrite reverse_Permutation. Qed.

Lemma first_choice_spec s l size :
  size ≤ length l →
  (first_choice s l size).1 ⊆+ l ∧ length (first_choice s l size).1 = size.
Proof.
  intros Hk. simpl. split.
  - apply sublist_submseteq, sublist_take.
  - rewrite length_take. lia.
Qed.

Definition reversing_rng : RandomState unit :=
  {| rng_seed _ := ();
     rng_permutation := reversing_permutation;
     rng_choice := first_choice;
     rng_permutation_spec := reversing_permutation_spec;
     rng_choice_spec := first_choice_spec |}.

(** A sum for tables of whole numbers, which never rounds there: the
    example tables below hold whole numbers only. *)
Definition whole_number_sum : Float64Sum :=
  {| float_sum := sum_Qc; float_sum_whole := λ a _ _, eq_refl |}.

Definition body_example : DataFrame :=
  mkDataFrame ["id"; "weight"; "height"]
    [ {[ "id" := Num (qz 1); "weight" := Num (qz 70); "height" := Num (qz 180) ]};
      {[ "id" := Num (qz 2); "weight" := Num (qz 20); "height" := Num (qz 90) ]};
      {[ "id" := Num (qz 3); "weight" := Num (qz 80); "height" := Num (qz 300) ]};
      {[ "id" := Num (qz 4); "weight" := NaN; "height" := Num (qz 170) ]};
      {[ "id" := Num (qz 5); "weight" := Num (qz 300); "height" := Num (qz 100) ]} ].

Definition lf_row (i status fat lean : Z) : row :=
  {[ "id" := Num (qz i); "exam_status" := Num (qz status);
     "total_fat_mass" := Num (qz fat); "total_lean_mass" := Num (qz lean) ]}.

(** Subject 7 has five valid exams, with fat mass 30 three times and
    lean mass all different; subject 5 has two valid exams. *)
Definition lean_fat_example : DataFrame :=
  mkDataFrame ["id"; "exam_status"; "total_fat_mass"; "total_lean_mass"]
    [ lf_row 7 1 30 50; lf_row 5 1 10 40; lf_row 7 1 20 54;
      lf_row 7 1 30 51; lf_row 5 1 11 42; lf_row 7 2 99 99;
      lf_row 7 1 30 52; lf_row 7 1 40 53;
      {[ "id" := Num (qz 9); "exam_status" := Num (qz 1);
         "total_fat_mass" := NaN; "total_lean_mass" := Num (qz 53) ]} ].

(** One subject with three valid exams; the fat masses 10000, 10001 and
    10003 are all different and add up to 30004. *)
Definition thirds_example : DataFrame :=
  mkDataFrame ["id"; "exam_status"; "total_fat_mass"; "total_lean_mass"]
    [ lf_row 3 1 10000 40000; lf_row 3 1 10001 40000;
      lf_row 3 1 10003 40000 ].

Definition demographic_example : DataFrame :=
  mkDataFrame ["id"; "gender"]
    [ {[ "id" := Num (qz 3); "gender" := Num (qz 1) ]};
      {[ "id" := Num (qz 5); "gender" := Num (qz 2) ]};
      {[ "id" := Num (qz 9); "gender" := Num (qz 2) ]};
      {[ "id" := Num (qz 1); "gender" := Num (qz 1) ]} ].

Definition mass_example : DataFrame :=
  mkDataFrame ["id"; "total_fat_mass"; "total_lean_mass"]
    [ {[ "id" := Num (qz 1); "total_fat_mass" := Num (qz 30);
         "total_lean_mass" := Num (qz 50) ]};
      {[ "id" := Num (qz 5); "total_fat_mass" := Num (qz 20);
         "total_lean_mass" := Num (qz 40) ]};
      {[ "id" := Num (qz 7); "total_fat_mass" := Num (qz 25);
         "total_lean_mass" := Num (qz 45) ]} ].

(** A body-measurement file of a cycle without the amputation field
    [BMAAMP], with two records. *)
Definition bm_fields : list string := take 10 columns_to_save_bm.

Definition bm_record (values : list cell) : gmap string pyval :=
  list_to_map (zip bm_fields (PyFloat <$> values)).

Definition reader_example : XportReader :=
  mkReader bm_fields
    [ bm_record (Num <$> [qz 1; qz 70; qz 175; qz 23; qz 40; qz 35; qz 36;
                          qz 30; qz 80; qz 50]);
      bm_record [Num (qz 2); NaN; Num (qz 160); Num (qz 21); Num (qz 38);
                 Num (qz 33); Num (qz 34); Num (qz 28); Num (qz 75);
                 Num (qz 48)] ].

(** A file with the fields [SEQN] and [_X]; its one record holds the
    second field under the positional name [_1]. *)
Definition renamed_reader_example : XportReader :=
  mkReader ["SEQN"; "_X"]
    [ {[ "SEQN" := PyFloat (Num (qz 1)); "_1" := PyFloat (Num (qz 5)) ]} ].

(** A row of the validated table, as far as stratification reads it. *)
Definition health_row (i age_in_months gender ethnicity bmi : Z) : row :=
  {[ "id" := Num (qz i); "age_in_months" := Num (qz age_in_months);
     "gender" := Num (qz gender); "ethnicity" := Num (qz ethnicity);
     "bmi" := Num (qz bmi) ]}.

Definition health_columns : list string :=
  ["id"; "age_in_months"; "gender"; "ethnicity"; "bmi"].

(** Four subjects with one stratification key; the first is 15.5 years
    old. *)
Definition young_example : DataFrame :=
  mkDataFrame health_columns
    [ health_row 1 186 1 3 22; health_row 2 187 1 3 23;
      health_row 3 188 1 3 21; health_row 4 189 1 3 24 ].

(** Six subjects, three stratification keys, each occurring twice. *)
Definition three_pairs_example : DataFrame :=
  mkDataFrame health_columns
    [ health_row 1 240 1 3 22; health_row 2 250 1 3 23;
      health_row 3 360 2 3 27; health_row 4 370 2 3 28;
      health_row 5 480 1 4 32; health_row 6 490 1 4 33 ].

(** Five subjects: four share a stratification key, the fifth has a key
    of its own. *)
Definition lone_key_example : DataFrame :=
  mkDataFrame health_columns
    [ health_row 1 240 1 3 22; health_row 2 250 1 3 23;
      health_row 3 260 1 3 21; health_row 4 270 1 3 24;
      health_row 5 480 2 4 32 ].

(** *** Loading the tables (second notebook, cell 2) *)

Definition survey_years : list string :=
  ["1999_2000"; "2001_2002"; "2003_2004"; "2005_2006"].
Definition data_types : list string :=
  ["lean_fat_data"; "body_measures"; "demographic_data"].

(** [f"csv/{year}/{data_type}.csv"] *)
Definition file_path (year data_type : string) : string :=
  "csv/" +:+ year +:+ "/" +:+ data_type +:+ ".csv".

(** The body of the inner loop.  [csv_files] holds the frame that
    [pd.read_csv] gives for every path that exists; for any other path it
    raises [FileNotFoundError] and the path is printed in the warning
    "Warning: File not found {file_path}, skipping...".  The state is the
    dict [dataframes] and the paths printed so far.  (The dict is created
    with every data type as a key, so [dataframes[data_type]] is always
    there.) *)
Definition load_file (csv_files : gmap string DataFrame) (year : string)
    (st : list (string * list DataFrame) * list string) (data_type : string)
    : list (string * list DataFrame) * list string :=
  match csv_files !! file_path year data_type with
  | Some df =>
      (dict_set st.1 data_type (default [] (dict_get st.1 data_type) ++ [df]),
       st.2)
  | None => (st.1, st.2 ++ [file_path year data_type])
  end.

(** The two nested loops over [survey_years] and [data_types]. *)
Definition load_dataframes (csv_files : gmap string DataFrame)
    : list (string * list DataFrame) * list string :=
  foldl (λ st year, foldl (load_file csv_files year) st data_types)
        (dict_of_items ((λ data_type, (data_type, [])) <$> data_types), [])
        survey_years.

(** [pd.concat(objs, ignore_index=True)]: the rows of all frames in
    order, under the columns of all frames in the order of their first
    appearance (a cell of a column that a frame lacks is missing); an
    empty list raises "No objects to concatenate" (None). *)
Definition pd_concat (objs : list DataFrame) : option DataFrame :=
  match objs with
  | [] => None
  | _ =>
      Some (mkDataFrame
              (foldl (λ acc c, if bool_decide (c ∈ acc) then acc
                               else acc ++ [c])
                     [] (concat (columns <$> objs)))
              (concat (rows <$> objs)))
  end.

(** The cell as a whole: the three tables [lean_fat_data],
    [body_measurements], [demographic_data] (None when a concatenation
    raises) and the paths printed in warnings. *)
Definition load_tables (csv_files : gmap string DataFrame)
    : option (DataFrame * DataFrame * DataFrame) * list string :=
  let '(dataframes, printed) := load_dataframes csv_files in
  (lean_fat_data ←
     pd_concat (default [] (dict_get dataframes "lean_fat_data"));
   body_measurements ←
     pd_concat (default [] (dict_get dataframes "body_measures"));
   demographic_data ←
     pd_concat (default [] (dict_get dataframes "demographic_data"));
   Some (lean_fat_data, body_measurements, demographic_data),
   printed).

(** *** From the loaded tables to the validated table (cells 3 to 9) *)

Definition validated_health_data `{Float64Sum}
    (lean_fat_data body_measurements demographic_data : DataFrame)
    : DataFrame :=
  (filter_unrealistic_values
     (cleaned_health_data
        (filtered_health_data
           (merged_health_data body_measurements demographic_data
              (aggregated_lean_fat_df
                 (filtered_lean_fat_data lean_fat_data)))))
     valid_ranges).1.

(** *** The batch conversion (first notebook, last cell) *)

Definition survey_cycles
    : list (string * string * string * list string * list string) :=
  [ ("1999_2000", "BMX", "body_measures", columns_to_save_bm, new_columns_bm);
    ("1999_2000", "DEMO", "demographic_data", columns_to_save_demo,
     new_columns_demo);
    ("1999_2000", "dxx", "lean_fat_data", columns_to_save_lean_mass_data,
     new_columns_lean_mass_data);
    ("1999_2000", "CVX", "cv_level", columns_to_save_cv, new_columns_cv);
    ("2001_2002", "BMX_B", "body_measures", columns_to_save_bm,
     new_columns_bm);
    ("2001_2002", "DEMO_B", "demographic_data", columns_to_save_demo,
     new_columns_demo);
    ("2001_2002", "dxx_b", "lean_fat_data", columns_to_save_lean_mass_data,
     new_columns_lean_mass_data);
    ("2001_2002", "CVX_B", "cv_level", columns_to_save_cv, new_columns_cv);
    ("2003_2004", "BMX_C", "body_measures", columns_to_save_bm,
     new_columns_bm);
    ("2003_2004", "DEMO_C", "demographic_data", columns_to_save_demo,
     new_columns_demo);
    ("2003_2004", "dxx_c", "lean_fat_data", columns_to_save_lean_mass_data,
     new_columns_lean_mass_data);
    ("2003_2004", "CVX_C", "cv_level", columns_to_save_cv, new_columns_cv);
    ("2005_2006", "BMX_D", "body_measures", columns_to_save_bm,
     new_columns_bm);
    ("2005_2006", "DEMO_D", "demographic_data", columns_to_save_demo,
     new_columns_demo);
    ("2005_2006", "dxx_d", "lean_fat_data", columns_to_save_lean_mass_data,
     new_columns_lean_mass_data) ].

(** [f"xpt/{cycle}/{xpt_file}.xpt"] and [f"csv/{cycle}/{csv_file}.csv"] *)
Definition xpt_file_path (cycle xpt_file : string) : string :=
  "xpt/" +:+ cycle +:+ "/" +:+ xpt_file +:+ ".xpt".
Definition csv_path_to_save (cycle csv_file : string) : string :=
  "csv/" +:+ cycle +:+ "/" +:+ csv_file +:+ ".csv".

(** The converter called with a path: [open] raises when there is no
    file at [xpt_file_path], which the handler reports; [xpt_files] holds
    the files that exist, each with what it decodes to.  A file that
    exists and does not decode is outside this definition, as are
    failures of the output steps. *)
Definition convert_xpt_path `{FloatStr} (xpt_files : gmap string XportReader)
    (columns_to_save new_columns : list string) (xpt_file_path : string)
    : list output :=
  match xpt_files !! xpt_file_path with
  | Some reader => convert_xpt_to_csv columns_to_save new_columns reader
  | None => [PrintError]
  end.

(** The loop over [survey_cycles]: for every entry, the csv path and what
    the converter prints and writes there.  (The two messages printed
    around the loop are left out.) *)
Definition process_survey_cycles `{FloatStr}
    (xpt_files : gmap string XportReader) : list (string * list output) :=
  (λ '(cycle, xpt_file, csv_file, columns, new_columns),
     (csv_path_to_save cycle csv_file,
      convert_xpt_path xpt_files columns new_columns
        (xpt_file_path cycle xpt_file)))
    <$> survey_cycles.

(** *** Example tables for the whole pipeline *)

Definition measured_row (i weight : Z) (amputation : cell) : row :=
  {[ "id" := Num (qz i); "weight" := Num (qz weight);
     "height" := Num (qz 175); "bmi" := Num (qz 23);
     "upper_leg_length" := Num (qz 40);
     "maximal_calf_circumference" := Num (qz 35);
     "upper_arm_length" := Num (qz 36); "arm_circumference" := Num (qz 30);
     "waist_circumference" := Num (qz 80);
     "thigh_circumference" := Num (qz 50); "amputation" := amputation ]}.

(** Subjects 5 and 7 are measured in full; subject 8 has an amputation and
    subject 9 an unrealistic weight. *)
Definition measured_example : DataFrame :=
  mkDataFrame new_columns_bm
    [ measured_row 5 70 NaN; measured_row 7 80 (Num (qz 2));
      measured_row 8 75 (Num (qz 1)); measured_row 9 20 NaN ].

Definition interviewed_row (i gender age_in_months ethnicity : Z) : row :=
  {[ "id" := Num (qz i); "gender" := Num (qz gender);
     "age_in_months" := Num (qz age_in_months);
     "ethnicity" := Num (qz ethnicity); "pregnancy_status" := NaN ]}.

Definition interviewed_example : DataFrame :=
  mkDataFrame new_columns_demo
    [ interviewed_row 5 1 300 3; interviewed_row 7 2 400 4;
      interviewed_row 8 1 500 3; interviewed_row 9 2 350 1 ].

(** ** Part II: properties *)

(** *** Rational arithmetic on literals *)

(** Turns comparisons of [Qc] numbers against literals into linear
    arithmetic over [Q]. *)
Ltac qc_lra :=
  repeat match goal with
  | H : bool_decide _ = true |- _ => apply bool_decide_eq_true in H
  | H : bool_decide _ = false |- _ => apply bool_decide_eq_false in H
  end;
  unfold Qcle, Qclt, qz, qc in *; cbn [this Q2Qc] in *;
  repeat match goal with
  | |- context [Qred ?x] =>
      let v := eval vm_compute in (Qred x) in
      progress change (Qred x) with v
  | H : context [Qred ?x] |- _ =>
      let v := eval vm_compute in (Qred x) in
      progress change (Qred x) with v in H
  end;
  lra.

(** Equality of two closed [Qc] expressions. *)
Ltac qc_eq := simpl; apply Qc_is_canon; vm_compute; reflexivity.

(** *** Age bands *)

Lemma bands_age_bins :
  bands age_bins =
    [(qz 16, qz 26); (qz 26, qz 36); (qz 36, qz 46); (qz 46, qz 56);
     (qz 56, qz 65)].
Proof. reflexivity. Qed.

Lemma in_band_unique (a : Qc) (b b' : Qc * Qc) :
  b ∈ bands age_bins → b' ∈ bands age_bins →
  in_band a b → in_band a b' → b' = b.
Proof.
  rewrite bands_age_bins. unfold in_band.
  intros Hb Hb' [H1 H2] [H1' H2'].
  apply list_elem_of_In in Hb, Hb'. simpl in Hb, Hb'.
  destruct_or!; subst; simpl in *; try reflexivity; try done;
    exfalso; qc_lra.
Qed.

Lemma pd_cut_age_bins (a : Qc) :
  (qz 16 <= a)%Qc → (a < qz 65)%Qc →
  ∃ i label b,
    age_labels !! i = Some label ∧ bands age_bins !! i = Some b ∧
    pd_cut age_bins age_labels (Num a) = Some label ∧ in_band a b ∧
    (b.2 - b.1)%Qc = (if decide (i = 4) then qz 9 else qz 10).
Proof.
  intros Hlo Hhi. rewrite bands_age_bins.
  unfold age_bins, age_labels, pd_cut, cell_ge, cell_lt.
  destruct (decide (a < qz 26)%Qc);
    [exists 0, "16-26", (qz 16, qz 26)|
  destruct (decide (a < qz 36)%Qc);
    [exists 1, "26-36", (qz 26, qz 36)|
  destruct (decide (a < qz 46)%Qc);
    [exists 2, "36-46", (qz 36, qz 46)|
  destruct (decide (a < qz 56)%Qc);
    [exists 3, "46-56", (qz 46, qz 56)|
     exists 4, "56-65", (qz 56, qz 65)]]]].
  all: split; [reflexivity|]; split; [reflexivity|].
  all: split; [|split; [split; simpl; qc_lra|qc_eq]].
  all: repeat (case_bool_decide; simpl); try reflexivity; exfalso; qc_lra.
Qed.

Lemma pd_cut_age_bins_outside (a : Qc) :
  (a < qz 16)%Qc ∨ (qz 65 <= a)%Qc →
  pd_cut age_bins age_labels (Num a) = None.
Proof.
  intros Hout. unfold age_bins, age_labels, pd_cut, cell_ge, cell_lt.
  repeat (case_bool_decide; simpl); try reflexivity; exfalso;
    destruct Hout; qc_lra.
Qed.

(** C2 (as amended): an age of 16 up to, but not including, 65 years is
    put into exactly one of the five half-open bands
    [16,26) [26,36) [36,46) [46,56) [56,65); the first four span 10 years
    and the last one 9.  An age outside [16, 65) lies in none of the
    bands and gets no band. *)
Theorem age_group_bands (r : row) (months : Qc) :
  at_col r "age_in_months" = Num months →
  ((qz 16 <= months / qz 12)%Qc → (months / qz 12 < qz 65)%Qc →
   ∃ i label b,
     age_labels !! i = Some label ∧ bands age_bins !! i = Some b ∧
     age_group r = Some label ∧
     in_band (months / qz 12) b ∧
     (∀ b', b' ∈ bands age_bins → in_band (months / qz 12) b' → b' = b) ∧
     (b.2 - b.1)%Qc = (if decide (i = 4) then qz 9 else qz 10))
  ∧ ((months / qz 12 < qz 16)%Qc ∨ (qz 65 <= months / qz 12)%Qc →
     age_group r = None
     ∧ ∀ b, b ∈ bands age_bins → ¬ in_band (months / qz 12) b).
Proof.
  intros Hr. split.
  - intros Hlo Hhi.
    destruct (pd_cut_age_bins _ Hlo Hhi)
      as (i & label & b & Hl & Hb & Hc & Hin & Hw).
    exists i, label, b. split_and!; try done.
    + unfold age_group. by rewrite Hr.
    + intros b' Hb'. apply in_band_unique; [|done..].
      by eapply list_elem_of_lookup_2.
  - intros Hout. split.
    + unfold age_group. rewrite Hr. by apply pd_cut_age_bins_outside.
    + intros b Hb [H1 H2]. rewrite bands_age_bins in Hb.
      apply list_elem_of_In in Hb. simpl in Hb.
      destruct Hout; destruct_or!; subst; simpl in *; try done; qc_lra.
Qed.

Lemma age_group_bands_witness :
  (∃ i label b,
     age_labels !! i = Some label ∧ bands age_bins !! i = Some b ∧
     age_group {[ "age_in_months" := Num (qz 700) ]} = Some label ∧
     in_band (qz 700 / qz 12) b ∧
     (∀ b', b' ∈ bands age_bins → in_band (qz 700 / qz 12) b' → b' = b) ∧
     (b.2 - b.1)%Qc = (if decide (i = 4) then qz 9 else qz 10))
  ∧ (age_group {[ "age_in_months" := Num (qz 186) ]} = None
     ∧ ∀ b, b ∈ bands age_bins → ¬ in_band (qz 186 / qz 12) b).
Proof.
  split.
  - destruct (age_group_bands {[ "age_in_months" := Num (qz 700) ]}
                (qz 700)) as [Hin _]; [reflexivity|].
    apply Hin; by vm_compute.
  - destruct (age_group_bands {[ "age_in_months" := Num (qz 186) ]}
                (qz 186)) as [_ Hout]; [reflexivity|].
    apply Hout. left. by vm_compute.
Defined.

(** C2 (as stated) fails at 65 years (780 months): the age lies in
    [16, 66) but in none of the bands, and the last band spans 9 years. *)
Lemma age_group_65_in_no_band :
  let r : row := {[ "age_in_months" := Num (qz 780) ]} in
  let age := (qz 780 / qz 12)%Qc in
  (qz 16 <= age)%Qc ∧ (age < qz 66)%Qc ∧
  age_group r = None ∧
  (∀ b, b ∈ bands age_bins → ¬ in_band age b) ∧
  (∃ b, b ∈ bands age_bins ∧ (b.2 - b.1)%Qc ≠ qz 10).
Proof.
  split_and!.
  - by vm_compute.
  - by vm_compute.
  - by vm_compute.
  - intros b Hb [H1 H2]. rewrite bands_age_bins in Hb.
    apply list_elem_of_In in Hb. simpl in Hb.
    assert (Ha : (qz 780 / qz 12)%Qc = qz 65) by qc_eq.
    rewrite Ha in H1, H2.
    destruct_or!; subst; simpl in *; try done; qc_lra.
  - exists (qz 56, qz 65).
    split; [rewrite bands_age_bins; apply list_elem_of_In; simpl; tauto|].
    simpl. intros Heq. apply (f_equal this) in Heq. by vm_compute in Heq.
Qed.

(** *** Range validation *)

Lemma select_columns mask df : columns (select mask df) = columns df.
Proof. reflexivity. Qed.

Lemma validate_column_columns st item :
  columns (validate_column st item).1 = columns st.1.
Proof.
  destruct st as [df printed], item as [column [min_val max_val]]. simpl.
  by case_bool_decide.
Qed.

Lemma filter_mask_filter {A} (f g : A → bool) (l : list A) :
  filter (λ x, g x = true) (filter (λ x, f x = true) l)
  = filter (λ x, f x && g x = true) l.
Proof.
  rewrite list_filter_filter. apply list_filter_iff.
  intros x. rewrite andb_true_iff. tauto.
Qed.

Lemma foldl_validate_columns ranges df printed :
  columns (foldl validate_column (df, printed) ranges).1 = columns df.
Proof.
  revert df printed. induction ranges as [|item ranges IH]; intros df printed.
  - done.
  - change (foldl validate_column (df, printed) (item :: ranges))
      with (foldl validate_column (validate_column (df, printed) item) ranges).
    destruct (validate_column (df, printed) item) as [df' printed'] eqn:Hstep.
    rewrite IH.
    pose proof (validate_column_columns (df, printed) item) as Hc.
    by rewrite Hstep in Hc.
Qed.

(** The loop from any state: the frame is the current one filtered by
    all remaining rules. *)
Lemma foldl_validate_rows ranges df printed :
  rows (foldl validate_column (df, printed) ranges).1
  = filter (λ r, forallb (λ item, rule_keeps (columns df) item r) ranges
                 = true) (rows df).
Proof.
  revert df printed. induction ranges as [|item ranges IH]; intros df printed.
  - simpl. induction (rows df) as [|r l IHl]; [done|].
    rewrite filter_cons_True by done. by f_equal.
  - change (foldl validate_column (df, printed) (item :: ranges))
      with (foldl validate_column (validate_column (df, printed) item) ranges).
    destruct (validate_column (df, printed) item) as [df' printed'] eqn:Hstep.
    rewrite IH.
    assert (Hcols : columns df' = columns df).
    { pose proof (validate_column_columns (df, printed) item) as Hc.
      by rewrite Hstep in Hc. }
    rewrite Hcols.
    assert (Hrows : rows df' =
      filter (λ r, rule_keeps (columns df) item r = true) (rows df)).
    { destruct item as [column [min_val max_val]]. unfold rule_keeps.
      simpl in *. case_bool_decide; simplify_eq; simpl; [done|].
      induction (rows df') as [|r l IHl]; [done|].
      rewrite filter_cons_True by done. by f_equal. }
    rewrite Hrows, filter_mask_filter. done.
Qed.

Lemma keep_mask_bounds column min_val max_val r :
  keep_mask column min_val max_val r = true ↔
  ∃ q, at_col r column = Num q ∧ (min_val <= q)%Qc ∧ (q <= max_val)%Qc.
Proof.
  unfold keep_mask, cell_ge, cell_le. destruct (at_col r column) as [|q].
  - split; [done|]. by intros (q & ? & _).
  - rewrite andb_true_iff, !bool_decide_eq_true. split.
    + intros [??]. by exists q.
    + intros (q' & ? & ? & ?). by simplify_eq.
Qed.

(** C4: after range validation, every surviving row holds, in every
    covered column of the range table, a number within the inclusive
    bounds declared for that column. *)
Theorem validated_values_in_range (df : DataFrame)
    (ranges : list (string * (Qc * Qc)))
    (column : string) (min_val max_val : Qc) (r : row) :
  (column, (min_val, max_val)) ∈ ranges →
  column ∈ columns df →
  r ∈ rows (filter_unrealistic_values df ranges).1 →
  ∃ value, at_col r column = Num value ∧
           (min_val <= value)%Qc ∧ (value <= max_val)%Qc.
Proof.
  intros Hitem Hcol Hr. unfold filter_unrealistic_values in Hr.
  rewrite foldl_validate_rows in Hr.
  apply list_elem_of_filter in Hr as [Hall _].
  rewrite forallb_forall in Hall.
  apply list_elem_of_In, Hall in Hitem.
  unfold rule_keeps in Hitem. simpl in Hitem.
  rewrite bool_decide_eq_true_2 in Hitem by done.
  by apply keep_mask_bounds.
Qed.

Lemma validated_values_in_range_witness :
  ∃ value,
    at_col {[ "id" := Num (qz 5); "weight" := Num (qz 300);
              "height" := Num (qz 100) ]} "height" = Num value ∧
    (qz 100 <= value)%Qc ∧ (value <= qz 250)%Qc.
Proof.
  apply (validated_values_in_range body_example valid_ranges "height").
  - unfold valid_ranges. apply list_elem_of_In. simpl. tauto.
  - apply list_elem_of_In. simpl. tauto.
  - apply list_elem_of_In. vm_compute. tauto.
Defined.

Lemma filter_mask_true {A} (f : A → bool) (l : list A) :
  (∀ x, x ∈ l → f x = true) → filter (λ x, f x = true) l = l.
Proof.
  induction l as [|x l IH]; intros Hall; [done|].
  rewrite filter_cons_True by (apply Hall; left).
  f_equal. apply IH. intros y Hy. apply Hall. by right.
Qed.

Lemma still_present_0 df ranges : still_present df ranges 0 = rows df.
Proof. unfold still_present. by apply filter_mask_true. Qed.

(** The mask of the count holds exactly on the rows that hold a number
    below the minimum or above the maximum. *)
Lemma invalid_mask_spec column min_val max_val r :
  invalid_mask column min_val max_val r = true
  ↔ out_of_range column min_val max_val r.
Proof.
  unfold invalid_mask, out_of_range, cell_lt, cell_gt.
  destruct (at_col r column) as [|q]; [done|].
  by rewrite orb_true_iff, !bool_decide_eq_true.
Qed.

Lemma filter_invalid_mask column min_val max_val (l : list row) :
  filter (λ r, invalid_mask column min_val max_val r = true) l
  = filter (out_of_range column min_val max_val) l.
Proof. apply list_filter_iff. intros r. apply invalid_mask_spec. Qed.

(** One iteration, in the vocabulary of the statements. *)
Lemma validate_column_spec df printed item ranges :
  validate_column (df, printed) item
  = (mkDataFrame (columns df)
       (filter (λ r, rule_keeps (columns df) item r = true) (rows df)),
     printed ++ option_list (reported_at df (item :: ranges) 0)).
Proof.
  destruct item as [column [min_val max_val]].
  unfold validate_column, reported_at, rule_keeps. simpl.
  rewrite still_present_0. case_bool_decide; simpl.
  - unfold select, n_rows. simpl. rewrite filter_invalid_mask. f_equal.
    destruct (0 <? _); [done|]. by rewrite app_nil_r.
  - rewrite app_nil_r, filter_mask_true by done. by destruct df.
Qed.

Lemma still_present_S df item ranges k :
  still_present df (item :: ranges) (S k)
  = still_present
      (mkDataFrame (columns df)
         (filter (λ r, rule_keeps (columns df) item r = true) (rows df)))
      ranges k.
Proof. unfold still_present. simpl. by rewrite filter_mask_filter. Qed.

Lemma reported_at_S df item ranges k :
  reported_at df (item :: ranges) (S k)
  = reported_at
      (mkDataFrame (columns df)
         (filter (λ r, rule_keeps (columns df) item r = true) (rows df)))
      ranges k.
Proof. unfold reported_at. simpl. by rewrite still_present_S. Qed.

Lemma omap_reported_at_S df item ranges (l : list nat) :
  omap (reported_at df (item :: ranges)) (S <$> l)
  = omap
      (reported_at
         (mkDataFrame (columns df)
            (filter (λ r, rule_keeps (columns df) item r = true) (rows df)))
         ranges) l.
Proof.
  induction l as [|k l IHl]; [done|].
  csimpl. by rewrite reported_at_S, IHl.
Qed.

Lemma foldl_validate_printed ranges df printed :
  (foldl validate_column (df, printed) ranges).2
  = printed ++ omap (reported_at df ranges) (seq 0 (length ranges)).
Proof.
  revert df printed. induction ranges as [|item ranges IH]; intros df printed.
  - simpl. by rewrite app_nil_r.
  - change (foldl validate_column (df, printed) (item :: ranges))
      with (foldl validate_column (validate_column (df, printed) item) ranges).
    rewrite (validate_column_spec df printed item ranges), IH.
    rewrite <- app_assoc. f_equal.
    change (seq 0 (length (item :: ranges)))
      with (0 :: seq 1 (length ranges)).
    rewrite <- fmap_S_seq. csimpl.
    rewrite omap_reported_at_S.
    by destruct (reported_at df (item :: ranges) 0).
Qed.

(** Rows counted by a rule are rows removed by it. *)
Lemma invalid_not_kept column min_val max_val r :
  invalid_mask column min_val max_val r = true →
  keep_mask column min_val max_val r = false.
Proof.
  unfold invalid_mask, keep_mask, cell_lt, cell_gt, cell_ge, cell_le.
  destruct (at_col r column) as [|q]; [done|].
  rewrite orb_true_iff, andb_false_iff, !bool_decide_eq_true,
    !bool_decide_eq_false.
  intros [H|H]; [left|right]; by apply Qclt_not_le.
Qed.

Lemma length_filter_disjoint {A} (f g : A → bool) (l : list A) :
  (∀ x, f x = true → g x = false) →
  length (filter (λ x, f x = true) l) + length (filter (λ x, g x = true) l)
  ≤ length l.
Proof.
  intros Hfg. induction l as [|x l IH]; [done|].
  rewrite !filter_cons. destruct (f x) eqn:Hf.
  - rewrite (Hfg x Hf). repeat case_decide; try done. simpl. lia.
  - repeat case_decide; try done; simpl; lia.
Qed.

Lemma foldl_validate_total ranges df printed :
  sum_list (invalid_count <$> (foldl validate_column (df, printed) ranges).2)
  + n_rows (foldl validate_column (df, printed) ranges).1
  ≤ sum_list (invalid_count <$> printed) + n_rows df.
Proof.
  revert df printed. induction ranges as [|item ranges IH]; intros df printed.
  - done.
  - change (foldl validate_column (df, printed) (item :: ranges))
      with (foldl validate_column (validate_column (df, printed) item) ranges).
    destruct (validate_column (df, printed) item) as [df' printed'] eqn:Hstep.
    etrans; [apply IH|].
    destruct item as [column [min_val max_val]]. simpl in Hstep.
    case_bool_decide; simplify_eq; [|done].
    pose proof (length_filter_disjoint
                  (invalid_mask column min_val max_val)
                  (keep_mask column min_val max_val) (rows df)
                  (invalid_not_kept column min_val max_val)) as Hlen.
    unfold n_rows, select in *. simpl.
    destruct (0 <? _); [|lia].
    rewrite fmap_app, sum_list_with_app. simpl. lia.
Qed.

(** C5: range validation goes through the table one column at a time;
    what is printed for a column is the number of rows still present at
    that step (kept by every earlier rule) that hold a number below the
    minimum or above the maximum.  A row counted by one rule is not
    present for any later rule, and the counts add up to no more than the
    number of rows removed.  The rows still present at a step are the
    frame the function has reached after the earlier entries: the rows
    of the input that hold, in every column covered by an earlier entry,
    a number within the bounds of that entry. *)
Theorem removed_counts_sequential (df : DataFrame)
    (ranges : list (string * (Qc * Qc))) :
  (filter_unrealistic_values df ranges).2
    = omap (reported_at df ranges) (seq 0 (length ranges))
  ∧ (∀ j k column min_val max_val r,
       j < k → ranges !! j = Some (column, (min_val, max_val)) →
       column ∈ columns df →
       out_of_range column min_val max_val r →
       r ∉ still_present df ranges k)
  ∧ sum_list (invalid_count <$> (filter_unrealistic_values df ranges).2)
    + n_rows (filter_unrealistic_values df ranges).1
    ≤ n_rows df
  ∧ (∀ k, still_present df ranges k
          = rows (filter_unrealistic_values df (take k ranges)).1)
  ∧ (∀ k r, r ∈ still_present df ranges k ↔
       r ∈ rows df
       ∧ ∀ j column min_val max_val,
           j < k → ranges !! j = Some (column, (min_val, max_val)) →
           column ∈ columns df →
           ∃ q, at_col r column = Num q
                ∧ (min_val <= q)%Qc ∧ (q <= max_val)%Qc).
Proof.
  split_and!; [| | |intros k; unfold filter_unrealistic_values;
                    by rewrite foldl_validate_rows|].
  - unfold filter_unrealistic_values. by rewrite foldl_validate_printed.
  - intros j k column min_val max_val r Hjk Hj Hcol Hinv Hr.
    apply invalid_mask_spec in Hinv.
    apply list_elem_of_filter in Hr as [Hall _].
    rewrite forallb_forall in Hall.
    assert (Hin : (column, (min_val, max_val)) ∈ take k ranges).
    { apply list_elem_of_lookup. exists j. by rewrite lookup_take_lt. }
    apply list_elem_of_In, Hall in Hin. unfold rule_keeps in Hin.
    simpl in Hin. rewrite bool_decide_eq_true_2 in Hin by done.
    by rewrite (invalid_not_kept _ _ _ _ Hinv) in Hin.
  - apply (foldl_validate_total ranges df []).
  - intros k r. unfold still_present.
    rewrite list_elem_of_filter, forallb_forall. split.
    + intros [Hall Hr]. split; [done|].
      intros j column min_val max_val Hjk Hj Hcol.
      apply keep_mask_bounds.
      assert (Hin : (column, (min_val, max_val)) ∈ take k ranges).
      { apply list_elem_of_lookup. exists j. by rewrite lookup_take_lt. }
      apply list_elem_of_In, Hall in Hin. unfold rule_keeps in Hin.
      simpl in Hin. by rewrite bool_decide_eq_true_2 in Hin.
    + intros [Hr Hall]. split; [|done].
      intros [column [min_val max_val]] Hin%list_elem_of_In.
      apply list_elem_of_lookup in Hin as [j Hj].
      apply lookup_take_Some in Hj as [Hj Hjk].
      unfold rule_keeps. simpl. case_bool_decide; [|done].
      apply keep_mask_bounds. by eapply Hall.
Qed.

Example removed_counts_body_example :
  (filter_unrealistic_values body_example valid_ranges).2
  = [mkWarning 1 "weight"; mkWarning 1 "height"].
Proof. by vm_compute. Qed.

Lemma removed_counts_sequential_witness :
  ({[ "id" := Num (qz 2); "weight" := Num (qz 20);
      "height" := Num (qz 90) ]} : row)
  ∉ still_present body_example valid_ranges 1.
Proof.
  apply ((proj1 (proj2 (removed_counts_sequential body_example valid_ranges)))
           0 1 "weight" (qz 30) (qz 300)).
  - lia.
  - reflexivity.
  - apply list_elem_of_In. simpl. tauto.
  - apply (bool_decide_unpack _). by vm_compute.
Defined.

(** *** Missing values under range validation *)

(** A row is kept, or holds a number out of range, or holds no number:
    one of the three. *)
Lemma row_three_way column min_val max_val (r : row) :
  (keep_mask column min_val max_val r = true
   ∧ ¬ out_of_range column min_val max_val r
   ∧ isna (at_col r column) = false)
  ∨ (keep_mask column min_val max_val r = false
     ∧ out_of_range column min_val max_val r
     ∧ isna (at_col r column) = false)
  ∨ (keep_mask column min_val max_val r = false
     ∧ ¬ out_of_range column min_val max_val r
     ∧ isna (at_col r column) = true).
Proof.
  unfold keep_mask, out_of_range, cell_ge, cell_le.
  destruct (at_col r column) as [|q]; simpl; [tauto|].
  destruct (decide (min_val <= q)%Qc) as [Hlo|Hlo],
    (decide (q <= max_val)%Qc) as [Hhi|Hhi];
    rewrite ?(bool_decide_eq_true_2 _ Hlo), ?(bool_decide_eq_false_2 _ Hlo),
      ?(bool_decide_eq_true_2 _ Hhi), ?(bool_decide_eq_false_2 _ Hhi); simpl.
  - left. split_and!; [done| |done].
    intros [H|H]; by eapply Qclt_not_le.
  - right. left. apply Qcnot_le_lt in Hhi. tauto.
  - right. left. apply Qcnot_le_lt in Hlo. tauto.
  - right. left. apply Qcnot_le_lt in Hlo. tauto.
Qed.

Lemma length_filter_three_way column min_val max_val (l : list row) :
  length l
  = length (filter (λ r, keep_mask column min_val max_val r = true) l)
    + length (filter (out_of_range column min_val max_val) l)
    + length (filter (λ r, isna (at_col r column) = true) l).
Proof.
  induction l as [|r l IH]; [done|].
  rewrite !filter_cons.
  destruct (row_three_way column min_val max_val r)
    as [(Hk & Ho & Hn)|[(Hk & Ho & Hn)|(Hk & Ho & Hn)]];
    repeat case_decide; simpl; try lia; congruence.
Qed.

Lemma take_S_snoc {A} (l : list A) (k : nat) (x : A) :
  l !! k = Some x → take (S k) l = take k l ++ [x].
Proof. intros Hk. by apply take_S_r. Qed.

(** C9: at the step of a covered column, the count printed is the number
    of rows still present that hold a number below the minimum or above
    the maximum.  The rows still present whose value in that column is
    missing are not among the rows counted, yet none of them is kept: the
    step removes the rows counted and the rows with a missing value, and
    no row with a missing value in a covered column is in the result. *)
Theorem nan_removed_not_counted (df : DataFrame)
    (ranges : list (string * (Qc * Qc))) (k : nat)
    (column : string) (min_val max_val : Qc) :
  ranges !! k = Some (column, (min_val, max_val)) →
  column ∈ columns df →
  let before := filter_unrealistic_values df (take k ranges) in
  let after := filter_unrealistic_values df (take (S k) ranges) in
  let missing :=
    filter (λ r, isna (at_col r column) = true) (rows before.1) in
  let counted :=
    filter (out_of_range column min_val max_val) (rows before.1) in
  after.2
  = before.2 ++ (if decide (0 < length counted)
                 then [mkWarning (length counted) column] else [])
  ∧ (∀ r, r ∈ missing → (r ∉ counted) ∧ (r ∉ rows after.1))
  ∧ n_rows before.1 = n_rows after.1 + length counted + length missing
  ∧ (∀ r, r ∈ rows (filter_unrealistic_values df ranges).1 →
          isna (at_col r column) = false).
Proof.
  intros Hk Hcol before after missing counted.
  assert (Hafter : after = validate_column before (column, (min_val, max_val))).
  { unfold after, before, filter_unrealistic_values.
    by rewrite (take_S_snoc _ _ _ Hk), foldl_app. }
  assert (Hcols : columns before.1 = columns df)
    by apply foldl_validate_columns.
  destruct before as [df_k printed_k] eqn:Hbefore. simpl in *.
  rewrite bool_decide_eq_true_2 in Hafter by by rewrite Hcols.
  assert (Hcount : n_rows (select (invalid_mask column min_val max_val) df_k)
                   = length counted).
  { unfold n_rows, select. simpl. by rewrite filter_invalid_mask. }
  rewrite Hcount in Hafter. rewrite Hafter. simpl. split_and!.
  - case_decide as Hpos.
    + by rewrite (proj2 (Nat.ltb_lt _ _) Hpos).
    + rewrite (proj2 (Nat.ltb_ge _ _)) by lia. by rewrite app_nil_r.
  - intros r [Hna _]%list_elem_of_filter. split.
    + intros [Hout _]%list_elem_of_filter. unfold out_of_range in Hout.
      by destruct (at_col r column).
    + intros [Hkeep _]%list_elem_of_filter. unfold keep_mask in Hkeep.
      by destruct (at_col r column).
  - unfold n_rows. simpl.
    apply (length_filter_three_way column min_val max_val).
  - intros r Hr. unfold filter_unrealistic_values in Hr.
    rewrite foldl_validate_rows in Hr.
    apply list_elem_of_filter in Hr as [Hall _].
    rewrite forallb_forall in Hall.
    assert (Hin : (column, (min_val, max_val)) ∈ ranges)
      by by eapply list_elem_of_lookup_2.
    apply list_elem_of_In, Hall in Hin. unfold rule_keeps in Hin.
    simpl in Hin. rewrite bool_decide_eq_true_2 in Hin by done.
    unfold keep_mask in Hin. by destruct (at_col r column).
Qed.

Lemma nan_removed_not_counted_witness :
  let before := filter_unrealistic_values body_example (take 0 valid_ranges) in
  let after := filter_unrealistic_values body_example (take 1 valid_ranges) in
  let missing :=
    filter (λ r, isna (at_col r "weight") = true) (rows before.1) in
  let counted :=
    filter (out_of_range "weight" (qz 30) (qz 300)) (rows before.1) in
  after.2
  = before.2 ++ (if decide (0 < length counted)
                 then [mkWarning (length counted) "weight"] else [])
  ∧ (∀ r, r ∈ missing → (r ∉ counted) ∧ (r ∉ rows after.1))
  ∧ n_rows before.1 = n_rows after.1 + length counted + length missing
  ∧ (∀ r, r ∈ rows (filter_unrealistic_values body_example valid_ranges).1 →
          isna (at_col r "weight") = false).
Proof.
  apply (nan_removed_not_counted body_example valid_ranges 0 "weight"
           (qz 30) (qz 300)).
  - reflexivity.
  - apply list_elem_of_In. simpl. tauto.
Defined.

(** On the example table one row has no weight and one a weight below the
    minimum: the first step removes both and reports one. *)
Example nan_not_counted_body_example :
  let before := filter_unrealistic_values body_example (take 0 valid_ranges) in
  let after := filter_unrealistic_values body_example (take 1 valid_ranges) in
  n_rows before.1 = 5 ∧ n_rows after.1 = 3
  ∧ after.2 = [mkWarning 1 "weight"]
  ∧ length (filter (λ r, isna (at_col r "weight") = true) (rows before.1)) = 1.
Proof. by vm_compute. Qed.

(** On a one-row table whose weight is missing, validation removes the
    row and prints nothing. *)
Example nan_row_silently_removed :
  filter_unrealistic_values
    (mkDataFrame ["weight"] [ {[ "weight" := NaN ]} ]) valid_ranges
  = (mkDataFrame ["weight"] [], []).
Proof. by vm_compute. Qed.

(** *** Three-way inner join *)

Lemma at_col_union_id (lr rr : row) :
  at_col rr "id" = at_col lr "id" → at_col (lr ∪ rr) "id" = at_col lr "id".
Proof.
  unfold at_col. rewrite lookup_union.
  destruct (lr !! "id"), (rr !! "id"); simpl; congruence.
Qed.

(** With unique keys, a key selects at most one row. *)
Lemma filter_unique_key {A} (f : A → cell) (l : list A) (k : cell) :
  NoDup (f <$> l) →
  length (filter (λ x, f x = k) l) = if decide (k ∈ f <$> l) then 1 else 0.
Proof.
  induction l as [|x l IH]; intros Hnd; [done|].
  rewrite fmap_cons in Hnd. apply NoDup_cons in Hnd as [Hx Hnd].
  specialize (IH Hnd). rewrite filter_cons. csimpl.
  destruct (decide (f x = k)) as [<-|Hne].
  - simpl. rewrite IH. rewrite decide_False by done.
    rewrite decide_True by left. done.
  - rewrite IH. destruct (decide (k ∈ f <$> l)) as [Hin|Hnin].
    + rewrite decide_True by by right. done.
    + rewrite decide_False; [done|]. intros Hin.
      apply elem_of_cons in Hin as [?|?]; congruence.
Qed.

Lemma merge_on_id_ids (left right : DataFrame) :
  NoDup (series right "id") →
  series (merge_on_id left right) "id"
  = filter (λ i, i ∈ series right "id") (series left "id").
Proof.
  intros Hnd. unfold series, merge_on_id. simpl.
  induction (rows left) as [|lr l IH]; [done|].
  csimpl. rewrite fmap_app, IH, filter_cons. clear IH.
  pose proof (filter_unique_key (λ r, at_col r "id") (rows right)
                (at_col lr "id") Hnd) as Hlen.
  destruct (filter (λ rr, at_col rr "id" = at_col lr "id") (rows right))
    as [|rr [|rr' m]] eqn:Hf; simpl in Hlen; case_decide; try done.
  simpl. f_equal. apply at_col_union_id.
  assert (Hin : rr ∈ filter (λ rr, at_col rr "id" = at_col lr "id")
                            (rows right)) by (rewrite Hf; left).
  by apply list_elem_of_filter in Hin as [??].
Qed.

Lemma length_filter_elem_of (l : list cell) (X : gset cell) :
  NoDup l →
  length (filter (λ i, i ∈ X) l) = size (list_to_set l ∩ X : gset cell).
Proof.
  intros Hnd.
  rewrite <- (size_list_to_set (C := gset cell) (filter (λ i, i ∈ X) l))
    by by apply NoDup_filter.
  f_equal. apply set_eq. intros i.
  rewrite elem_of_list_to_set, list_elem_of_filter, elem_of_intersection,
    elem_of_list_to_set.
  tauto.
Qed.

(** C3: with the subject identifier unique within each of the three
    input tables, the inner join has as many rows as there are
    identifiers present in all three tables, and no more rows than the
    smallest input table. *)
Theorem merged_row_count (body_measurements demographic_data
    aggregated : DataFrame) :
  NoDup (series body_measurements "id") →
  NoDup (series demographic_data "id") →
  NoDup (series aggregated "id") →
  n_rows (merged_health_data body_measurements demographic_data aggregated)
  = size (list_to_set (series body_measurements "id")
          ∩ list_to_set (series demographic_data "id")
          ∩ list_to_set (series aggregated "id") : gset cell)
  ∧ n_rows (merged_health_data body_measurements demographic_data aggregated)
    ≤ (n_rows body_measurements `min` n_rows demographic_data)
      `min` n_rows aggregated.
Proof.
  intros Hbm Hdemo Hagg.
  set (B := list_to_set (series body_measurements "id") : gset cell).
  set (D := list_to_set (series demographic_data "id") : gset cell).
  set (G := list_to_set (series aggregated "id") : gset cell).
  assert (Hn :
    n_rows (merged_health_data body_measurements demographic_data aggregated)
    = size (B ∩ D ∩ G)).
  { unfold n_rows, merged_health_data.
    rewrite <- (length_fmap (λ r, at_col r "id")).
    fold (series (merge_on_id (merge_on_id body_measurements demographic_data)
                    aggregated) "id").
    rewrite !merge_on_id_ids by done.
    rewrite (list_filter_iff _ (λ i, i ∈ G))
      by (intros i; unfold G; by rewrite elem_of_list_to_set).
    rewrite (list_filter_iff (λ i, i ∈ series demographic_data "id")
                             (λ i, i ∈ D))
      by (intros i; unfold D; by rewrite elem_of_list_to_set).
    rewrite length_filter_elem_of by by apply NoDup_filter.
    f_equal. apply set_eq. intros i. unfold B.
    rewrite !elem_of_intersection, !elem_of_list_to_set, list_elem_of_filter.
    tauto. }
  split; [done|]. rewrite Hn.
  assert (size B = n_rows body_measurements) as <-.
  { unfold B, n_rows, series. by rewrite size_list_to_set, length_fmap. }
  assert (size D = n_rows demographic_data) as <-.
  { unfold D, n_rows, series. by rewrite size_list_to_set, length_fmap. }
  assert (size G = n_rows aggregated) as <-.
  { unfold G, n_rows, series. by rewrite size_list_to_set, length_fmap. }
  assert (size (B ∩ D ∩ G) ≤ size B)
    by (apply subseteq_size; intros x; rewrite !elem_of_intersection; tauto).
  assert (size (B ∩ D ∩ G) ≤ size D)
    by (apply subseteq_size; intros x; rewrite !elem_of_intersection; tauto).
  assert (size (B ∩ D ∩ G) ≤ size G)
    by (apply subseteq_size; intros x; rewrite !elem_of_intersection; tauto).
  lia.
Qed.

(** *** Sorted distinct values *)

Section np_unique.
Context {A : Type} `{EqDecision A} (R : relation A) `{!RelDecision R}.

Lemma elem_of_np_unique (a : list A) (x : A) : x ∈ np_unique R a ↔ x ∈ a.
Proof.
  unfold np_unique. by rewrite elem_of_remove_dups, merge_sort_Permutation.
Qed.

Lemma NoDup_np_unique (a : list A) : NoDup (np_unique R a).
Proof. apply NoDup_remove_dups. Qed.

Lemma remove_dups_sublist (l : list A) : remove_dups l `sublist_of` l.
Proof.
  induction l as [|x l IH]; simpl; [constructor|].
  case_decide; by constructor.
Qed.

Lemma StronglySorted_sublist (l k : list A) :
  l `sublist_of` k → StronglySorted R k → StronglySorted R l.
Proof.
  induction 1 as [|x l k Hlk IH|x l k Hlk IH]; intros Hk; [done|..].
  - apply StronglySorted_cons in Hk as [Hx Hk].
    apply StronglySorted_cons. split; [|by apply IH].
    rewrite Forall_forall in Hx |- *. intros y Hy. apply Hx.
    by eapply sublist_subseteq.
  - apply StronglySorted_cons in Hk as [_ Hk]. by apply IH.
Qed.

Lemma StronglySorted_np_unique `{!Transitive R, !Total R} (a : list A) :
  StronglySorted R (np_unique R a).
Proof.
  eapply StronglySorted_sublist; [apply remove_dups_sublist|].
  by apply StronglySorted_merge_sort.
Qed.
End np_unique.

Lemma occurrences_pos {A} `{EqDecision A} (x : A) (a : list A) :
  x ∈ a ↔ 0 < occurrences x a.
Proof.
  unfold occurrences. split.
  - intros Hx. assert (Hin : x ∈ filter (λ y, y = x) a)
      by by apply list_elem_of_filter.
    destruct (filter (λ y, y = x) a); [by apply elem_of_nil in Hin|].
    simpl. lia.
  - intros Hlen. destruct (filter (λ y, y = x) a) as [|y l] eqn:Hf;
      [simpl in Hlen; lia|].
    assert (Hin : y ∈ filter (λ y, y = x) a) by (rewrite Hf; left).
    by apply list_elem_of_filter in Hin as [-> ?].
Qed.

(** *** The mode-else-mean rule *)




(** The rounding on numbers whose nearest float64 is known: a third, a
    tenth, a whole number halfway between two floats (the even one is
    taken), a whole number that is a float, a negative number, and a
    number below the smallest positive float. *)
Example round_float64_examples :
  this (round_float64 (Q2Qc (1 # 3)))
    = (6004799503160661 # 18014398509481984)%Q
  ∧ this (round_float64 (Q2Qc (1 # 10)))
    = (3602879701896397 # 36028797018963968)%Q
  ∧ this (round_float64 (qz (2 ^ 53 + 1))) = inject_Z (2 ^ 53)
  ∧ this (round_float64 (qz (2 ^ 53 + 3))) = inject_Z (2 ^ 53 + 4)
  ∧ this (round_float64 (qz 30004)) = inject_Z 30004
  ∧ this (round_float64 (Q2Qc (-1 # 3)))
    = (-6004799503160661 # 18014398509481984)%Q
  ∧ this (round_float64 (Q2Qc (Qmake 3 (2 ^ 1075))))
    = Qmake 1 (2 ^ 1073).
Proof. by vm_compute. Qed.

(** *** One aggregated row per subject *)

Lemma elem_of_numbers (s : list cell) (q : Qc) : q ∈ numbers s ↔ Num q ∈ s.
Proof.
  unfold numbers. rewrite list_elem_of_omap. split.
  - intros ([|q'] & Hin & Heq); by simplify_eq.
  - intros Hin. by exists (Num q).
Qed.


Lemma dropna_no_nan (df : DataFrame) (r : row) (column : string) :
  r ∈ rows (dropna df) → column ∈ columns df → isna (at_col r column) = false.
Proof.
  unfold dropna, select. simpl. intros [Hna _]%list_elem_of_filter Hc.
  apply negb_true_iff in Hna. unfold row_has_na in Hna.
  destruct (isna (at_col r column)) eqn:Hr; [|done].
  assert (Hex : existsb (λ c, isna (at_col r c)) (columns df) = true).
  { apply existsb_exists. exists column. by rewrite <- list_elem_of_In. }
  congruence.
Qed.

Lemma aggregate_group_id `{Float64Sum} g : at_col (aggregate_group g) "id" = Num g.1.
Proof. unfold at_col, aggregate_group. by rewrite lookup_insert_eq. Qed.

Lemma aggregate_group_fat `{Float64Sum} g :
  at_col (aggregate_group g) "total_fat_mass"
  = mode_or_mean (numbers ((λ r, at_col r "total_fat_mass") <$> g.2)).
Proof.
  unfold at_col, aggregate_group.
  rewrite lookup_insert_ne by done. by rewrite lookup_insert_eq.
Qed.




(** *** The converter *)

Lemma foldl_dict_set {V} (items d : list (string * V)) :
  NoDup (d.*1 ++ items.*1) →
  foldl (λ d kv, dict_set d kv.1 kv.2) d items = d ++ items.
Proof.
  revert d. induction items as [|[k v] items IH]; intros d Hnd.
  { by rewrite app_nil_r. }
  simpl. unfold dict_set at 2. simpl.
  rewrite fmap_cons in Hnd. simpl in Hnd.
  rewrite bool_decide_eq_false_2.
  - rewrite IH; [by rewrite <- app_assoc|].
    rewrite fmap_app. simpl. by rewrite <- app_assoc.
  - apply NoDup_app in Hnd as (_ & Hnd & _). intros Hk.
    apply (Hnd k Hk). left.
Qed.

Lemma dict_of_items_NoDup {V} (items : list (string * V)) :
  NoDup items.*1 → dict_of_items items = items.
Proof. intros Hnd. unfold dict_of_items. by rewrite foldl_dict_set. Qed.

Lemma dict_get_elem_of {V} (d : list (string * V)) (k : string) (v : V) :
  NoDup d.*1 → (k, v) ∈ d → dict_get d k = Some v.
Proof.
  unfold dict_get. induction d as [|[k' v'] d IH]; intros Hnd Hin.
  { by apply elem_of_nil in Hin. }
  rewrite fmap_cons in Hnd. apply NoDup_cons in Hnd as [Hk' Hnd].
  simpl in *. apply elem_of_cons in Hin as [Heq|Hin].
  - simplify_eq. by rewrite decide_True.
  - rewrite decide_False.
    + specialize (IH Hnd Hin).
      destruct (list_find (λ kv, kv.1 = k) d) as [[n kv]|]; by simplify_eq.
    + intros ->. apply Hk'. change k with (k, v).1.
      by apply list_elem_of_fmap_2.
Qed.

Lemma fst_zip_same_length {A B} (l : list A) (k : list B) :
  length l = length k → (zip l k).*1 = l.
Proof. intros Hlen. apply fst_zip. lia. Qed.

Lemma snd_zip_same_length {A B} (l : list A) (k : list B) :
  length l = length k → (zip l k).*2 = k.
Proof. intros Hlen. apply snd_zip. lia. Qed.

Section converter.
Context `{FloatStr}.
Context (columns_to_save new_columns : list string) (reader : XportReader).
Context (Hold : NoDup columns_to_save) (Hnew : NoDup new_columns).
Context (Hlen : length columns_to_save = length new_columns).

Lemma column_mapping_zip :
  dict_of_items (zip columns_to_save new_columns)
  = zip columns_to_save new_columns.
Proof.
  apply dict_of_items_NoDup. by rewrite fst_zip_same_length.
Qed.

Lemma row_dict_zip (r : gmap string pyval) :
  row_dict (zip columns_to_save new_columns) (fields reader) r
  = zip new_columns (requested_value (fields reader) r <$> columns_to_save).
Proof.
  unfold row_dict. rewrite dict_of_items_NoDup.
  - clear Hold Hnew. revert new_columns Hlen.
    induction columns_to_save as [|o os IH]; intros [|n ns] Hl;
      simplify_eq/=; [done|]. f_equal. by apply IH.
  - rewrite <- list_fmap_compose.
    replace (_ <$> zip columns_to_save new_columns)
      with ((zip columns_to_save new_columns).*2);
      [by rewrite snd_zip_same_length|].
    apply list_fmap_ext. by intros ? [??].
Qed.

Lemma dict_to_list_row (r : gmap string pyval) :
  dict_to_list new_columns
    (row_dict (dict_of_items (zip columns_to_save new_columns))
       (fields reader) r)
  = Some ((λ old_name, csv_str (requested_value (fields reader) r old_name))
            <$> columns_to_save).
Proof.
  rewrite column_mapping_zip, row_dict_zip. unfold dict_to_list.
  assert (Hkeys :
    (zip new_columns (requested_value (fields reader) r <$> columns_to_save)).*1 = new_columns).
  { apply fst_zip_same_length. by rewrite length_fmap. }
  rewrite Hkeys. rewrite bool_decide_eq_true_2
    by (by apply Forall_forall). f_equal.
  apply list_eq. intros j. rewrite !list_lookup_fmap.
  destruct (new_columns !! j) as [n|] eqn:Hn; simpl.
  - destruct (lookup_lt_is_Some_2 columns_to_save j) as [o Ho].
    { rewrite Hlen. by eapply lookup_lt_Some. }
    rewrite Ho. simpl. f_equal.
    rewrite (dict_get_elem_of _ n (requested_value (fields reader) r o)); [done|by rewrite Hkeys|].
    apply list_elem_of_lookup. exists j.
    rewrite lookup_zip_with, Hn. simpl.
    by rewrite list_lookup_fmap, Ho.
  - rewrite lookup_ge_None_2; [done|].
    rewrite Hlen. by apply lookup_ge_None.
Qed.

Lemma write_rows_all (rs : list (gmap string pyval)) :
  write_rows new_columns
    (dict_of_items (zip columns_to_save new_columns)) (fields reader) rs
  = (WriteRow <$>
       ((λ r, (λ old_name, csv_str (requested_value (fields reader) r old_name))
                <$> columns_to_save) <$> rs))
    ++ [PrintSaved].
Proof.
  induction rs as [|r rs IH]; [done|].
  simpl. rewrite dict_to_list_row. by rewrite IH.
Qed.

Lemma data_rows_WriteRow (l : list (list string)) (tl : list output) :
  data_rows ((WriteRow <$> l) ++ tl) = l ++ data_rows tl.
Proof.
  unfold data_rows. induction l as [|x l IH]; [done|].
  csimpl. by rewrite IH.
Qed.

Lemma convert_xpt_to_csv_spec :
  convert_xpt_to_csv columns_to_save new_columns reader
  = (let missing_columns :=
       filter (λ col, col ∉ fields reader) columns_to_save in
     if bool_decide (missing_columns = []) then []
     else [PrintMissingColumns missing_columns])
    ++ [MakeDirs; WriteHeader new_columns]
    ++ (WriteRow <$>
          ((λ r, (λ old_name,
                    csv_str (requested_value (fields reader) r old_name))
                   <$> columns_to_save) <$> records reader))
    ++ [PrintSaved].
Proof. unfold convert_xpt_to_csv. by rewrite write_rows_all. Qed.
End converter.

(** C8: when a requested source column is absent from the file's fields,
    the converter prints one warning, before anything is written, that
    lists exactly the requested columns absent from the file; every data
    row then holds the text "nan" in that column.  In a requested column
    the file has, a data row holds the text of the value the record has
    under that name, and the text "nan" when the record has no attribute
    of that name. *)
Theorem missing_column_written_as_nan `{FloatStr}
    (columns_to_save new_columns : list string) (reader : XportReader)
    (j : nat) (old_name : string) :
  NoDup columns_to_save → NoDup new_columns →
  length columns_to_save = length new_columns →
  columns_to_save !! j = Some old_name →
  old_name ∉ fields reader →
  let out := convert_xpt_to_csv columns_to_save new_columns reader in
  ∃ missing_columns,
    (∀ col, col ∈ missing_columns ↔
            col ∈ columns_to_save ∧ col ∉ fields reader)
    ∧ out = PrintMissingColumns missing_columns :: MakeDirs
              :: WriteHeader new_columns
              :: (WriteRow <$> data_rows out) ++ [PrintSaved]
    ∧ length (data_rows out) = length (records reader)
    ∧ ∀ k r cells,
        records reader !! k = Some r → data_rows out !! k = Some cells →
        length cells = length new_columns
        ∧ cells !! j = Some "nan"
        ∧ ∀ j' old,
            columns_to_save !! j' = Some old → old ∈ fields reader →
            cells !! j' = Some (match r !! old with
                                | Some v => csv_str v
                                | None => "nan"
                                end).
Proof.
  intros Hold Hnew Hlen Hj Habsent out.
  exists (filter (λ col, col ∉ fields reader) columns_to_save).
  assert (Hout : out = convert_xpt_to_csv columns_to_save new_columns reader)
    by done.
  rewrite convert_xpt_to_csv_spec in Hout by done. simpl in Hout.
  rewrite bool_decide_eq_false_2 in Hout.
  2:{ intros Hnil.
      assert (Hin : old_name ∈ filter (λ col, col ∉ fields reader)
                                  columns_to_save).
      { apply list_elem_of_filter. split; [done|].
        by eapply list_elem_of_lookup_2. }
      rewrite Hnil in Hin. by apply elem_of_nil in Hin. }
  simpl in Hout.
  assert (Hrows : data_rows out
    = (λ r, (λ old_name, csv_str (requested_value (fields reader) r old_name))
              <$> columns_to_save) <$> records reader).
  { rewrite Hout.
    change (data_rows (?a :: ?b :: ?c :: ?l)) with (data_rows l).
    rewrite data_rows_WriteRow. simpl. by rewrite app_nil_r. }
  split_and!.
  - intros col. rewrite list_elem_of_filter. tauto.
  - by rewrite Hrows.
  - by rewrite Hrows, length_fmap.
  - intros k r cells Hr Hcells. rewrite Hrows in Hcells.
    rewrite list_lookup_fmap, Hr in Hcells. simplify_eq/=.
    split_and!.
    + by rewrite length_fmap.
    + rewrite list_lookup_fmap, Hj. simpl. unfold requested_value.
      by rewrite bool_decide_eq_false_2.
    + intros j' old Hj' Hpresent.
      rewrite list_lookup_fmap, Hj'. simpl. unfold requested_value, getattr.
      rewrite bool_decide_eq_true_2 by done. by destruct (r !! old).
Qed.

(** *** The splitter: allocation of draws to classes *)

Lemma length_increment_at inds floored :
  length (increment_at inds floored) = length floored.
Proof.
  induction inds as [|i inds IH]; [done|]. simpl. by rewrite length_alter.
Qed.

Lemma lookup_increment_at inds floored i :
  NoDup inds →
  increment_at inds floored !! i
  = (λ x, if decide (i ∈ inds) then S x else x) <$> floored !! i.
Proof.
  induction inds as [|j inds IH]; intros Hnd.
  { cbn [increment_at foldr]. destruct (floored !! i) as [x|]; [|done].
    reflexivity. }
  apply NoDup_cons in Hnd as [Hj Hnd]. specialize (IH Hnd).
  cbn [increment_at foldr]. fold (increment_at inds floored).
  destruct (decide (j = i)) as [->|Hne].
  - rewrite list_lookup_alter_eq, IH.
    destruct (floored !! i) as [x|]; [|done].
    cbn [fmap option_fmap option_map]. f_equal.
    destruct (decide (i ∈ inds)); [done|].
    destruct (decide (i ∈ i :: inds)) as [|Hn]; [done|].
    exfalso. apply Hn. left.
  - rewrite list_lookup_alter_ne, IH by done.
    destruct (floored !! i) as [x|]; [|done].
    cbn [fmap option_fmap option_map]. f_equal.
    destruct (decide (i ∈ inds)) as [Hi|Hi];
      destruct (decide (i ∈ j :: inds)) as [Hi'|Hi']; try done.
    + exfalso. apply Hi'. by right.
    + apply elem_of_cons in Hi' as [?|?]; congruence.
Qed.

Lemma sum_list_alter_S (l : list nat) i :
  i < length l → sum_list (alter S i l) = S (sum_list l).
Proof.
  revert i. induction l as [|x l IH]; intros [|i] Hi; simpl in Hi; try lia.
  - done.
  - change (sum_list (alter S (S i) (x :: l)))
      with (x + sum_list (alter S i l)).
    rewrite IH by lia. simpl. lia.
Qed.

Lemma sum_increment_at inds floored :
  (∀ i, i ∈ inds → i < length floored) →
  sum_list (increment_at inds floored) = sum_list floored + length inds.
Proof.
  induction inds as [|i inds IH]; intros Hlt; simpl; [lia|].
  fold (increment_at inds floored). rewrite sum_list_alter_S.
  - rewrite IH; [lia|]. intros j Hj. apply Hlt. by right.
  - rewrite length_increment_at. apply Hlt. left.
Qed.

Lemma elem_of_np_where_eq remainder value j :
  j ∈ np_where_eq remainder value ↔ remainder !! j = Some value.
Proof.
  unfold np_where_eq. rewrite list_elem_of_filter, elem_of_seq.
  split; [tauto|]. intros Hj. split; [done|].
  apply lookup_lt_Some in Hj. lia.
Qed.

Lemma NoDup_np_where_eq remainder value : NoDup (np_where_eq remainder value).
Proof. apply NoDup_filter, NoDup_seq. Qed.

Lemma list_filter_iff_elem_of {A} (P Q : A → Prop)
    `{!∀ x, Decision (P x), !∀ x, Decision (Q x)} (l : list A) :
  (∀ x, x ∈ l → P x ↔ Q x) → filter P l = filter Q l.
Proof.
  induction l as [|x l IH]; intros Hext; [done|].
  rewrite !filter_cons.
  assert (HPQ : P x ↔ Q x) by (apply Hext; left).
  rewrite IH by (intros y Hy; apply Hext; by right).
  repeat case_decide; tauto.
Qed.

Lemma length_filter_lookup_eq {A} `{EqDecision A} (l : list A) (v : A) :
  length (filter (λ j, l !! j = Some v) (seq 0 (length l)))
  = occurrences v l.
Proof.
  unfold occurrences.
  induction l as [|x l IH] using rev_ind; [done|].
  rewrite length_app. simpl length.
  replace (length l + 1) with (S (length l)) by lia.
  rewrite seq_S, !filter_app, !length_app. simpl "+". f_equal.
  - rewrite <- IH. f_equal. apply list_filter_iff_elem_of.
    intros j Hj%elem_of_seq. by rewrite lookup_app_l by lia.
  - rewrite !filter_cons, !filter_nil.
    rewrite lookup_app_r, Nat.sub_diag by lia. simpl.
    repeat case_decide; simplify_eq; done.
Qed.

Lemma length_np_where_eq remainder value :
  length (np_where_eq remainder value) = occurrences value remainder.
Proof. apply length_filter_lookup_eq. Qed.

Lemma cap_pos_cons remainder value values :
  value ∉ values → 0 < value →
  cap_pos remainder (value :: values)
  = length (np_where_eq remainder value) + cap_pos remainder values.
Proof.
  intros Hnin Hpos. rewrite length_np_where_eq. unfold cap_pos, occurrences.
  induction remainder as [|x l IH]; [done|].
  rewrite !filter_cons. destruct (decide (x = value)) as [->|Hne].
  - rewrite decide_True by (split; [done|left]).
    rewrite decide_False by (by intros [_ ?]).
    simpl. by rewrite IH.
  - destruct (decide (0 < x ∧ x ∈ values)) as [[Hx Hin]|Hn].
    + rewrite decide_True by (split; [done|by right]).
      simpl. rewrite IH. lia.
    + rewrite decide_False; [done|].
      intros [Hx [?|?]%elem_of_cons]; [done|]. by apply Hn.
Qed.

Lemma submseteq_NoDup {A} (l k : list A) : l ⊆+ k → NoDup k → NoDup l.
Proof.
  intros [k' Hk]%submseteq_Permutation Hnd. rewrite Hk in Hnd.
  by apply NoDup_app in Hnd as (? & _ & _).
Qed.

Lemma cap_pos_nil remainder : cap_pos remainder [] = 0.
Proof.
  unfold cap_pos. induction remainder as [|x l IH]; [done|].
  rewrite filter_cons_False; [done|]. intros [_ Hin].
  by apply elem_of_nil in Hin.
Qed.

Lemma cap_pos_zero remainder : cap_pos remainder [0] = 0.
Proof.
  unfold cap_pos. induction remainder as [|x l IH]; [done|].
  rewrite filter_cons_False; [done|]. intros [Hpos Hin].
  apply list_elem_of_singleton in Hin. lia.
Qed.

Section allocation.
Context `{RandomState RS}.

Lemma add_by_remainder_spec values remainder floored need_to_add (s : RS) :
  length floored = length remainder →
  StronglySorted (λ a b, b < a) values →
  need_to_add ≤ cap_pos remainder values →
  let r := (add_by_remainder values remainder floored need_to_add s).1 in
  length r = length floored
  ∧ sum_list r = sum_list floored + need_to_add
  ∧ ∀ i x, floored !! i = Some x →
      r !! i = Some x
      ∨ (r !! i = Some (S x)
         ∧ ∃ v, remainder !! i = Some v ∧ 0 < v ∧ v ∈ values).
Proof.
  revert floored need_to_add s.
  induction values as [|value values IH];
    intros floored need s Hlen Hsorted Hneed.
  { rewrite cap_pos_nil in Hneed. simpl. split_and!; [done|lia|auto]. }
  apply StronglySorted_cons in Hsorted as [Hbelow Hsorted].
  rewrite Forall_forall in Hbelow.
  cbn [add_by_remainder].
  set (inds := np_where_eq remainder value).
  set (add_now := length inds `min` need).
  destruct (rng_choice s inds add_now) as [chosen s'] eqn:Hchoice.
  destruct (rng_choice_spec s inds add_now) as [Hsub Hchosen]; [lia|].
  rewrite Hchoice in Hsub, Hchosen. simpl in Hsub, Hchosen.
  assert (Hnd : NoDup chosen).
  { eapply submseteq_NoDup; [done|]. apply NoDup_np_where_eq. }
  assert (Hin : ∀ i, i ∈ chosen → remainder !! i = Some value).
  { intros i Hi. apply elem_of_np_where_eq.
    by eapply elem_of_submseteq. }
  assert (Hsum : sum_list (increment_at chosen floored)
                 = sum_list floored + add_now).
  { rewrite sum_increment_at, Hchosen; [done|].
    intros i Hi%Hin%lookup_lt_Some. lia. }
  assert (Hpoint : ∀ i x, floored !! i = Some x →
    increment_at chosen floored !! i
    = Some (if decide (i ∈ chosen) then S x else x)).
  { intros i x Hx. by rewrite lookup_increment_at, Hx. }
  destruct (decide (value = 0)) as [->|Hpos].
  - (* a zero remainder comes last, when nothing is left to add *)
    assert (values = []) as ->.
    { destruct values as [|v vs]; [done|].
      assert (v < 0) by (apply Hbelow; left). lia. }
    rewrite cap_pos_zero in Hneed.
    assert (add_now = 0) by lia.
    assert (chosen = []) as -> by (apply nil_length_inv; lia).
    replace (need - add_now) with 0 by lia. simpl.
    split_and!; [done|lia|auto].
  - assert (Hnin : value ∉ values).
    { intros Hv%Hbelow. lia. }
    rewrite cap_pos_cons in Hneed by (done || lia).
    fold inds in Hneed.
    destruct (need - add_now =? 0) eqn:Hrest.
    + apply Nat.eqb_eq in Hrest. simpl.
      split_and!.
      * apply length_increment_at.
      * rewrite Hsum. lia.
      * intros i x Hx. rewrite (Hpoint i x Hx).
        case_decide as Hi; [right|by left].
        split; [done|]. exists value. split_and!; [by apply Hin|lia|left].
    + apply Nat.eqb_neq in Hrest.
      assert (add_now = length inds) by lia.
      destruct (IH (increment_at chosen floored) (need - add_now) s')
        as (Hl & Hs & Hp); [by rewrite length_increment_at|done|lia|].
      split_and!.
      * by rewrite Hl, length_increment_at.
      * rewrite Hs, Hsum. lia.
      * intros i x Hx. specialize (Hpoint i x Hx).
        destruct (Hp i _ Hpoint) as [Hr|(Hr & v & Hv & Hvpos & Hvin)].
        -- rewrite Hr. case_decide as Hi; [right|by left].
           split; [done|]. exists value.
           split_and!; [by apply Hin|lia|left].
        -- case_decide as Hi.
           ++ apply Hin in Hi. by simplify_eq.
           ++ right. split; [done|]. exists v.
              split_and!; [done..|by right].
Qed.
End allocation.

Lemma sum_list_scaled (l : list nat) (n : nat) :
  sum_list ((λ c, c * n) <$> l) = sum_list l * n.
Proof. induction l as [|c l IH]; [done|]. csimpl. rewrite IH. lia. Qed.

Lemma sum_list_div_mod (l : list nat) (n N : nat) :
  sum_list l * n
  = N * sum_list ((λ c, c * n / N) <$> l)
    + sum_list ((λ c, (c * n) `mod` N) <$> l).
Proof.
  induction l as [|c l IH]; csimpl; [lia|].
  pose proof (Nat.div_mod_eq (c * n) N). lia.
Qed.

Lemma sum_list_mod_bound (l : list nat) (n N : nat) :
  0 < N →
  sum_list ((λ c, (c * n) `mod` N) <$> l)
  ≤ (N - 1) * length (filter (λ v, 0 < v) ((λ c, (c * n) `mod` N) <$> l)).
Proof.
  intros HN. induction l as [|c l IH]; csimpl; [lia|].
  pose proof (Nat.mod_upper_bound (c * n) N). rewrite filter_cons.
  case_decide; simpl; nia.
Qed.

Lemma StronglySorted_le_lt (l : list nat) :
  StronglySorted le l → NoDup l → StronglySorted lt l.
Proof.
  induction 1 as [|x l Hl IH Hx]; intros Hnd; [constructor|].
  apply NoDup_cons in Hnd as [Hnin Hnd]. constructor; [by apply IH|].
  rewrite Forall_forall in Hx |- *. intros y Hy.
  specialize (Hx y Hy). assert (x ≠ y) by (by intros ->). lia.
Qed.

Lemma StronglySorted_reverse {A} (R : relation A) (l : list A) :
  StronglySorted R l → StronglySorted (flip R) (reverse l).
Proof.
  induction 1 as [|x l Hl IH Hx]; [constructor|].
  rewrite reverse_cons. apply StronglySorted_app. split_and!.
  - intros y z Hy Hz. rewrite elem_of_reverse in Hy.
    apply list_elem_of_singleton in Hz. subst z.
    rewrite Forall_forall in Hx. unfold flip. by apply Hx.
  - done.
  - repeat constructor.
Qed.

Section approximate_mode.
Context `{RandomState RS}.

Lemma approximate_mode_spec (class_counts : list nat) (n_draws : nat)
    (s : RS) :
  0 < sum_list class_counts → n_draws ≤ sum_list class_counts →
  let r := (approximate_mode class_counts n_draws s).1 in
  length r = length class_counts
  ∧ sum_list r = n_draws
  ∧ Forall2 le r class_counts.
Proof.
  intros Hpos Hle.
  set (total := sum_list class_counts) in *.
  set (floored := (λ c, c * n_draws / total) <$> class_counts).
  set (remainder := (λ c, (c * n_draws) `mod` total) <$> class_counts).
  pose proof (sum_list_div_mod class_counts n_draws total) as Hdm.
  pose proof (sum_list_mod_bound class_counts n_draws total Hpos) as Hmb.
  fold total floored remainder in Hdm, Hmb.
  assert (Hfl : sum_list floored ≤ n_draws) by nia.
  assert (Hfloor : ∀ i c, class_counts !! i = Some c →
    floored !! i = Some (c * n_draws / total) ∧
    remainder !! i = Some ((c * n_draws) `mod` total) ∧
    c * n_draws / total ≤ c ∧
    (0 < (c * n_draws) `mod` total → S (c * n_draws / total) ≤ c)).
  { intros i c Hc. unfold floored, remainder.
    rewrite !list_lookup_fmap, Hc. split_and!; [done|done|..].
    - apply Nat.Div0.div_le_upper_bound. fold total. nia.
    - pose proof (Nat.div_mod_eq (c * n_draws) total). fold total. nia. }
  unfold approximate_mode. fold total floored remainder. cbv zeta.
  destruct (0 <? n_draws - sum_list floored) eqn:Hneed.
  - set (values := reverse (np_unique le remainder)).
    destruct (add_by_remainder_spec values remainder floored
                (n_draws - sum_list floored) s) as (Hl & Hs & Hp).
    + unfold floored, remainder. by rewrite !length_fmap.
    + apply (StronglySorted_reverse lt), StronglySorted_le_lt.
      * apply StronglySorted_np_unique; apply _.
      * apply NoDup_np_unique.
    + assert (Hcap : cap_pos remainder values
                     = length (filter (λ v, 0 < v) remainder)).
      { unfold cap_pos. f_equal. apply list_filter_iff_elem_of.
        intros v Hv. split; [tauto|]. intros ?. split; [done|].
        by apply elem_of_reverse, elem_of_np_unique. }
      rewrite Hcap. nia.
    + split_and!.
      * rewrite Hl. unfold floored. by rewrite length_fmap.
      * rewrite Hs. lia.
      * apply Forall2_same_length_lookup. split.
        { rewrite Hl. unfold floored. by rewrite length_fmap. }
        intros i x c Hx Hc.
        destruct (Hfloor i c Hc) as (Hf & Hr & Hq & Hq').
        destruct (Hp i _ Hf) as [Hx'|(Hx' & v & Hv & Hvpos & _)];
          rewrite Hx' in Hx; simplify_eq; [done|].
        by apply Hq'.
  - apply Nat.ltb_ge in Hneed. simpl. split_and!.
    + unfold floored. by rewrite length_fmap.
    + lia.
    + apply Forall2_same_length_lookup. split.
      { unfold floored. by rewrite length_fmap. }
      intros i x c Hx Hc.
      destruct (Hfloor i c Hc) as (Hf & _ & Hq & _). by simplify_eq.
Qed.
End approximate_mode.

(** *** The splitter: indices drawn per class *)

Lemma omap_lookup_seq {A} (a : list A) :
  omap (λ p, a !! p) (seq 0 (length a)) = a.
Proof.
  induction a as [|x a IH] using rev_ind; [done|].
  rewrite length_app. simpl length.
  replace (length a + 1) with (S (length a)) by lia.
  rewrite seq_S, omap_app. simpl "+". f_equal.
  - etrans; [|exact IH]. apply list_omap_ext, Forall2_same_length_lookup.
    split; [done|]. intros i p q Hp Hq. simplify_eq.
    apply lookup_seq in Hp as [-> ?]. by rewrite lookup_app_l by lia.
  - csimpl. by rewrite lookup_app_r, Nat.sub_diag by lia.
Qed.

Lemma np_take_clip_Permutation (a permutation : list nat) :
  permutation ≡ₚ seq 0 (length a) → np_take_clip a permutation ≡ₚ a.
Proof.
  intros Hperm. unfold np_take_clip. rewrite Hperm.
  etrans; [|apply reflexive_eq, (omap_lookup_seq a)].
  apply reflexive_eq, list_omap_ext.
  apply Forall2_same_length_lookup. split; [done|].
  intros i p q Hp Hq. simplify_eq.
  apply lookup_seq in Hp as [-> ?]. f_equal. lia.
Qed.

Lemma concat_classes_Permutation {A} `{EqDecision A} (f : nat → option A)
    (classes : list A) (l : list nat) :
  NoDup classes →
  (∀ j, j ∈ l → ∃ c, f j = Some c ∧ c ∈ classes) →
  concat ((λ c, filter (λ j, f j = Some c) l) <$> classes) ≡ₚ l.
Proof.
  revert l. induction classes as [|c classes IH]; intros l Hnd Hcover.
  { destruct l as [|j l]; [done|].
    destruct (Hcover j) as (c & _ & Hc); [left|]. by apply elem_of_nil in Hc. }
  apply NoDup_cons in Hnd as [Hc Hnd]. csimpl.
  etrans; [|apply (filter_app_complement (λ j, f j = Some c) l)].
  f_equiv.
  etrans; [|apply (IH (filter (λ j, ¬ f j = Some c) l) Hnd)].
  - apply reflexive_eq. f_equal. apply list_fmap_ext.
    intros i c' Hc'. rewrite list_filter_filter.
    apply list_filter_iff. intros j. split; [|tauto].
    intros Hj. split; [done|]. rewrite Hj. intros ?. simplify_eq.
    apply Hc. by eapply list_elem_of_lookup_2.
  - intros j [Hj Hin]%list_elem_of_filter.
    destruct (Hcover j Hin) as (c' & Hc' & Hin').
    exists c'. split; [done|].
    apply elem_of_cons in Hin' as [->|?]; [done|done].
Qed.

Lemma Forall2_le_sum_eq (l k : list nat) :
  Forall2 le l k → sum_list l = sum_list k → l = k.
Proof.
  induction 1 as [|x y l k Hxy Hlk IH]; [done|]. simpl. intros Hsum.
  assert (sum_list l ≤ sum_list k).
  { clear -Hlk. induction Hlk; simpl; lia. }
  f_equal; [lia|]. apply IH. lia.
Qed.

Lemma sum_list_zip_with_sub (l k : list nat) :
  Forall2 le k l →
  sum_list (zip_with Nat.sub l k) = sum_list l - sum_list k
  ∧ sum_list k ≤ sum_list l.
Proof. induction 1 as [|x y k l Hxy Hlk [IH1 IH2]]; simpl; lia. Qed.

Section draw.
Context `{RandomState RS}.

Lemma draw_per_class_spec (class_indices : list (list nat))
    (n_i : list nat) (s : RS) :
  Forall2 (λ n indices, n ≤ length indices) n_i class_indices →
  let t_i := zip_with (λ indices n, length indices - n) class_indices n_i in
  let r := (draw_per_class class_indices n_i t_i s).1 in
  r.1 ++ r.2 ≡ₚ concat class_indices
  ∧ length r.1 = sum_list n_i ∧ length r.2 = sum_list t_i.
Proof.
  intros Hall. revert s.
  induction Hall as [|n indices n_i class_indices Hn Hall IH]; intros s.
  { done. }
  cbn [zip_with draw_per_class].
  destruct (rng_permutation s (seq 0 (length indices)))
    as [permutation s1] eqn:Hperm.
  pose proof (rng_permutation_spec s (seq 0 (length indices))) as Hp.
  rewrite Hperm in Hp. simpl in Hp.
  apply np_take_clip_Permutation in Hp.
  set (p := np_take_clip indices permutation) in *.
  assert (Hlen : length p = length indices) by by rewrite Hp.
  specialize (IH s1). cbv zeta in IH.
  destruct (draw_per_class class_indices n_i
              (zip_with (λ indices n, length indices - n)
                 class_indices n_i) s1) as [[train test] s2].
  simpl in IH. destruct IH as (IH1 & IH2 & IH3). simpl.
  rewrite (take_ge (drop n p)) by (rewrite length_drop; lia).
  split_and!.
  - rewrite <- Hp, <- IH1.
    transitivity ((take n p ++ drop n p) ++ train ++ test);
      [|by rewrite take_drop].
    rewrite <- !app_assoc. f_equiv. rewrite !app_assoc. f_equiv.
    apply Permutation_app_comm.
  - rewrite length_app, length_take, IH2.
    change (sum_list (n :: n_i)) with (n + sum_list n_i). lia.
  - rewrite length_app, length_drop, IH3.
    change (sum_list (?a :: ?l)) with (a + sum_list l). lia.
Qed.
End draw.

Section iter_indices.
Context `{RandomState RS}.

Lemma iter_indices_inr n_train n_test (y : list string) (s s' : RS)
    (train test : list nat) :
  0 < n_train → n_train + n_test = length y →
  iter_indices n_train n_test y s = inr ((train, test), s') →
  train ++ test ≡ₚ seq 0 (length y)
  ∧ length train = n_train ∧ length test = n_test.
Proof.
  intros Htrain Hn. unfold iter_indices.
  set (classes := np_unique string_le y).
  set (class_counts := (λ c, occurrences c y) <$> classes).
  set (class_indices :=
    (λ c, filter (λ j, y !! j = Some c) (seq 0 (length y))) <$> classes).
  case_bool_decide as Hmin; [done|].
  destruct (n_train <? length classes) eqn:Hgt; [done|].
  destruct (n_test <? length classes) eqn:Hge; [done|].
  apply Nat.ltb_ge in Hgt, Hge.
  assert (Hcounts : class_counts = length <$> class_indices).
  { unfold class_counts, class_indices. rewrite <- list_fmap_compose.
    apply list_fmap_ext. intros i c _. simpl.
    by rewrite length_filter_lookup_eq. }
  assert (Hpart : concat class_indices ≡ₚ seq 0 (length y)).
  { apply concat_classes_Permutation; [apply NoDup_np_unique|].
    intros j Hj%elem_of_seq.
    destruct (lookup_lt_is_Some_2 y j) as [c Hc]; [lia|].
    exists c. split; [done|].
    apply elem_of_np_unique. by eapply list_elem_of_lookup_2. }
  assert (Hsum : sum_list class_counts = length y).
  { rewrite Hcounts, <- length_concat, Hpart. apply length_seq. }
  destruct (approximate_mode class_counts n_train s) as [n_i s1] eqn:Hni.
  pose proof (approximate_mode_spec class_counts n_train s) as Hn_i.
  rewrite Hni in Hn_i. simpl in Hn_i.
  destruct Hn_i as (Hl1 & Hs1 & Hle1); [lia..|].
  destruct (sum_list_zip_with_sub class_counts n_i Hle1) as [Hrem _].
  set (remaining := zip_with Nat.sub class_counts n_i) in *.
  destruct (approximate_mode remaining n_test s1) as [t_i s2] eqn:Hti.
  pose proof (approximate_mode_spec remaining n_test s1) as Ht_i.
  rewrite Hti in Ht_i. simpl in Ht_i.
  assert (0 < length classes).
  { destruct y as [|c y]; [simpl in Hn; lia|].
    assert (Hc : c ∈ classes) by (apply elem_of_np_unique; left).
    destruct classes; [by apply elem_of_nil in Hc|simpl; lia]. }
  destruct Ht_i as (Hl2 & Hs2 & Hle2); [lia..|].
  assert (t_i = remaining) as -> by (apply Forall2_le_sum_eq; [done|lia]).
  assert (Hrem' : remaining
    = zip_with (λ indices n, length indices - n) class_indices n_i).
  { unfold remaining. rewrite Hcounts. apply zip_with_fmap_l. }
  rewrite Hrem'.
  assert (Hall : Forall2 (λ n indices, n ≤ length indices) n_i class_indices).
  { rewrite Hcounts in Hle1. by rewrite Forall2_fmap_r in Hle1. }
  pose proof (draw_per_class_spec class_indices n_i s2 Hall) as Hdraw.
  cbv zeta in Hdraw.
  destruct (draw_per_class class_indices n_i
              (zip_with (λ indices n, length indices - n)
                 class_indices n_i) s2) as [[train0 test0] s3].
  simpl in Hdraw. destruct Hdraw as (Hd1 & Hd2 & Hd3).
  destruct (rng_permutation s3 train0) as [train1 s4] eqn:Hp1.
  destruct (rng_permutation s4 test0) as [test1 s5] eqn:Hp2.
  pose proof (rng_permutation_spec s3 train0) as Hq1.
  pose proof (rng_permutation_spec s4 test0) as Hq2.
  rewrite Hp1 in Hq1. rewrite Hp2 in Hq2. simpl in Hq1, Hq2.
  intros [= <- <- <-]. split_and!.
  - by rewrite Hq1, Hq2, Hd1.
  - rewrite Hq1, Hd2. lia.
  - rewrite Hq2, Hd3, <- Hrem'. lia.
Qed.
End iter_indices.

Lemma safe_indexing_Permutation {A} (X : list A) (indices : list nat) :
  indices ≡ₚ seq 0 (length X) → safe_indexing X indices ≡ₚ X.
Proof.
  intros Hperm. unfold safe_indexing. rewrite Hperm.
  by rewrite omap_lookup_seq.
Qed.

Lemma length_safe_indexing {A} (X : list A) (indices : list nat) :
  (∀ i, i ∈ indices → i < length X) →
  length (safe_indexing X indices) = length indices.
Proof.
  unfold safe_indexing. induction indices as [|i l IH]; intros Hlt; [done|].
  csimpl. destruct (lookup_lt_is_Some_2 X i) as [x Hx]; [apply Hlt; left|].
  rewrite Hx. simpl. f_equal. apply IH. intros j Hj. apply Hlt. by right.
Qed.

Lemma split_accepts_spec (y : list string) :
  split_accepts y = true ↔
    length y - (3 * length y + 9) / 10 ≠ 0
    ∧ ¬ Exists (λ c, c < 2) ((λ c, occurrences c y) <$> np_unique string_le y)
    ∧ length (np_unique string_le y) ≤ length y - (3 * length y + 9) / 10
    ∧ length (np_unique string_le y) ≤ (3 * length y + 9) / 10.
Proof.
  unfold split_accepts.
  rewrite !andb_true_iff, negb_true_iff, Nat.eqb_neq, !Nat.leb_le.
  rewrite forallb_forall, Exists_exists.
  split; intros (((H1 & H2) & H3) & H4) || intros (H1 & H2 & H3 & H4);
    split_and!; try done.
  - intros (n & (c & -> & Hc)%list_elem_of_fmap & Hlt).
    apply list_elem_of_In, H2, Nat.leb_le in Hc. cbn beta in Hlt. lia.
  - intros c Hc%list_elem_of_In. apply Nat.leb_le.
    destruct (decide (2 ≤ occurrences c y)); [done|]. exfalso. apply H2.
    exists (occurrences c y). split; [|lia].
    by apply (list_elem_of_fmap_2 (λ c, occurrences c y)).
Qed.

Section train_test_split.
Context `{RandomState RS} {A : Type}.

(** The splitter returns exactly on the inputs it accepts. *)
Lemma train_test_split_accepts (X : list A) (y : list string) (seed : nat) :
  length X = length y → split_accepts y = true →
  ∃ train test, train_test_split X y seed = inr (train, test).
Proof.
  intros Hlen (H1 & H2 & H3 & H4)%split_accepts_spec.
  unfold train_test_split, validate_shuffle_split. rewrite Hlen.
  destruct (_ =? 0) eqn:Hz; [by apply Nat.eqb_eq in Hz|].
  rewrite Nat.eqb_refl. cbn [negb]. unfold iter_indices.
  rewrite bool_decide_eq_false_2 by done.
  destruct (_ <? _) eqn:Hgt; [apply Nat.ltb_lt in Hgt; lia|].
  destruct (_ <? _) eqn:Hge in |- *; [apply Nat.ltb_lt in Hge; lia|].
  repeat match goal with
         | |- context [let '(_, _) := ?t in _] => destruct t as [??]
         end.
  by eexists _, _.
Qed.

Lemma train_test_split_inr (X : list A) (y : list string) (seed : nat)
    (train test : list A) :
  train_test_split X y seed = inr (train, test) →
  split_accepts y = true ∧ length X = length y
  ∧ train ++ test ≡ₚ X
  ∧ length test = (3 * length X + 9) / 10
  ∧ length train = length X - (3 * length X + 9) / 10.
Proof.
  unfold train_test_split, validate_shuffle_split.
  destruct (_ =? 0) eqn:Hz; [done|]. apply Nat.eqb_neq in Hz.
  destruct (length X =? length y) eqn:Hlen; [|done].
  apply Nat.eqb_eq in Hlen. cbn [negb].
  destruct (iter_indices _ _ y (rng_seed seed))
    as [e|[[train_idx test_idx] s']] eqn:Hiter; [done|].
  intros [= <- <-].
  assert (Hacc : split_accepts y = true).
  { apply split_accepts_spec. rewrite <- Hlen. unfold iter_indices in Hiter.
    case_bool_decide as Hmin; [done|].
    destruct (_ <? _) eqn:Hgt in Hiter; [done|].
    destruct (_ <? _) eqn:Hge in Hiter; [done|].
    apply Nat.ltb_ge in Hgt, Hge. by split_and!. }
  apply iter_indices_inr in Hiter as (Hperm & Hl1 & Hl2); [|lia|].
  2:{ rewrite <- Hlen.
      pose proof (Nat.Div0.div_le_upper_bound (3 * length X + 9) 10
                    (length X)). lia. }
  rewrite <- Hlen in Hperm. split_and!; [done|done|..].
  - unfold safe_indexing. rewrite <- omap_app.
    by apply safe_indexing_Permutation.
  - rewrite <- Hl2. apply length_safe_indexing. intros i Hi.
    assert (Hin : i ∈ train_idx ++ test_idx)
      by (apply elem_of_app; by right).
    rewrite Hperm in Hin. apply elem_of_seq in Hin. lia.
  - rewrite <- Hl1. apply length_safe_indexing. intros i Hi.
    assert (Hin : i ∈ train_idx ++ test_idx)
      by (apply elem_of_app; by left).
    rewrite Hperm in Hin. apply elem_of_seq in Hin. lia.
Qed.
End train_test_split.

(** *** Collapsing rare keys *)

Lemma value_counts_lookup (s : list string) (x : string) :
  default 0 (value_counts s !! x) = occurrences x s.
Proof.
  unfold occurrences. induction s as [|y s IH]; [done|].
  cbn [value_counts foldr]. fold (value_counts s).
  rewrite filter_cons. destruct (decide (y = x)) as [->|Hne].
  - rewrite lookup_insert_eq. simpl. by rewrite IH.
  - by rewrite lookup_insert_ne.
Qed.

Lemma collapse_key_spec (s : list string) (x : string) :
  collapse_key (value_counts s) x
  = if decide (2 ≤ occurrences x s) then x else "Other".
Proof.
  unfold collapse_key. rewrite value_counts_lookup.
  destruct (2 <=? occurrences x s) eqn:Hle.
  - apply Nat.leb_le in Hle. by rewrite decide_True.
  - apply Nat.leb_gt in Hle. rewrite decide_False by lia. done.
Qed.

Lemma collapse_rare_groups_base (table : list strat_row) :
  base <$> collapse_rare_groups table = base <$> table.
Proof.
  unfold collapse_rare_groups. rewrite <- list_fmap_compose.
  by apply list_fmap_ext.
Qed.

Lemma add_stratify_columns_base `{FloatStr} (validated : DataFrame) :
  base <$> add_stratify_columns validated = rows validated.
Proof.
  unfold add_stratify_columns. rewrite <- list_fmap_compose.
  apply list_fmap_id.
Qed.

(** *** The split of the validated table *)

Section stratified_split.
Context `{FloatStr} `{RandomState RS}.

Lemma stratified_split_inr (validated : DataFrame)
    (train test : list strat_row) :
  stratified_split validated = inr (train, test) →
  (base <$> train) ++ (base <$> test) ≡ₚ rows validated
  ∧ length test = (3 * n_rows validated + 9) / 10
  ∧ length train = n_rows validated - (3 * n_rows validated + 9) / 10.
Proof.
  unfold stratified_split.
  intros (_ & _ & Hperm & Hl1 & Hl2)%train_test_split_inr.
  assert (Hn : length (collapse_rare_groups (add_stratify_columns validated))
               = n_rows validated).
  { unfold collapse_rare_groups, add_stratify_columns, n_rows.
    by rewrite !length_fmap. }
  rewrite Hn in Hl1, Hl2. split_and!; [|done..].
  rewrite <- fmap_app, Hperm, collapse_rare_groups_base.
  by rewrite add_stratify_columns_base.
Qed.
End stratified_split.

(** C6 (as amended): whenever the split returns a train and a test table,
    each row of the input is in exactly one of the two, so the
    identifiers of the two outputs together are those of the input, as a
    multiset, and with unique identifiers in the input no identifier is
    in both outputs; the test table has ceil(0.30 n) of the n rows.  The
    split returns on every table whose stratification labels the
    splitter accepts. *)
Theorem stratified_split_partition `{FloatStr} `{RandomState RS}
    (validated : DataFrame) :
  (∀ train test,
     stratified_split validated = inr (train, test) →
     (base <$> train) ++ (base <$> test) ≡ₚ rows validated
     ∧ ((λ r, at_col (base r) "id") <$> train)
         ++ ((λ r, at_col (base r) "id") <$> test)
       ≡ₚ series validated "id"
     ∧ (NoDup (series validated "id") →
        ∀ i, i ∈ (λ r, at_col (base r) "id") <$> train →
             i ∉ (λ r, at_col (base r) "id") <$> test)
     ∧ length test = (3 * n_rows validated + 9) / 10
     ∧ length train + length test = n_rows validated)
  ∧ (split_accepts
       (stratify_group_col
          <$> collapse_rare_groups (add_stratify_columns validated)) = true →
     ∃ train test, stratified_split validated = inr (train, test)).
Proof.
  split.
  - intros train test Hsplit.
    destruct (stratified_split_inr validated train test Hsplit)
      as (Hperm & Hl1 & Hl2).
    assert (Hids : ((λ r, at_col (base r) "id") <$> train)
                     ++ ((λ r, at_col (base r) "id") <$> test)
                   ≡ₚ series validated "id").
    { unfold series. rewrite <- Hperm, fmap_app, <- !list_fmap_compose.
      done. }
    split_and!; [done|done| |done|].
    + intros Hnd i Hi Hi'. rewrite <- Hids in Hnd.
      apply NoDup_app in Hnd as (_ & Hdisj & _). by apply (Hdisj i).
    + rewrite Hl1, Hl2.
      pose proof (Nat.div_mod_eq (3 * n_rows validated + 9) 10).
      lia.
  - intros Hacc.
    apply (train_test_split_accepts
             (collapse_rare_groups (add_stratify_columns validated))
             (stratify_group_col
                <$> collapse_rare_groups (add_stratify_columns validated))
             42); [by rewrite length_fmap|done].
Qed.

Lemma stratified_split_partition_witness :
  ∃ train test,
    @stratified_split whole_float_str unit reversing_rng young_example
      = inr (train, test)
    ∧ (base <$> train) ++ (base <$> test) ≡ₚ rows young_example
    ∧ ((λ r, at_col (base r) "id") <$> train)
        ++ ((λ r, at_col (base r) "id") <$> test)
      ≡ₚ series young_example "id"
    ∧ (NoDup (series young_example "id") →
       ∀ i, i ∈ (λ r, at_col (base r) "id") <$> train →
            i ∉ (λ r, at_col (base r) "id") <$> test)
    ∧ length test = (3 * n_rows young_example + 9) / 10
    ∧ length train + length test = n_rows young_example.
Proof.
  destruct (@stratified_split_partition whole_float_str unit reversing_rng
              young_example) as [Hpart Hret].
  destruct Hret as (train & test & Hsplit); [by vm_compute|].
  exists train, test. split; [exact Hsplit|]. apply Hpart, Hsplit.
Defined.

(** C6 (as stated) fails on a table of six subjects in three strata of
    two: the test side would hold ceil(0.30 * 6) = 2 rows, fewer than the
    three strata, and the splitter raises instead of returning a split. *)
Lemma stratified_split_three_pairs_rejected :
  @stratified_split whole_float_str unit reversing_rng three_pairs_example
  = inl TestSizeBelowClasses.
Proof. by vm_compute. Qed.

(** The rejection does not depend on the random generator. *)
Lemma stratified_split_three_pairs_rejected_any_rng `{RandomState RS} :
  @stratified_split whole_float_str RS _ three_pairs_example
  = inl TestSizeBelowClasses.
Proof. by vm_compute. Qed.

(** *** Rare keys *)

Lemma contains_char_app (c : Ascii.ascii) (a b : string) :
  contains_char c (a +:+ b) = contains_char c a || contains_char c b.
Proof.
  induction a as [|x a IH]; [done|]. simpl. rewrite IH.
  by rewrite orb_assoc.
Qed.

(** A stratification key holds underscores, so none is the text "Other". *)
Lemma stratify_key_not_Other `{FloatStr} (r : row) : stratify_key r ≠ "Other".
Proof.
  unfold stratify_key. intros Heq.
  apply (f_equal (contains_char "_"%char)) in Heq.
  rewrite !contains_char_app in Heq.
  change (contains_char "_"%char "_") with true in Heq.
  change (contains_char "_"%char "Other") with false in Heq.
  rewrite orb_true_l, orb_true_r in Heq. done.
Qed.

Lemma occurrences_fmap_iff {A B} `{EqDecision A, EqDecision B}
    (g : A → B) (l : list A) (a : A) (b : B) :
  (∀ x, x ∈ l → g x = b ↔ x = a) →
  occurrences b (g <$> l) = occurrences a l.
Proof.
  unfold occurrences. induction l as [|x l IH]; intros Hiff; [done|].
  rewrite fmap_cons, !filter_cons.
  assert (Hx : g x = b ↔ x = a) by (apply Hiff; left).
  assert (IH' := IH (λ y Hy, Hiff y (list_elem_of_further _ _ _ Hy))).
  destruct (decide (g x = b)), (decide (x = a)); simpl; try tauto; lia.
Qed.

(** What the replacement does achieve: a key is kept when it occurs at
    least twice and becomes "Other" otherwise. *)
Lemma collapse_rare_groups_keys (table : list strat_row) :
  stratify_group_col <$> collapse_rare_groups table
  = (λ x, if decide (2 ≤ occurrences x (stratify_group_col <$> table))
          then x else "Other") <$> (stratify_group_col <$> table).
Proof.
  unfold collapse_rare_groups. rewrite <- !list_fmap_compose.
  apply list_fmap_ext. intros i r _. simpl. apply collapse_key_spec.
Qed.

(** C7: the claim fails on every table of at least two rows in which
    exactly one stratification key occurs once.  That key is replaced by
    "Other", which then is a stratum of one member, and the splitter
    raises the error the replacement was meant to prevent:
    "The least populated class in y has only 1 member". *)
Theorem lone_rare_key_split_fails `{FloatStr} `{RandomState RS}
    (validated : DataFrame) (k : string) :
  occurrences k (stratify_key <$> rows validated) = 1 →
  (∀ k', occurrences k' (stratify_key <$> rows validated) = 1 → k' = k) →
  2 ≤ n_rows validated →
  occurrences "Other"
    (stratify_group_col
       <$> collapse_rare_groups (add_stratify_columns validated)) = 1
  ∧ stratified_split validated = inl LeastPopulatedClass.
Proof.
  intros Hk Hlone Hn.
  set (keys := stratify_key <$> rows validated) in *.
  set (y := stratify_group_col
              <$> collapse_rare_groups (add_stratify_columns validated)).
  assert (Hkeys : stratify_group_col <$> add_stratify_columns validated = keys).
  { unfold add_stratify_columns. by rewrite <- list_fmap_compose. }
  assert (Hother : occurrences "Other" y = 1).
  { unfold y. rewrite collapse_rare_groups_keys, Hkeys, <- Hk.
    apply occurrences_fmap_iff. intros x Hx. split.
    - case_decide as Hocc.
      + intros ->. apply list_elem_of_fmap in Hx as (r & Hr & _).
        symmetry in Hr. by apply stratify_key_not_Other in Hr.
      + intros _. apply Hlone. apply occurrences_pos in Hx. lia.
    - intros ->. rewrite decide_False; [done|]. lia. }
  split; [done|].
  unfold stratified_split. fold y.
  unfold train_test_split, validate_shuffle_split.
  assert (Hlen : length (collapse_rare_groups (add_stratify_columns validated))
                 = n_rows validated).
  { unfold collapse_rare_groups, add_stratify_columns, n_rows.
    by rewrite !length_fmap. }
  assert (Hy : length y = n_rows validated)
    by (unfold y; by rewrite length_fmap).
  rewrite Hlen, Hy, Nat.eqb_refl.
  destruct (_ =? 0) eqn:Hz.
  { apply Nat.eqb_eq in Hz.
    pose proof (Nat.div_mod_eq (3 * n_rows validated + 9) 10).
    pose proof (Nat.mod_upper_bound (3 * n_rows validated + 9) 10). lia. }
  cbn [negb]. unfold iter_indices.
  rewrite bool_decide_eq_true_2; [done|].
  apply Exists_exists. exists (occurrences "Other" y). split; [|lia].
  apply (list_elem_of_fmap_2 (λ c, occurrences c y)).
  apply elem_of_np_unique, occurrences_pos. lia.
Qed.

Lemma lone_rare_key_split_fails_witness :
  occurrences "Other"
    (stratify_group_col
       <$> collapse_rare_groups
             (@add_stratify_columns whole_float_str lone_key_example)) = 1
  ∧ @stratified_split whole_float_str unit reversing_rng lone_key_example
    = inl LeastPopulatedClass.
Proof.
  apply (@lone_rare_key_split_fails whole_float_str unit reversing_rng
           lone_key_example "36-46_2.0_4.0_Obese").
  - by vm_compute.
  - intros k' Hk'.
    destruct (decide (k' ∈ @stratify_key whole_float_str
                             <$> rows lone_key_example)) as [Hin|Hnin].
    + apply list_elem_of_In in Hin. vm_compute in Hin.
      destruct_or!; try done; subst k'; by vm_compute in Hk'.
    + exfalso. apply Hnin, occurrences_pos. lia.
  - vm_compute. lia.
Defined.

(** The labels passed to the splitter on that table. *)
Example lone_rare_key_labels :
  stratify_group_col
    <$> collapse_rare_groups
          (@add_stratify_columns whole_float_str lone_key_example)
  = ["16-26_1.0_3.0_Healthy Weight"; "16-26_1.0_3.0_Healthy Weight";
     "16-26_1.0_3.0_Healthy Weight"; "16-26_1.0_3.0_Healthy Weight";
     "Other"].
Proof. by vm_compute. Qed.

(** *** Subjects aged 15 *)

Lemma age_mask_spec (r : row) (months : Qc) :
  at_col r "age_in_months" = Num months →
  age_mask r = true ↔
    (qz 15 <= months / qz 12)%Qc ∧ (months / qz 12 < qz 64)%Qc.
Proof.
  intros Hr. unfold age_mask. rewrite Hr. simpl.
  by rewrite andb_true_iff, !bool_decide_eq_true.
Qed.

Lemma filtered_health_data_rows (merged : DataFrame) (r : row) :
  r ∈ rows (filtered_health_data merged) ↔
    r ∈ rows merged ∧ cell_ne (at_col r "amputation") (qz 1) = true
    ∧ age_mask r = true.
Proof.
  unfold filtered_health_data, select. simpl.
  rewrite !list_elem_of_filter. tauto.
Qed.

(** C10: a row whose age in months, converted to years, lies in [15, 16)
    passes the age filter, which keeps [15, 64), but lies below the first
    age bin: its age band is missing and its stratification key starts
    with the text "nan".  Adding the labels drops no row, and whenever
    the split returns, the row is in the train or in the test table. *)
Theorem age_15_kept_without_band `{FloatStr} `{RandomState RS}
    (validated : DataFrame) (r : row) (months : Qc) :
  r ∈ rows validated →
  at_col r "age_in_months" = Num months →
  (qz 15 <= months / qz 12)%Qc → (months / qz 12 < qz 16)%Qc →
  age_mask r = true
  ∧ (∀ merged r0,
       r0 ∈ rows merged → at_col r0 "age_in_months" = Num months →
       cell_ne (at_col r0 "amputation") (qz 1) = true →
       r0 ∈ rows (filtered_health_data merged))
  ∧ age_group r = None
  ∧ (∃ rest, stratify_key r = "nan_" +:+ rest)
  ∧ mkStratRow r None (classify_bmi (at_col r "bmi")) (stratify_key r)
      ∈ add_stratify_columns validated
  ∧ length (add_stratify_columns validated) = n_rows validated
  ∧ ∀ train test,
      stratified_split validated = inr (train, test) →
      r ∈ base <$> train ∨ r ∈ base <$> test.
Proof.
  intros Hr Hmonths Hlo Hhi.
  assert (Hband : age_group r = None).
  { unfold age_group. rewrite Hmonths. simpl.
    apply pd_cut_age_bins_outside. by left. }
  split_and!.
  - apply (age_mask_spec r months Hmonths). split; [done|]. qc_lra.
  - intros merged r0 Hr0 Hmonths0 Hamp.
    apply filtered_health_data_rows. split_and!; [done..|].
    apply (age_mask_spec r0 months Hmonths0). split; [done|]. qc_lra.
  - done.
  - unfold stratify_key. rewrite Hband. simpl. by eexists.
  - unfold add_stratify_columns. rewrite <- Hband.
    by apply (list_elem_of_fmap_2
                (λ r, mkStratRow r (age_group r)
                        (classify_bmi (at_col r "bmi")) (stratify_key r))).
  - unfold add_stratify_columns, n_rows. by rewrite length_fmap.
  - intros train test (Hperm & _)%stratified_split_inr.
    rewrite <- Hperm in Hr. by apply elem_of_app in Hr.
Qed.

Lemma age_15_kept_without_band_witness :
  let r := health_row 1 186 1 3 22 in
  age_mask r = true
  ∧ (∀ merged r0,
       r0 ∈ rows merged → at_col r0 "age_in_months" = Num (qz 186) →
       cell_ne (at_col r0 "amputation") (qz 1) = true →
       r0 ∈ rows (filtered_health_data merged))
  ∧ age_group r = None
  ∧ (∃ rest, @stratify_key whole_float_str r = "nan_" +:+ rest)
  ∧ mkStratRow r None (classify_bmi (at_col r "bmi"))
      (@stratify_key whole_float_str r)
      ∈ @add_stratify_columns whole_float_str young_example
  ∧ length (@add_stratify_columns whole_float_str young_example)
    = n_rows young_example
  ∧ ∀ train test,
      @stratified_split whole_float_str unit reversing_rng young_example
        = inr (train, test) →
      r ∈ base <$> train ∨ r ∈ base <$> test.
Proof.
  apply (@age_15_kept_without_band whole_float_str unit reversing_rng
           young_example (health_row 1 186 1 3 22) (qz 186)).
  - apply list_elem_of_here.
  - reflexivity.
  - by vm_compute.
  - by vm_compute.
Defined.

(** On that table the split does return, and the 15-year-old is in the
    test table. *)
Example age_15_example_split :
  ∃ train test,
    @stratified_split whole_float_str unit reversing_rng young_example
      = inr (train, test)
    ∧ base <$> train = [health_row 3 188 1 3 21; health_row 4 189 1 3 24]
    ∧ base <$> test = [health_row 1 186 1 3 22; health_row 2 187 1 3 23]
    ∧ stratify_group_col <$> (train ++ test)
      = replicate 4 "nan_1.0_3.0_Healthy Weight".
Proof. eexists _, _. split; [by vm_compute|]. by vm_compute. Qed.

(** *** Instances of the statements on the example tables *)


(** The two cases of the rule on the example.  Subject 7: fat mass 30
    occurs three times among 30, 20, 30, 30, 40 and is the aggregated
    value; the lean masses 50, 54, 51, 52, 53 are all different and the
    aggregated value is their mean, 52.  Subject 5: the means of 10, 11
    and of 40, 42.  All four are floats, so nothing is rounded. *)
Example aggregated_example :
  (λ r, (cell_fraction (at_col r "id"),
         cell_fraction (at_col r "total_fat_mass"),
         cell_fraction (at_col r "total_lean_mass")))
    <$> rows (@aggregated_lean_fat_df whole_number_sum
                (filtered_lean_fat_data lean_fat_example))
  = [ (Some (5 # 1), Some (21 # 2), Some (41 # 1));
      (Some (7 # 1), Some (30 # 1), Some (52 # 1)) ]%Q.
Proof. by vm_compute. Qed.


(** The same value comes out with every float64 sum: the three fat
    masses are whole numbers, which a float64 sum adds up without
    rounding in any order. *)
Lemma aggregated_mean_is_rounded_any_sum `{Float64Sum} :
  cell_fraction
    <$> series (aggregated_lean_fat_df (filtered_lean_fat_data thirds_example))
          "total_fat_mass"
  = [Some (5498291146631851 # 549755813888)%Q].
Proof.
  assert (Hsum : float_sum [qz 10000; qz 10001; qz 10003]
                 = sum_Qc [qz 10000; qz 10001; qz 10003]).
  { apply float_sum_whole; [|by vm_compute].
    repeat constructor; by vm_compute. }
  assert (Hgroups :
    (λ g : Qc * list row,
       numbers ((λ r, at_col r "total_fat_mass") <$> g.2))
      <$> groupby_id (filtered_lean_fat_data thirds_example)
    = [[qz 10000; qz 10001; qz 10003]]) by by vm_compute.
  transitivity
    (cell_fraction
       <$> (mode_or_mean
              <$> ((λ g : Qc * list row,
                      numbers ((λ r, at_col r "total_fat_mass") <$> g.2))
                     <$> groupby_id (filtered_lean_fat_data thirds_example)))).
  { unfold series, aggregated_lean_fat_df. cbn [rows].
    rewrite <- !list_fmap_compose. apply list_fmap_ext.
    intros ? g _. cbn [compose]. by rewrite aggregate_group_fat. }
  rewrite Hgroups. cbn [fmap list_fmap]. unfold mode_or_mean.
  replace (1 <? (mode [qz 10000; qz 10001; qz 10003]).2) with false
    by by vm_compute.
  unfold mean. rewrite Hsum. by vm_compute.
Qed.

Lemma merged_row_count_witness :
  n_rows (merged_health_data body_example demographic_example mass_example)
  = size (list_to_set (series body_example "id")
          ∩ list_to_set (series demographic_example "id")
          ∩ list_to_set (series mass_example "id") : gset cell)
  ∧ n_rows (merged_health_data body_example demographic_example mass_example)
    ≤ (n_rows body_example `min` n_rows demographic_example)
      `min` n_rows mass_example.
Proof.
  apply (merged_row_count body_example demographic_example mass_example).
  - apply (bool_decide_unpack _). by vm_compute.
  - apply (bool_decide_unpack _). by vm_compute.
  - apply (bool_decide_unpack _). by vm_compute.
Defined.

(** Subjects 1 and 5 are the ones present in all three example tables. *)
Example merged_example_ids :
  series (merged_health_data body_example demographic_example mass_example)
         "id"
  = [Num (qz 1); Num (qz 5)].
Proof. by vm_compute. Qed.

Lemma missing_column_written_as_nan_witness :
  let out :=
    @convert_xpt_to_csv whole_float_str columns_to_save_bm new_columns_bm
      reader_example in
  ∃ missing_columns,
    (∀ col, col ∈ missing_columns ↔
            col ∈ columns_to_save_bm ∧ col ∉ fields reader_example)
    ∧ out = PrintMissingColumns missing_columns :: MakeDirs
              :: WriteHeader new_columns_bm
              :: (WriteRow <$> data_rows out) ++ [PrintSaved]
    ∧ length (data_rows out) = length (records reader_example)
    ∧ ∀ k r cells,
        records reader_example !! k = Some r →
        data_rows out !! k = Some cells →
        length cells = length new_columns_bm
        ∧ cells !! 10 = Some "nan"
        ∧ ∀ j' old,
            columns_to_save_bm !! j' = Some old →
            old ∈ fields reader_example →
            cells !! j' = Some (match r !! old with
                                | Some v => @csv_str whole_float_str v
                                | None => "nan"
                                end).
Proof.
  apply (@missing_column_written_as_nan whole_float_str
           columns_to_save_bm new_columns_bm reader_example 10 "BMAAMP").
  - apply (bool_decide_unpack _). by vm_compute.
  - apply (bool_decide_unpack _). by vm_compute.
  - reflexivity.
  - reflexivity.
  - apply (bool_decide_unpack _). by vm_compute.
Defined.

(** What the converter prints and writes for the example file. *)
Example convert_example :
  @convert_xpt_to_csv whole_float_str columns_to_save_bm new_columns_bm
    reader_example
  = [ PrintMissingColumns ["BMAAMP"]; MakeDirs; WriteHeader new_columns_bm;
      WriteRow ["1.0"; "70.0"; "175.0"; "23.0"; "40.0"; "35.0"; "36.0";
                "30.0"; "80.0"; "50.0"; "nan"];
      WriteRow ["2.0"; "nan"; "160.0"; "21.0"; "38.0"; "33.0"; "34.0";
                "28.0"; "75.0"; "48.0"; "nan"];
      PrintSaved ].
Proof. by vm_compute. Qed.

(** A file with the fields SEQN and _X, asked for SEQN, _X and a column
    it does not have.  The record holds the value of _X, 5, under the
    attribute _1, so the lookup by name falls back to the default: the
    warning names the absent column only, and the row holds "nan" under
    [x] as well, although _X is a field of the file. *)
Lemma renamed_field_written_as_nan :
  let out :=
    @convert_xpt_to_csv whole_float_str ["SEQN"; "_X"; "MISSING"]
      ["id"; "x"; "missing"] renamed_reader_example in
  ("_X" ∈ fields renamed_reader_example)
  ∧ (∃ r, records renamed_reader_example = [r]
          ∧ r !! "_1" = Some (PyFloat (Num (qz 5)))
          ∧ r !! "_X" = None)
  ∧ out = [ PrintMissingColumns ["MISSING"]; MakeDirs;
            WriteHeader ["id"; "x"; "missing"];
            WriteRow ["1.0"; "nan"; "nan"];
            PrintSaved ].
Proof.
  split_and!.
  - apply list_elem_of_In. simpl. tauto.
  - eexists. split_and!; [reflexivity|by vm_compute..].
  - by vm_compute.
Qed.

(** The mappings of the notebook meet the conditions of C8: no name is
    repeated and there are as many new names as requested columns. *)
Lemma column_mappings_well_formed :
  Forall (λ m : list string * list string,
            NoDup m.1 ∧ NoDup m.2 ∧ length m.1 = length m.2)
         column_mappings.
Proof.
  unfold column_mappings.
  repeat (constructor;
          [split_and!; [apply (bool_decide_unpack _); by vm_compute
                       |apply (bool_decide_unpack _); by vm_compute
                       |reflexivity]|]).
  constructor.
Qed.

(** ** Part III: further properties of the code *)

(** *** More on range validation *)

Lemma DataFrame_eq (df df' : DataFrame) :
  columns df = columns df' → rows df = rows df' → df = df'.
Proof. destruct df, df'. simpl. by intros -> ->. Qed.

(** X1: the rows that survive range validation do not depend on the order
    of the entries of the range table (the printed counts do). *)
Theorem validation_order_irrelevant (df : DataFrame)
    (ranges ranges' : list (string * (Qc * Qc))) :
  ranges ≡ₚ ranges' →
  (filter_unrealistic_values df ranges).1
  = (filter_unrealistic_values df ranges').1.
Proof.
  intros Hperm. unfold filter_unrealistic_values. apply DataFrame_eq.
  - by rewrite !foldl_validate_columns.
  - rewrite !foldl_validate_rows. apply list_filter_iff. intros r.
    rewrite !forallb_forall.
    split; intros Hall item Hitem; apply Hall;
      apply list_elem_of_In; apply list_elem_of_In in Hitem.
    + by rewrite Hperm.
    + by rewrite <- Hperm.
Qed.

Lemma validation_order_irrelevant_witness :
  (filter_unrealistic_values body_example valid_ranges).1
  = (filter_unrealistic_values body_example (reverse valid_ranges)).1.
Proof.
  apply (validation_order_irrelevant body_example valid_ranges
           (reverse valid_ranges)).
  symmetry. apply reverse_Permutation.
Defined.

(** The counts do depend on the order: a row out of range in two columns
    is counted by whichever rule comes first. *)
Example validation_counts_depend_on_order :
  let df := mkDataFrame ["weight"; "height"]
              [ {[ "weight" := Num (qz 20); "height" := Num (qz 90) ]} ] in
  (filter_unrealistic_values df
     [("weight", (qz 30, qz 300)); ("height", (qz 100, qz 250))]).2
  = [mkWarning 1 "weight"]
  ∧ (filter_unrealistic_values df
       [("height", (qz 100, qz 250)); ("weight", (qz 30, qz 300))]).2
    = [mkWarning 1 "height"].
Proof. by vm_compute. Qed.

(** X2: validating an already validated table changes nothing and prints
    nothing. *)
Theorem validation_idempotent (df : DataFrame)
    (ranges : list (string * (Qc * Qc))) :
  filter_unrealistic_values (filter_unrealistic_values df ranges).1 ranges
  = ((filter_unrealistic_values df ranges).1, []).
Proof.
  set (out := (filter_unrealistic_values df ranges).1).
  assert (Hcols : columns out = columns df)
    by apply foldl_validate_columns.
  assert (Hrows : ∀ r, r ∈ rows out →
    forallb (λ item, rule_keeps (columns df) item r) ranges = true).
  { intros r Hr. unfold out, filter_unrealistic_values in Hr.
    rewrite foldl_validate_rows in Hr.
    by apply list_elem_of_filter in Hr as [? _]. }
  apply injective_projections.
  - apply DataFrame_eq.
    + apply foldl_validate_columns.
    + unfold filter_unrealistic_values at 1. rewrite foldl_validate_rows.
      apply filter_mask_true. intros r Hr. rewrite Hcols. by apply Hrows.
  - unfold filter_unrealistic_values at 1.
    rewrite foldl_validate_printed. simpl.
    apply (nil_length_inv _), Nat.le_0_r.
    induction (seq 0 (length ranges)) as [|k l IH]; [done|].
    csimpl. replace (reported_at out ranges k) with (@None removal_warning);
      [done|].
    unfold reported_at. destruct (ranges !! k) as [item|] eqn:Hk; [|done].
    simpl. case_bool_decide as Hcol; [|done].
    rewrite (nil_length_inv (filter _ _)); [done|].
    apply Nat.le_0_r. 
    assert (Hnone : ∀ l', l' ⊆ rows out →
      length (filter (out_of_range item.1 item.2.1 item.2.2) l') ≤ 0).
    { induction l' as [|r l' IHl']; intros Hsub; [done|].
      rewrite filter_cons_False.
      - apply IHl'. intros x Hx. apply Hsub. by right.
      - intros Hinv. apply invalid_mask_spec, invalid_not_kept in Hinv.
        assert (Hr : r ∈ rows out) by (apply Hsub; left).
        apply Hrows in Hr. rewrite forallb_forall in Hr.
        assert (Hin : item ∈ ranges) by by eapply list_elem_of_lookup_2.
        apply list_elem_of_In, Hr in Hin. unfold rule_keeps in Hin.
        rewrite Hcols in Hcol. rewrite bool_decide_eq_true_2 in Hin by done.
        congruence. }
    apply Hnone. unfold still_present. apply list_subseteq_filter.
Qed.

Lemma length_filter_complement {A} (f g : A → bool) (l : list A) :
  (∀ x, x ∈ l → f x = negb (g x)) →
  length (filter (λ x, f x = true) l) + length (filter (λ x, g x = true) l)
  = length l.
Proof.
  induction l as [|x l IH]; intros Hfg; [done|].
  rewrite !filter_cons. rewrite (Hfg x) by left.
  assert (IH' := IH (λ y Hy, Hfg y (list_elem_of_further _ _ _ Hy))).
  destruct (g x); repeat case_decide; try done; simpl; lia.
Qed.

Lemma notna_masks column min_val max_val r :
  isna (at_col r column) = false →
  invalid_mask column min_val max_val r
  = negb (keep_mask column min_val max_val r).
Proof.
  unfold invalid_mask, keep_mask, cell_lt, cell_gt, cell_ge, cell_le.
  destruct (at_col r column) as [|q]; [done|]. intros _.
  rewrite negb_andb. f_equal.
  - apply eq_true_iff_eq.
    rewrite negb_true_iff, bool_decide_eq_true, bool_decide_eq_false.
    split; [apply Qclt_not_le|apply Qcnot_le_lt].
  - apply eq_true_iff_eq.
    rewrite negb_true_iff, bool_decide_eq_true, bool_decide_eq_false.
    split; [apply Qclt_not_le|apply Qcnot_le_lt].
Qed.

Lemma row_has_na_false cols r c :
  row_has_na cols r = false → c ∈ cols → isna (at_col r c) = false.
Proof.
  unfold row_has_na. intros Hna Hc.
  destruct (isna (at_col r c)) eqn:Hisna; [|done].
  rewrite <- Hna. symmetry. apply existsb_exists. exists c.
  split; [by apply list_elem_of_In|done].
Qed.

Lemma foldl_validate_exact ranges df printed :
  (∀ r, r ∈ rows df → row_has_na (columns df) r = false) →
  sum_list (invalid_count <$> (foldl validate_column (df, printed) ranges).2)
  + n_rows (foldl validate_column (df, printed) ranges).1
  = sum_list (invalid_count <$> printed) + n_rows df.
Proof.
  revert df printed. induction ranges as [|item ranges IH];
    intros df printed Hna.
  - done.
  - change (foldl validate_column (df, printed) (item :: ranges))
      with (foldl validate_column (validate_column (df, printed) item) ranges).
    destruct (validate_column (df, printed) item) as [df' printed'] eqn:Hstep.
    destruct item as [column [min_val max_val]]. simpl in Hstep.
    case_bool_decide as Hcol; simplify_eq; [|by apply IH].
    rewrite IH.
    + pose proof (length_filter_complement
                    (invalid_mask column min_val max_val)
                    (keep_mask column min_val max_val) (rows df)) as Hlen.
      unfold n_rows, select in *. simpl.
      rewrite <- Hlen.
      * destruct (0 <? _) eqn:Hpos.
        -- rewrite fmap_app, sum_list_with_app. simpl. lia.
        -- apply Nat.ltb_ge in Hpos. lia.
      * intros r Hr. apply notna_masks.
        eapply row_has_na_false; [by apply Hna|done].
    + simpl. intros r Hr. apply list_elem_of_filter in Hr as [_ Hr].
      by apply Hna.
Qed.

(** X3: on a table without missing values every removed row is counted:
    the printed counts add up to exactly the number of rows removed. *)
Theorem removed_counts_exact_without_nan (df : DataFrame)
    (ranges : list (string * (Qc * Qc))) :
  (∀ r, r ∈ rows df → row_has_na (columns df) r = false) →
  sum_list (invalid_count <$> (filter_unrealistic_values df ranges).2)
  + n_rows (filter_unrealistic_values df ranges).1
  = n_rows df.
Proof.
  intros Hna. unfold filter_unrealistic_values.
  by rewrite foldl_validate_exact.
Qed.

Lemma removed_counts_exact_without_nan_witness :
  sum_list (invalid_count <$>
              (filter_unrealistic_values (dropna body_example) valid_ranges).2)
  + n_rows (filter_unrealistic_values (dropna body_example) valid_ranges).1
  = n_rows (dropna body_example).
Proof.
  apply (removed_counts_exact_without_nan (dropna body_example) valid_ranges).
  intros r Hr. apply list_elem_of_filter in Hr as [Hr _].
  by apply negb_true_iff.
Defined.

Lemma foldl_validate_skip ranges df printed :
  foldl validate_column (df, printed) ranges
  = foldl validate_column (df, printed)
      (filter (λ item, item.1 ∈ columns df) ranges).
Proof.
  revert df printed. induction ranges as [|item ranges IH];
    intros df printed; [done|].
  change (foldl validate_column (df, printed) (item :: ranges))
    with (foldl validate_column (validate_column (df, printed) item) ranges).
  rewrite filter_cons.
  pose proof (validate_column_columns (df, printed) item) as Hc.
  destruct (validate_column (df, printed) item) as [df' printed'] eqn:Hstep.
  simpl in Hc. rewrite IH, Hc.
  case_decide as Hcol.
  - change (foldl validate_column (df, printed) (item :: ?l))
      with (foldl validate_column (validate_column (df, printed) item) l).
    by rewrite Hstep.
  - destruct item as [column [min_val max_val]]. simpl in *.
    rewrite bool_decide_eq_false_2 in Hstep by done. by simplify_eq.
Qed.

(** X4: entries of the range table whose column is not in the table are
    skipped without any message: the result is that of the table of ranges
    restricted to the columns present. *)
Theorem absent_columns_skipped (df : DataFrame)
    (ranges : list (string * (Qc * Qc))) :
  filter_unrealistic_values df ranges
  = filter_unrealistic_values df
      (filter (λ item, item.1 ∈ columns df) ranges).
Proof. apply foldl_validate_skip. Qed.

(** *** Labels, inclusion filters and cleanup *)

(** X5: the five weight classes as intervals of the body-mass index:
    below 18.5, [18.5, 25), [25, 30), [30, 35), and 35 or more; a missing
    index falls through every comparison into the last class. *)
Theorem classify_bmi_intervals (bmi_value : cell) :
  (classify_bmi bmi_value = "Underweight"
     ↔ ∃ q, bmi_value = Num q ∧ (q < qc 185 10)%Qc)
  ∧ (classify_bmi bmi_value = "Healthy Weight"
     ↔ ∃ q, bmi_value = Num q ∧ (qc 185 10 <= q)%Qc ∧ (q < qz 25)%Qc)
  ∧ (classify_bmi bmi_value = "Overweight"
     ↔ ∃ q, bmi_value = Num q ∧ (qz 25 <= q)%Qc ∧ (q < qz 30)%Qc)
  ∧ (classify_bmi bmi_value = "Obese"
     ↔ ∃ q, bmi_value = Num q ∧ (qz 30 <= q)%Qc ∧ (q < qz 35)%Qc)
  ∧ (classify_bmi bmi_value = "Extremely Obese"
     ↔ bmi_value = NaN ∨ ∃ q, bmi_value = Num q ∧ (qz 35 <= q)%Qc).
Proof.
  destruct bmi_value as [|q].
  - cbn. repeat split; try done; try (by intros (? & ? & _)); by left.
  - unfold classify_bmi, cell_lt, cell_ge.
    repeat (case_bool_decide; cbn [andb]);
      (repeat split;
       [ try done; try (by eexists); try (intros (q' & [= <-] & ?));
         try (intros [|(q' & [= <-] & ?)]; [done|]);
         try (right; eexists; split; [done|]);
         try (destruct_and?; exfalso; qc_lra); try qc_lra .. ]).
Qed.

(** X6: among the rows that pass the inclusion filters, the age band is
    missing exactly for the ages below 16 years, and the last band,
    "56-65", is given exactly from 56 years on (the filter stops at 64). *)
Theorem filtered_age_band (merged : DataFrame) (r : row) :
  r ∈ rows (filtered_health_data merged) →
  ∃ months,
    at_col r "age_in_months" = Num months
    ∧ (qz 15 <= months / qz 12)%Qc ∧ (months / qz 12 < qz 64)%Qc
    ∧ (age_group r = None ↔ (months / qz 12 < qz 16)%Qc)
    ∧ (age_group r = Some "56-65" ↔ (qz 56 <= months / qz 12)%Qc).
Proof.
  intros (_ & _ & Hage)%filtered_health_data_rows.
  destruct (at_col r "age_in_months") as [|months] eqn:Hr.
  { unfold age_mask in Hage. by rewrite Hr in Hage. }
  exists months. split; [done|].
  pose proof (proj1 (age_mask_spec r months Hr) Hage) as [Hlo Hhi].
  split; [done|]. split; [done|].
  unfold age_group. rewrite Hr. cbn [cell_div].
  revert Hlo Hhi. generalize (months / qz 12)%Qc. intros a Hlo Hhi.
  unfold age_bins, age_labels, pd_cut, cell_ge, cell_lt.
  repeat (case_bool_decide; cbn [andb]);
    (split; split; try done; try (intros; exfalso; qc_lra); try (intros; qc_lra)).
Qed.

Lemma filtered_age_band_witness :
  ∃ months,
    at_col (health_row 1 186 1 3 22) "age_in_months" = Num months
    ∧ (qz 15 <= months / qz 12)%Qc ∧ (months / qz 12 < qz 64)%Qc
    ∧ (age_group (health_row 1 186 1 3 22) = None
       ↔ (months / qz 12 < qz 16)%Qc)
    ∧ (age_group (health_row 1 186 1 3 22) = Some "56-65"
       ↔ (qz 56 <= months / qz 12)%Qc).
Proof.
  apply (filtered_age_band
           (mkDataFrame health_columns [health_row 1 186 1 3 22])).
  apply filtered_health_data_rows. split; [left|]. by vm_compute.
Defined.

(** X7: the inclusion filters keep a row exactly when its amputation flag
    is not 1 and its age is a number of at least 15 and less than 64
    years.  A missing amputation flag passes (a missing value differs from
    1), a missing age does not; the columns and the order of the rows are
    untouched. *)
Theorem inclusion_filters_spec (merged : DataFrame) :
  columns (filtered_health_data merged) = columns merged
  ∧ rows (filtered_health_data merged) `sublist_of` rows merged
  ∧ ∀ r, r ∈ rows (filtered_health_data merged) ↔
      r ∈ rows merged
      ∧ at_col r "amputation" ≠ Num (qz 1)
      ∧ ∃ months, at_col r "age_in_months" = Num months
          ∧ (qz 15 <= months / qz 12)%Qc ∧ (months / qz 12 < qz 64)%Qc.
Proof.
  split; [done|]. split.
  { unfold filtered_health_data, select. simpl.
    etrans; apply sublist_filter. }
  intros r. rewrite filtered_health_data_rows.
  assert (Hamp : cell_ne (at_col r "amputation") (qz 1) = true
                 ↔ at_col r "amputation" ≠ Num (qz 1)).
  { unfold cell_ne, cell_eq. destruct (at_col r "amputation") as [|q].
    - done.
    - rewrite negb_true_iff, bool_decide_eq_false. split; congruence. }
  assert (Hage : age_mask r = true
                 ↔ ∃ months, at_col r "age_in_months" = Num months
                     ∧ (qz 15 <= months / qz 12)%Qc
                     ∧ (months / qz 12 < qz 64)%Qc).
  { destruct (at_col r "age_in_months") as [|months] eqn:Hr.
    - unfold age_mask. rewrite Hr. split; [done|]. by intros (? & ? & _).
    - rewrite (age_mask_spec r months Hr). split.
      + intros [??]. by exists months.
      + intros (? & [= <-] & ?). done. }
  by rewrite Hamp, Hage.
Qed.

Lemma at_col_drop (cols : list string) (r : row) (c : string) :
  c ∉ cols → at_col (filter (λ kv, kv.1 ∉ cols) r) c = at_col r c.
Proof.
  intros Hc. unfold at_col. destruct (r !! c) as [x|] eqn:Hr.
  - by rewrite (proj2 (map_lookup_filter_Some _ r c x)).
  - by rewrite (proj2 (map_lookup_filter_None _ r c)) by (by left).
Qed.

Lemma list_filter_fmap_comm {A B} (f : A → B) (P : B → Prop) (Q : A → Prop)
    `{!∀ y, Decision (P y)} `{!∀ x, Decision (Q x)} (l : list A) :
  (∀ x, x ∈ l → P (f x) ↔ Q x) →
  filter P (f <$> l) = f <$> filter Q l.
Proof.
  induction l as [|x l IH]; intros HPQ; [done|].
  csimpl. rewrite !filter_cons.
  rewrite IH by (intros y Hy; apply HPQ; by right).
  pose proof (HPQ x (list_elem_of_here _ _)).
  repeat case_decide; try done; tauto.
Qed.

Lemma cleaned_health_data_rows (filtered : DataFrame) :
  rows (cleaned_health_data filtered)
  = (λ r : row, filter (λ kv, kv.1 ∉ columns_to_remove) r)
      <$> filter (λ r, Forall (λ c, isna (at_col r c) = false)
                         (filter (λ c, c ∉ columns_to_remove)
                                 (columns filtered)))
                 (rows filtered).
Proof.
  unfold cleaned_health_data, dropna, select, drop_columns. simpl.
  apply list_filter_fmap_comm. intros r _.
  rewrite negb_true_iff. unfold row_has_na.
  rewrite <- not_true_iff_false, existsb_exists, Forall_forall.
  split.
  - intros Hno c Hc. rewrite <- (at_col_drop columns_to_remove).
    + destruct (isna _) eqn:Hna; [|done]. destruct Hno. exists c.
      by rewrite <- list_elem_of_In.
    + by apply list_elem_of_filter in Hc as [? _].
  - intros Hall (c & Hc & Hna). apply list_elem_of_In in Hc.
    rewrite at_col_drop in Hna
      by (by apply list_elem_of_filter in Hc as [? _]).
    rewrite Hall in Hna; done.
Qed.

(** X8: the cleanup removes the columns [pregnancy_status] and
    [amputation] and then every row with a missing value in one of the
    columns that are left.  A missing value in one of the two removed
    columns never costs a row, and no missing value is left. *)
Theorem cleanup_spec (filtered : DataFrame) :
  let kept_columns :=
    filter (λ c, c ∉ columns_to_remove) (columns filtered) in
  columns (cleaned_health_data filtered) = kept_columns
  ∧ rows (cleaned_health_data filtered)
    = (λ r : row, filter (λ kv, kv.1 ∉ columns_to_remove) r)
        <$> filter (λ r, Forall (λ c, isna (at_col r c) = false) kept_columns)
                   (rows filtered)
  ∧ ∀ r c, r ∈ rows (cleaned_health_data filtered) → c ∈ kept_columns →
      isna (at_col r c) = false.
Proof.
  intros kept_columns. split; [done|]. split.
  - apply cleaned_health_data_rows.
  - intros r c Hr Hc. by eapply (dropna_no_nan (drop_columns _ filtered)).
Qed.

(** *** More on the exam aggregator *)

(** X9: the exam filter keeps a row exactly when its exam status is 1 and
    none of its values is missing; a row without a status is dropped, as
    is a usable exam with one missing mass.  The columns and the order of
    the rows are untouched. *)
Theorem exam_filter_spec (lean_fat_data : DataFrame) :
  columns (filtered_lean_fat_data lean_fat_data) = columns lean_fat_data
  ∧ rows (filtered_lean_fat_data lean_fat_data)
      `sublist_of` rows lean_fat_data
  ∧ ∀ r, r ∈ rows (filtered_lean_fat_data lean_fat_data) ↔
      r ∈ rows lean_fat_data
      ∧ at_col r "exam_status" = Num (qz 1)
      ∧ ∀ c, c ∈ columns lean_fat_data → isna (at_col r c) = false.
Proof.
  split; [done|]. split.
  { unfold filtered_lean_fat_data, dropna, select. simpl.
    etrans; apply sublist_filter. }
  intros r. unfold filtered_lean_fat_data, dropna, select. simpl.
  rewrite !list_elem_of_filter, negb_true_iff.
  assert (Hstatus : cell_eq (at_col r "exam_status") (qz 1) = true
                    ↔ at_col r "exam_status" = Num (qz 1)).
  { unfold cell_eq. destruct (at_col r "exam_status") as [|q]; [done|].
    rewrite bool_decide_eq_true. split; congruence. }
  assert (Hna : row_has_na (columns lean_fat_data) r = false
                ↔ ∀ c, c ∈ columns lean_fat_data →
                       isna (at_col r c) = false).
  { unfold row_has_na. rewrite <- not_true_iff_false, existsb_exists. split.
    - intros Hno c Hc. destruct (isna (at_col r c)) eqn:Hisna; [|done].
      destruct Hno. exists c. by rewrite <- list_elem_of_In.
    - intros Hall (c & Hc%list_elem_of_In & Hisna).
      rewrite (Hall c Hc) in Hisna. done. }
  rewrite Hstatus, Hna. tauto.
Qed.

Lemma StronglySorted_Qcle_Qclt (l : list Qc) :
  StronglySorted Qcle l → NoDup l → StronglySorted Qclt l.
Proof.
  induction 1 as [|x l Hl IH Hx]; intros Hnd; [constructor|].
  apply NoDup_cons in Hnd as [Hnin Hnd]. constructor; [by apply IH|].
  rewrite Forall_forall in Hx |- *. intros y Hy.
  specialize (Hx y Hy). apply Qcle_lt_or_eq in Hx as [Hlt|Heq]; [done|].
  by subst.
Qed.

Lemma series_aggregated_id `{Float64Sum} (filtered : DataFrame) :
  series (aggregated_lean_fat_df filtered) "id"
  = Num <$> np_unique Qcle (numbers (series filtered "id")).
Proof.
  unfold series, aggregated_lean_fat_df, groupby_id, np_unique_counts. simpl.
  rewrite <- !list_fmap_compose. apply list_fmap_ext. intros k v _. simpl.
  by rewrite aggregate_group_id.
Qed.

(** X10: the aggregated table lists the subjects in strictly ascending
    order of their identifier, each subject of the filtered table once
    and no one else; a missing identifier forms no group. *)
Theorem aggregated_ids_ascending `{Float64Sum} (filtered : DataFrame) :
  ∃ ids,
    series (aggregated_lean_fat_df filtered) "id" = Num <$> ids
    ∧ StronglySorted Qclt ids
    ∧ ∀ i, i ∈ ids ↔ Num i ∈ series filtered "id".
Proof.
  exists (np_unique Qcle (numbers (series filtered "id"))). split_and!.
  - apply series_aggregated_id.
  - apply StronglySorted_Qcle_Qclt; [|apply NoDup_np_unique].
    apply StronglySorted_np_unique; [apply _|].
    intros x y. destruct (Qclt_le_dec x y) as [?%Qclt_le_weak|?]; auto.
  - intros i. by rewrite elem_of_np_unique, elem_of_numbers.
Qed.

(** X11: the last merge keeps exactly the rows of the body/demographic
    table whose subject has an aggregated exam, once each and in their
    order: the aggregated table never multiplies a row. *)
Theorem merged_ids_filtered `{Float64Sum} (body_measurements
    demographic_data filtered : DataFrame) :
  series (merged_health_data body_measurements demographic_data
            (aggregated_lean_fat_df filtered)) "id"
  = filter (λ c, isna c = false ∧ c ∈ series filtered "id")
      (series (merge_on_id body_measurements demographic_data) "id").
Proof.
  unfold merged_health_data. rewrite merge_on_id_ids.
  - apply list_filter_iff. intros c. rewrite series_aggregated_id.
    rewrite list_elem_of_fmap. split.
    + intros (i & -> & Hi). split; [done|].
      by apply elem_of_np_unique, elem_of_numbers in Hi.
    + intros [Hna Hc]. destruct c as [|i]; [done|]. exists i.
      split; [done|]. by apply elem_of_np_unique, elem_of_numbers.
  - rewrite series_aggregated_id. apply NoDup_fmap_2, NoDup_np_unique.
    intros x y. congruence.
Qed.

(** *** The labels after the replacement of rare keys *)

Lemma occurrences_fmap {A B} `{EqDecision B} (g : A → B) (l : list A) (b : B) :
  occurrences b (g <$> l) = length (filter (λ a, g a = b) l).
Proof.
  unfold occurrences. induction l as [|a l IH]; [done|].
  csimpl. rewrite !filter_cons. repeat case_decide; try done; simpl; lia.
Qed.

Lemma length_filter_none {A} (P : A → Prop) `{!∀ x, Decision (P x)}
    (l : list A) :
  (∀ x, x ∈ l → ¬ P x) → length (filter P l) = 0.
Proof.
  induction l as [|a l IH]; intros Hnone; [done|].
  rewrite filter_cons_False by (apply Hnone; left).
  apply IH. intros x Hx. apply Hnone. by right.
Qed.

Lemma collapsed_labels_keys `{FloatStr} (validated : DataFrame) :
  stratify_group_col <$> collapse_rare_groups (add_stratify_columns validated)
  = (λ x, if decide (2 ≤ occurrences x (stratify_key <$> rows validated))
          then x else "Other") <$> (stratify_key <$> rows validated).
Proof.
  rewrite collapse_rare_groups_keys. unfold add_stratify_columns.
  by rewrite <- !list_fmap_compose.
Qed.

Lemma occurrences_collapsed (keys : list string) (x : string) :
  x ≠ "Other" →
  occurrences x
    ((λ x, if decide (2 ≤ occurrences x keys) then x else "Other") <$> keys)
  = if decide (2 ≤ occurrences x keys) then occurrences x keys else 0.
Proof.
  intros Hx. rewrite occurrences_fmap.
  case_decide as Hocc.
  - unfold occurrences. f_equal. apply list_filter_iff. intros k.
    split.
    + case_decide; [done|]. intros Heq. by destruct Hx.
    + intros ->. by rewrite decide_True.
  - apply length_filter_none. intros k _. case_decide; [|congruence].
    intros ->. done.
Qed.

Lemma occurrences_Other (keys : list string) :
  "Other" ∉ keys →
  occurrences "Other"
    ((λ x, if decide (2 ≤ occurrences x keys) then x else "Other") <$> keys)
  = length (filter (λ k, occurrences k keys = 1) keys).
Proof.
  intros Hother. rewrite occurrences_fmap. f_equal.
  apply list_filter_iff_elem_of. intros k Hk.
  pose proof (proj1 (occurrences_pos k keys) Hk).
  case_decide.
  - split; [|lia]. by intros ->.
  - split; [lia|done].
Qed.

Lemma Other_not_key `{FloatStr} (validated : DataFrame) :
  "Other" ∉ stratify_key <$> rows validated.
Proof.
  intros (r & Hr & _)%list_elem_of_fmap. symmetry in Hr.
  by apply stratify_key_not_Other in Hr.
Qed.

(** X13: replacing the rare keys changes no count of a key that occurs at
    least twice, removes every key that occurs once, and gives the label
    "Other" to exactly the rows whose key occurs once: every row keeps
    its place, and its label is its own key when that key occurs at
    least twice and "Other" otherwise; no row is added or dropped, and
    the other columns are untouched. *)
Theorem collapsed_label_counts `{FloatStr} (validated : DataFrame) :
  let keys := stratify_key <$> rows validated in
  let table := collapse_rare_groups (add_stratify_columns validated) in
  let y := stratify_group_col <$> table in
  base <$> table = rows validated
  ∧ age_group_col <$> table = age_group <$> rows validated
  ∧ bmi_group_col <$> table
    = (λ r, classify_bmi (at_col r "bmi")) <$> rows validated
  ∧ (∀ x, x ≠ "Other" →
       occurrences x y
       = if decide (2 ≤ occurrences x keys) then occurrences x keys else 0)
  ∧ occurrences "Other" y
    = length (filter (λ k, occurrences k keys = 1) keys)
  ∧ (∀ k row, table !! k = Some row →
       rows validated !! k = Some (base row)
       ∧ stratify_group_col row
         = (if decide (2 ≤ occurrences (stratify_key (base row)) keys)
            then stratify_key (base row) else "Other")
       ∧ (stratify_group_col row = "Other"
          ↔ occurrences (stratify_key (base row)) keys = 1)).
Proof.
  intros keys table y.
  assert (Hbase : base <$> table = rows validated).
  { unfold table. by rewrite collapse_rare_groups_base,
      add_stratify_columns_base. }
  split_and!; [..|intros k row Hk;
    assert (Hrow : rows validated !! k = Some (base row))
      by (by rewrite <- Hbase, list_lookup_fmap, Hk);
    assert (Hlabel : stratify_group_col row
      = (if decide (2 ≤ occurrences (stratify_key (base row)) keys)
         then stratify_key (base row) else "Other"));
    [pose proof (collapsed_labels_keys validated) as Hy;
     apply (f_equal (λ l, l !! k)) in Hy; fold table in Hy;
     rewrite !list_lookup_fmap, Hk, Hrow in Hy; simpl in Hy;
     by injection Hy|];
    split_and!; [done|done|];
    rewrite Hlabel; case_decide as Hocc;
    [split; [by intros ?%stratify_key_not_Other|lia]|];
    split; [intros _|done];
    assert (Hin : stratify_key (base row) ∈ keys)
      by (by eapply list_elem_of_fmap_2, list_elem_of_lookup_2);
    apply (occurrences_pos _ keys) in Hin; lia].
  - unfold table. by rewrite collapse_rare_groups_base,
      add_stratify_columns_base.
  - unfold table, collapse_rare_groups, add_stratify_columns.
    by rewrite <- !list_fmap_compose.
  - unfold table, collapse_rare_groups, add_stratify_columns.
    by rewrite <- !list_fmap_compose.
  - intros x Hx. unfold y, table. rewrite collapsed_labels_keys.
    by apply occurrences_collapsed.
  - unfold y, table. rewrite collapsed_labels_keys.
    apply occurrences_Other, Other_not_key.
Qed.

(** *** Which error the split ends with *)

Lemma sum_class_counts (y : list string) :
  sum_list ((λ c, occurrences c y) <$> np_unique string_le y) = length y.
Proof.
  transitivity (length (concat
    ((λ c, filter (λ j, y !! j = Some c) (seq 0 (length y)))
       <$> np_unique string_le y))).
  - rewrite length_concat, <- list_fmap_compose. f_equal.
    apply list_fmap_ext. intros i c _. simpl.
    by rewrite length_filter_lookup_eq.
  - rewrite concat_classes_Permutation; [apply length_seq|apply NoDup_np_unique|].
    intros j Hj%elem_of_seq.
    destruct (lookup_lt_is_Some_2 y j) as [c Hc]; [lia|].
    exists c. split; [done|].
    apply elem_of_np_unique. by eapply list_elem_of_lookup_2.
Qed.

Lemma sum_list_ge_2 (l : list nat) :
  ¬ Exists (λ c, c < 2) l → 2 * length l ≤ sum_list l.
Proof.
  induction l as [|c l IH]; intros Hall; [done|].
  rewrite Exists_cons in Hall. simpl.
  assert (2 ≤ c) by (apply Nat.nlt_ge; tauto).
  assert (2 * length l ≤ sum_list l) by (apply IH; tauto). lia.
Qed.

(** Classes of at least two members each are never more than the train
    size. *)
Lemma classes_le_train (n c : nat) :
  2 * c ≤ n → c ≤ n - (3 * n + 9) / 10.
Proof.
  intros Hc.
  pose proof (Nat.div_mod_eq (3 * n + 9) 10).
  pose proof (Nat.mod_upper_bound (3 * n + 9) 10).
  destruct (decide (n < 5)); [|lia].
  assert (n = 0 ∨ n = 1 ∨ n = 2 ∨ n = 3 ∨ n = 4) by lia.
  destruct_or!; subst n; simpl; lia.
Qed.

Lemma train_empty_iff (n : nat) : n - (3 * n + 9) / 10 = 0 ↔ n ≤ 1.
Proof.
  pose proof (Nat.div_mod_eq (3 * n + 9) 10).
  pose proof (Nat.mod_upper_bound (3 * n + 9) 10).
  split; [lia|]. intros Hn.
  assert (n = 0 ∨ n = 1) as [->| ->] by lia; done.
Qed.

Section split_result.
Context `{RandomState RS} {A : Type}.

(** The result of the splitter on equally long inputs, case by case. *)
Lemma train_test_split_cases (X : list A) (y : list string) (seed : nat) :
  length X = length y →
  let n_test := (3 * length y + 9) / 10 in
  let counts := (λ c, occurrences c y) <$> np_unique string_le y in
  if decide (length y ≤ 1)
  then train_test_split X y seed = inl EmptyTrainSet
  else if decide (Exists (λ c, c < 2) counts)
  then train_test_split X y seed = inl LeastPopulatedClass
  else if decide (n_test < length (np_unique string_le y))
  then train_test_split X y seed = inl TestSizeBelowClasses
  else ∃ train test, train_test_split X y seed = inr (train, test).
Proof.
  intros Hlen n_test counts.
  case_decide as Hn.
  { unfold train_test_split, validate_shuffle_split. rewrite Hlen.
    apply train_empty_iff in Hn. by rewrite Hn. }
  case_decide as Hmin.
  { unfold train_test_split, validate_shuffle_split. rewrite Hlen.
    destruct (_ =? 0) eqn:Hz.
    { apply Nat.eqb_eq, train_empty_iff in Hz. lia. }
    rewrite Nat.eqb_refl. cbn [negb]. unfold iter_indices.
    by rewrite bool_decide_eq_true_2. }
  assert (Htrain : length (np_unique string_le y)
                   ≤ length y - (3 * length y + 9) / 10).
  { apply classes_le_train. rewrite <- (sum_class_counts y).
    etrans; [|by apply sum_list_ge_2]. fold counts.
    unfold counts. by rewrite length_fmap. }
  case_decide as Htest.
  { unfold train_test_split, validate_shuffle_split. rewrite Hlen.
    destruct (_ =? 0) eqn:Hz.
    { apply Nat.eqb_eq, train_empty_iff in Hz. lia. }
    rewrite Nat.eqb_refl. cbn [negb]. unfold iter_indices.
    rewrite bool_decide_eq_false_2 by done.
    destruct (_ <? _) eqn:Hgt; [apply Nat.ltb_lt in Hgt; lia|].
    destruct (_ <? _) eqn:Hge in |- *; [done|].
    apply Nat.ltb_ge in Hge. unfold n_test in Htest. lia. }
  apply train_test_split_accepts; [done|].
  apply split_accepts_spec. split_and!; [|done|done|unfold n_test in *; lia].
  rewrite train_empty_iff. lia.
Qed.
End split_result.

Lemma least_populated_iff_lone `{FloatStr} (validated : DataFrame) :
  let keys := stratify_key <$> rows validated in
  let y := stratify_group_col
             <$> collapse_rare_groups (add_stratify_columns validated) in
  Exists (λ c, c < 2) ((λ c, occurrences c y) <$> np_unique string_le y)
  ↔ length (filter (λ k, occurrences k keys = 1) keys) = 1.
Proof.
  intros keys y.
  assert (Hother : occurrences "Other" y
                   = length (filter (λ k, occurrences k keys = 1) keys)).
  { unfold y. rewrite collapsed_labels_keys.
    apply occurrences_Other, Other_not_key. }
  rewrite <- Hother, Exists_exists. split.
  - intros (n & (c & -> & Hc)%list_elem_of_fmap & Hlt).
    apply elem_of_np_unique in Hc. cbn beta in Hlt.
    pose proof (proj1 (occurrences_pos c y) Hc) as Hpos.
    destruct (decide (c = "Other")) as [->|Hne]; [lia|].
    exfalso. unfold y in Hlt, Hpos. rewrite collapsed_labels_keys in Hlt, Hpos.
    rewrite occurrences_collapsed in Hlt, Hpos by done.
    case_decide; lia.
  - intros Hone. exists (occurrences "Other" y). split; [|lia].
    apply (list_elem_of_fmap_2 (λ c, occurrences c y)).
    apply elem_of_np_unique, occurrences_pos. lia.
Qed.

Lemma stratified_split_cases `{FloatStr} `{RandomState RS}
    (validated : DataFrame) :
  let keys := stratify_key <$> rows validated in
  let y := stratify_group_col
             <$> collapse_rare_groups (add_stratify_columns validated) in
  if decide (n_rows validated ≤ 1)
  then stratified_split validated = inl EmptyTrainSet
  else if decide (length (filter (λ k, occurrences k keys = 1) keys) = 1)
  then stratified_split validated = inl LeastPopulatedClass
  else if decide ((3 * n_rows validated + 9) / 10
                  < length (np_unique string_le y))
  then stratified_split validated = inl TestSizeBelowClasses
  else ∃ train test, stratified_split validated = inr (train, test).
Proof.
  intros keys y.
  assert (Hy : length y = n_rows validated).
  { unfold y, collapse_rare_groups, add_stratify_columns, n_rows.
    by rewrite !length_fmap. }
  pose proof (train_test_split_cases
                (collapse_rare_groups (add_stratify_columns validated))
                y 42) as Hcases.
  cbv zeta in Hcases. rewrite Hy in Hcases.
  specialize (Hcases ltac:(by rewrite <- Hy; unfold y; rewrite length_fmap)).
  fold (stratified_split validated) in Hcases. unfold stratified_split.
  fold y.
  pose proof (least_populated_iff_lone validated) as Hlone.
  cbv zeta in Hlone. fold y keys in Hlone.
  repeat case_decide; try done; tauto.
Qed.

(** X14: the split of a validated table ends with the error "the
    resulting train set will be empty" exactly on tables of fewer than two
    rows, and with the error "The least populated class in y has only 1
    member" exactly on tables of at least two rows in which one row alone
    has a key that occurs once.  It never fails on the lengths of its
    inputs, nor on a train size below the number of classes. *)
Theorem stratified_split_errors `{FloatStr} `{RandomState RS}
    (validated : DataFrame) :
  let keys := stratify_key <$> rows validated in
  let lone := length (filter (λ k, occurrences k keys = 1) keys) in
  (stratified_split validated = inl EmptyTrainSet ↔ n_rows validated ≤ 1)
  ∧ (stratified_split validated = inl LeastPopulatedClass
     ↔ 2 ≤ n_rows validated ∧ lone = 1)
  ∧ stratified_split validated ≠ inl InconsistentLength
  ∧ stratified_split validated ≠ inl TrainSizeBelowClasses.
Proof.
  intros keys lone. pose proof (stratified_split_cases validated) as Hcases.
  cbv zeta in Hcases. fold keys lone in Hcases.
  repeat case_decide;
    try destruct Hcases as (train & test & Hcases);
    rewrite Hcases; split_and!; try done; try (split; [done|lia]);
    try (split; [intros _; lia|done]).
Qed.

(** X15: the split succeeds exactly when the table has at least two rows,
    the rows whose key occurs once are none or several, and the distinct
    labels left after the replacement are no more than the test size
    ceil(0.30 n); with more labels than that it ends with the error
    "The test_size = .. should be greater or equal to the number of
    classes". *)
Theorem stratified_split_succeeds_iff `{FloatStr} `{RandomState RS}
    (validated : DataFrame) :
  let keys := stratify_key <$> rows validated in
  let lone := length (filter (λ k, occurrences k keys = 1) keys) in
  let y := stratify_group_col
             <$> collapse_rare_groups (add_stratify_columns validated) in
  let n_classes := length (np_unique string_le y) in
  let n_test := (3 * n_rows validated + 9) / 10 in
  ((∃ train test, stratified_split validated = inr (train, test))
   ↔ 2 ≤ n_rows validated ∧ lone ≠ 1 ∧ n_classes ≤ n_test)
  ∧ (stratified_split validated = inl TestSizeBelowClasses
     ↔ 2 ≤ n_rows validated ∧ lone ≠ 1 ∧ n_test < n_classes).
Proof.
  intros keys lone y n_classes n_test.
  pose proof (stratified_split_cases validated) as Hcases.
  cbv zeta in Hcases. fold keys lone y n_classes n_test in Hcases.
  repeat case_decide;
    try destruct Hcases as (train & test & Hcases);
    rewrite Hcases; split;
    try (split; [by intros (? & ? & ?)|lia]);
    try (split; [done|lia]);
    try (split; [intros _; lia|done]);
    try (split; [intros _; lia|intros _; by eexists _, _]).
Qed.

(** *** The share of every class in the train set *)

Lemma length_filter_all {A} (P : A → Prop) `{!∀ x, Decision (P x)}
    (l : list A) :
  (∀ x, x ∈ l → P x) → length (filter P l) = length l.
Proof.
  induction l as [|a l IH]; intros Hall; [done|].
  rewrite filter_cons_True by (apply Hall; left). simpl. f_equal.
  apply IH. intros x Hx. apply Hall. by right.
Qed.

Section class_share.
Context `{RandomState RS}.

Lemma approximate_mode_floor (class_counts : list nat) (n_draws : nat)
    (s : RS) (i c : nat) :
  0 < sum_list class_counts → n_draws ≤ sum_list class_counts →
  class_counts !! i = Some c →
  (approximate_mode class_counts n_draws s).1 !! i
    = Some (c * n_draws / sum_list class_counts)
  ∨ (approximate_mode class_counts n_draws s).1 !! i
    = Some (S (c * n_draws / sum_list class_counts)).
Proof.
  intros Hpos Hle Hc.
  set (total := sum_list class_counts) in *.
  set (floored := (λ c, c * n_draws / total) <$> class_counts).
  set (remainder := (λ c, (c * n_draws) `mod` total) <$> class_counts).
  pose proof (sum_list_div_mod class_counts n_draws total) as Hdm.
  pose proof (sum_list_mod_bound class_counts n_draws total Hpos) as Hmb.
  fold total floored remainder in Hdm, Hmb.
  assert (Hf : floored !! i = Some (c * n_draws / total)).
  { unfold floored. by rewrite list_lookup_fmap, Hc. }
  unfold approximate_mode. fold total floored remainder. cbv zeta.
  destruct (0 <? n_draws - sum_list floored) eqn:Hneed; [|by left].
  set (values := reverse (np_unique le remainder)).
  destruct (add_by_remainder_spec values remainder floored
              (n_draws - sum_list floored) s) as (_ & _ & Hp).
  - unfold floored, remainder. by rewrite !length_fmap.
  - apply (StronglySorted_reverse lt), StronglySorted_le_lt.
    + apply StronglySorted_np_unique; apply _.
    + apply NoDup_np_unique.
  - assert (Hcap : cap_pos remainder values
                   = length (filter (λ v, 0 < v) remainder)).
    { unfold cap_pos. f_equal. apply list_filter_iff_elem_of.
      intros v Hv. split; [tauto|]. intros ?. split; [done|].
      by apply elem_of_reverse, elem_of_np_unique. }
    rewrite Hcap. nia.
  - destruct (Hp i _ Hf) as [Hx|[Hx _]]; [by left|by right].
Qed.

Lemma draw_per_class_count {C} `{EqDecision C} (f : nat → option C)
    (classes : list C) (class_indices : list (list nat))
    (n_i : list nat) (s : RS) (c : C) :
  Forall2 (λ indices c', ∀ j, j ∈ indices → f j = Some c')
          class_indices classes →
  Forall2 (λ n indices, n ≤ length indices) n_i class_indices →
  let t_i := zip_with (λ indices n, length indices - n) class_indices n_i in
  let r := (draw_per_class class_indices n_i t_i s).1 in
  length (filter (λ j, f j = Some c) r.1)
  = sum_list (zip_with (λ c' n, if decide (c' = c) then n else 0)
                       classes n_i).
Proof.
  intros Hlab Hall. revert classes Hlab s.
  induction Hall as [|n indices n_i class_indices Hn Hall IH];
    intros classes Hlab s.
  { apply Forall2_nil_inv_l in Hlab as ->. done. }
  apply Forall2_cons_inv_l in Hlab as (c' & classes' & Hc' & Hlab & ->).
  cbn [zip_with draw_per_class].
  destruct (rng_permutation s (seq 0 (length indices)))
    as [permutation s1] eqn:Hperm.
  pose proof (rng_permutation_spec s (seq 0 (length indices))) as Hp.
  rewrite Hperm in Hp. simpl in Hp.
  apply np_take_clip_Permutation in Hp.
  set (p := np_take_clip indices permutation) in *.
  assert (Hlen : length p = length indices) by by rewrite Hp.
  specialize (IH classes' Hlab s1). cbv zeta in IH.
  destruct (draw_per_class class_indices n_i
              (zip_with (λ indices n, length indices - n)
                 class_indices n_i) s1) as [[train test] s2].
  simpl in IH. simpl. rewrite filter_app, length_app, IH. f_equal.
  assert (Hin : ∀ j, j ∈ take n p → f j = Some c').
  { intros j Hj. apply Hc'. rewrite <- Hp. by apply (subseteq_take n p). }
  case_decide as Hcc.
  - subst c'. rewrite length_filter_all by done.
    rewrite length_take. lia.
  - apply length_filter_none. intros j Hj Hfj. rewrite (Hin j Hj) in Hfj.
    congruence.
Qed.

Lemma sum_list_indicator {C} `{EqDecision C} (classes : list C)
    (n_i : list nat) (k : nat) (c : C) (n : nat) :
  NoDup classes → classes !! k = Some c → n_i !! k = Some n →
  sum_list (zip_with (λ c' n, if decide (c' = c) then n else 0) classes n_i)
  = n.
Proof.
  revert n_i k. induction classes as [|c' classes IH];
    intros [|n' n_i] k Hnd Hc Hn; try done.
  apply NoDup_cons in Hnd as [Hc' Hnd]. destruct k as [|k]; simplify_eq/=.
  - rewrite decide_True by done.
    assert (Hrest : ∀ l : list nat,
      sum_list (zip_with (λ c' n, if decide (c' = c) then n else 0)
                         classes l) = 0).
    { clear -Hc'. induction classes as [|c0 classes IH]; intros [|m l];
        try done. simpl. rewrite decide_False.
      - apply IH. intros ?. apply Hc'. by right.
      - intros ->. apply Hc'. left. }
    rewrite Hrest. lia.
  - rewrite decide_False.
    + by eapply IH.
    + intros ->. apply Hc'. by eapply list_elem_of_lookup_2.
Qed.

Lemma iter_indices_class_share n_train n_test (y : list string) (s s' : RS)
    (train test : list nat) (c : string) :
  0 < n_train → n_train + n_test = length y →
  iter_indices n_train n_test y s = inr ((train, test), s') →
  let share := occurrences c y * n_train / length y in
  length (filter (λ j, y !! j = Some c) train) = share
  ∨ length (filter (λ j, y !! j = Some c) train) = S share.
Proof.
  intros Htrain Hn Hiter share.
  destruct (iter_indices_inr n_train n_test y s s' train test Htrain Hn Hiter)
    as (Hperm & _ & _).
  revert Hiter. unfold iter_indices.
  set (classes := np_unique string_le y).
  set (class_counts := (λ c, occurrences c y) <$> classes).
  set (class_indices :=
    (λ c, filter (λ j, y !! j = Some c) (seq 0 (length y))) <$> classes).
  case_bool_decide as Hmin; [done|].
  destruct (n_train <? length classes) eqn:Hgt; [done|].
  destruct (n_test <? length classes) eqn:Hge; [done|].
  apply Nat.ltb_ge in Hgt, Hge.
  assert (0 < length classes).
  { destruct y as [|c0 y]; [simpl in Hn; lia|].
    assert (Hc0 : c0 ∈ classes) by (apply elem_of_np_unique; left).
    destruct classes; [by apply elem_of_nil in Hc0|simpl; lia]. }
  assert (Hcounts : class_counts = length <$> class_indices).
  { unfold class_counts, class_indices. rewrite <- list_fmap_compose.
    apply list_fmap_ext. intros i c' _. simpl.
    by rewrite length_filter_lookup_eq. }
  assert (Hsum : sum_list class_counts = length y).
  { assert (Hpart : concat class_indices ≡ₚ seq 0 (length y)).
    { apply concat_classes_Permutation; [apply NoDup_np_unique|].
      intros j Hj%elem_of_seq.
      destruct (lookup_lt_is_Some_2 y j) as [c' Hc']; [lia|].
      exists c'. split; [done|].
      apply elem_of_np_unique. by eapply list_elem_of_lookup_2. }
    rewrite Hcounts, <- length_concat, Hpart. apply length_seq. }
  destruct (approximate_mode class_counts n_train s) as [n_i s1] eqn:Hni.
  pose proof (approximate_mode_spec class_counts n_train s) as Hn_i.
  rewrite Hni in Hn_i. simpl in Hn_i.
  destruct Hn_i as (Hl1 & Hs1 & Hle1); [lia..|].
  destruct (sum_list_zip_with_sub class_counts n_i Hle1) as [Hrem _].
  set (remaining := zip_with Nat.sub class_counts n_i) in *.
  destruct (approximate_mode remaining n_test s1) as [t_i s2] eqn:Hti.
  pose proof (approximate_mode_spec remaining n_test s1) as Ht_i.
  rewrite Hti in Ht_i. simpl in Ht_i.
  destruct Ht_i as (Hl2 & Hs2 & Hle2); [lia..|].
  assert (t_i = remaining) as -> by (apply Forall2_le_sum_eq; [done|lia]).
  assert (Hrem' : remaining
    = zip_with (λ indices n, length indices - n) class_indices n_i).
  { unfold remaining. rewrite Hcounts. apply zip_with_fmap_l. }
  rewrite Hrem'.
  assert (Hall : Forall2 (λ n indices, n ≤ length indices) n_i class_indices).
  { rewrite Hcounts in Hle1. by rewrite Forall2_fmap_r in Hle1. }
  assert (Hlab : Forall2 (λ indices c', ∀ j, j ∈ indices → y !! j = Some c')
                         class_indices classes).
  { unfold class_indices. apply Forall2_fmap_l, Forall_Forall2_diag.
    apply Forall_forall. intros c' _ j Hj.
    by apply list_elem_of_filter in Hj as [? _]. }
  pose proof (draw_per_class_count (λ j, y !! j) classes class_indices n_i s2
                c Hlab Hall) as Hdraw.
  cbv zeta in Hdraw.
  destruct (draw_per_class class_indices n_i
              (zip_with (λ indices n, length indices - n)
                 class_indices n_i) s2) as [[train0 test0] s3].
  simpl in Hdraw.
  destruct (rng_permutation s3 train0) as [train1 s4] eqn:Hp1.
  destruct (rng_permutation s4 test0) as [test1 s5] eqn:Hp2.
  pose proof (rng_permutation_spec s3 train0) as Hq1.
  rewrite Hp1 in Hq1. simpl in Hq1.
  intros [= <- <- <-]. rewrite Hq1, Hdraw.
  destruct (decide (c ∈ classes)) as [Hc|Hc].
  - apply list_elem_of_lookup in Hc as [k Hk].
    assert (Hck : class_counts !! k = Some (occurrences c y)).
    { unfold class_counts. by rewrite list_lookup_fmap, Hk. }
    destruct (lookup_lt_is_Some_2 n_i k) as [n Hnk].
    { rewrite Hl1. by eapply lookup_lt_Some. }
    rewrite (sum_list_indicator classes n_i k c n);
      [|apply NoDup_np_unique|done|done].
    pose proof (approximate_mode_floor class_counts n_train s k
                  (occurrences c y)) as Hfloor.
    rewrite Hni, Hsum in Hfloor. simpl in Hfloor.
    destruct Hfloor as [Hf|Hf]; [lia|lia|done|..];
      rewrite Hnk in Hf; simplify_eq; [by left|by right].
  - left. transitivity 0.
    + clear -Hc. revert n_i. induction classes as [|c' classes IH];
        intros [|m l]; try done. simpl. rewrite decide_False.
      * apply IH. intros ?. apply Hc. by right.
      * intros ->. apply Hc. left.
    + unfold share. replace (occurrences c y) with 0;
        [by rewrite Nat.mul_0_l, Nat.Div0.div_0_l|].
      destruct (occurrences c y) eqn:Hocc; [done|]. exfalso. apply Hc.
      apply elem_of_np_unique, occurrences_pos. lia.
Qed.
End class_share.

Lemma occurrences_omap_lookup {C} `{EqDecision C} (y : list C)
    (indices : list nat) (c : C) :
  occurrences c (omap (λ i, y !! i) indices)
  = length (filter (λ j, y !! j = Some c) indices).
Proof.
  unfold occurrences. induction indices as [|i l IH]; [done|].
  csimpl. destruct (y !! i) as [x|] eqn:Hi; simpl.
  - destruct (decide (x = c)) as [->|Hne].
    + rewrite !filter_cons_True by done. simpl. by rewrite IH.
    + rewrite !filter_cons_False by congruence. done.
  - rewrite filter_cons_False by congruence. done.
Qed.

Lemma fmap_safe_indexing {A B} (g : A → B) (X : list A) (indices : list nat) :
  g <$> safe_indexing X indices = omap (λ i, (g <$> X) !! i) indices.
Proof.
  unfold safe_indexing. induction indices as [|i l IH]; [done|].
  csimpl. rewrite list_lookup_fmap. destruct (X !! i); csimpl; by rewrite ?IH.
Qed.

Lemma occurrences_Permutation {C} `{EqDecision C} (l k : list C) (c : C) :
  l ≡ₚ k → occurrences c l = occurrences c k.
Proof. intros Hperm. unfold occurrences. by rewrite Hperm. Qed.

Lemma occurrences_app {C} `{EqDecision C} (l k : list C) (c : C) :
  occurrences c (l ++ k) = occurrences c l + occurrences c k.
Proof. unfold occurrences. by rewrite filter_app, length_app. Qed.

Section split_share.
Context `{RandomState RS} {A : Type}.

Lemma train_test_split_share (g : A → string) (X : list A) (seed : nat)
    (train test : list A) (c : string) :
  train_test_split X (g <$> X) seed = inr (train, test) →
  let n := length X in
  let share := occurrences c (g <$> X) * (n - (3 * n + 9) / 10) / n in
  occurrences c (g <$> train) + occurrences c (g <$> test)
  = occurrences c (g <$> X)
  ∧ (occurrences c (g <$> train) = share
     ∨ occurrences c (g <$> train) = S share).
Proof.
  intros Hsplit n share. split.
  { apply train_test_split_inr in Hsplit as (_ & _ & Hperm & _).
    rewrite <- occurrences_app, <- fmap_app.
    apply occurrences_Permutation. by rewrite Hperm. }
  revert Hsplit. unfold train_test_split, validate_shuffle_split.
  destruct (_ =? 0) eqn:Hz; [done|]. apply Nat.eqb_neq in Hz.
  destruct (length X =? length (g <$> X)) eqn:Hlen; [|done].
  cbn [negb].
  destruct (iter_indices _ _ (g <$> X) (rng_seed seed))
    as [e|[[tr te] s']] eqn:Hiter; [done|].
  intros [= <- <-].
  rewrite fmap_safe_indexing, occurrences_omap_lookup.
  assert (Hpos : 0 < length X - (3 * length X + 9) / 10) by lia.
  assert (Hsum : length X - (3 * length X + 9) / 10
                 + (3 * length X + 9) / 10 = length (g <$> X)).
  { rewrite length_fmap.
    pose proof (Nat.div_mod_eq (3 * length X + 9) 10).
    pose proof (Nat.mod_upper_bound (3 * length X + 9) 10). lia. }
  pose proof (iter_indices_class_share _ _ _ _ _ _ _ c Hpos Hsum Hiter)
    as Hshare.
  cbv zeta in Hshare. rewrite length_fmap in Hshare. done.
Qed.
End split_share.

(** X16: the split is stratified: of the [cnt] rows carrying a label, the
    train table gets the proportional share [cnt * n_train / n] rounded
    down, or one more, and the test table gets the others. *)
Theorem stratum_share `{FloatStr} `{RandomState RS}
    (validated : DataFrame) (train test : list strat_row) (c : string) :
  stratified_split validated = inr (train, test) →
  let table := collapse_rare_groups (add_stratify_columns validated) in
  let n := n_rows validated in
  let n_train := n - (3 * n + 9) / 10 in
  let cnt := occurrences c (stratify_group_col <$> table) in
  occurrences c (stratify_group_col <$> train)
    + occurrences c (stratify_group_col <$> test) = cnt
  ∧ (occurrences c (stratify_group_col <$> train) = cnt * n_train / n
     ∨ occurrences c (stratify_group_col <$> train)
       = S (cnt * n_train / n)).
Proof.
  intros Hsplit table n n_train cnt.
  pose proof (train_test_split_share stratify_group_col table 42 train test c
                Hsplit) as Hshare.
  cbv zeta in Hshare.
  assert (Hlen : length table = n).
  { unfold table, collapse_rare_groups, add_stratify_columns, n, n_rows.
    by rewrite !length_fmap. }
  by rewrite Hlen in Hshare.
Qed.

Lemma stratum_share_witness :
  ∃ train test,
    @stratified_split whole_float_str unit reversing_rng young_example
      = inr (train, test)
    ∧ occurrences "nan_1.0_3.0_Healthy Weight" (stratify_group_col <$> train)
      + occurrences "nan_1.0_3.0_Healthy Weight" (stratify_group_col <$> test)
      = 4
    ∧ (occurrences "nan_1.0_3.0_Healthy Weight" (stratify_group_col <$> train)
       = 2
       ∨ occurrences "nan_1.0_3.0_Healthy Weight"
           (stratify_group_col <$> train) = 3).
Proof.
  destruct (@train_test_split_accepts unit reversing_rng strat_row
              (collapse_rare_groups
                 (@add_stratify_columns whole_float_str young_example))
              (stratify_group_col
                 <$> collapse_rare_groups
                       (@add_stratify_columns whole_float_str young_example))
              42) as (train & test & Hsplit);
    [reflexivity|by vm_compute|].
  exists train, test. split; [done|].
  apply (@stratum_share whole_float_str unit reversing_rng young_example
           train test "nan_1.0_3.0_Healthy Weight" Hsplit).
Defined.

(** *** The converter on arbitrary column lists *)

Lemma elem_of_dict_set {V} (d : list (string * V)) (k : string) (v : V)
    (kv : string * V) :
  kv ∈ dict_set d k v → kv ∈ d ∨ kv = (k, v).
Proof.
  unfold dict_set. case_bool_decide.
  - intros (kv' & -> & Hin)%list_elem_of_fmap.
    case_bool_decide; [by right|by left].
  - rewrite elem_of_app, list_elem_of_singleton. tauto.
Qed.

Lemma elem_of_foldl_dict_set {V} (items d : list (string * V))
    (kv : string * V) :
  kv ∈ foldl (λ d kv, dict_set d kv.1 kv.2) d items → kv ∈ d ∨ kv ∈ items.
Proof.
  revert d. induction items as [|[k v] items IH]; intros d; [by left|].
  simpl. intros [Hin|Hin]%IH.
  - apply elem_of_dict_set in Hin as [?| ->]; [by left|right; left].
  - right. by right.
Qed.

Lemma elem_of_dict_of_items {V} (items : list (string * V))
    (kv : string * V) :
  kv ∈ dict_of_items items → kv ∈ items.
Proof.
  intros [Hin|Hin]%elem_of_foldl_dict_set; [|done].
  by apply elem_of_nil in Hin.
Qed.

Section any_columns.
Context `{FloatStr}.
Context (columns_to_save new_columns : list string) (reader : XportReader).

Lemma row_dict_keys (r : gmap string pyval) :
  Forall (λ k, k ∈ new_columns)
    (row_dict (dict_of_items (zip columns_to_save new_columns))
       (fields reader) r).*1.
Proof.
  apply Forall_forall. intros k (kv & -> & Hkv)%list_elem_of_fmap.
  apply elem_of_dict_of_items in Hkv.
  apply list_elem_of_fmap in Hkv as ([o n] & -> & Hon). simpl.
  apply elem_of_dict_of_items in Hon.
  by apply elem_of_zip_r in Hon.
Qed.

End any_columns.

(** X17: whatever the two lists of column names are (of different
    lengths, with repeated names), every key of the dict the converter
    builds for a record is one of the new column names, so the csv
    writer never rejects it: it writes one cell per new column, the
    value held under that name or the empty text. *)
Theorem writerow_accepts_every_row `{FloatStr}
    (columns_to_save new_columns : list string) (reader : XportReader)
    (r : gmap string pyval) :
  let rowdict :=
    row_dict (dict_of_items (zip columns_to_save new_columns))
      (fields reader) r in
  Forall (λ k, k ∈ new_columns) rowdict.*1
  ∧ ∃ cells,
      dict_to_list new_columns rowdict = Some cells
      ∧ length cells = length new_columns
      ∧ ∀ j key, new_columns !! j = Some key →
          cells !! j = Some (default "" (csv_str <$> dict_get rowdict key)).
Proof.
  intros rowdict.
  assert (Hkeys : Forall (λ k, k ∈ new_columns) rowdict.*1)
    by apply row_dict_keys.
  split; [done|]. unfold dict_to_list.
  rewrite bool_decide_eq_true_2 by done.
  eexists. split_and!; [done|by rewrite length_fmap|].
  intros j key Hj. by rewrite list_lookup_fmap, Hj.
Qed.

Lemma zip_take_both {A B} (l : list A) (k : list B) :
  zip l k = zip (take (length k) l) (take (length l) k).
Proof.
  revert k. induction l as [|x l IH]; intros [|y k]; simpl; try done.
  by rewrite <- IH.
Qed.

Lemma dict_get_not_elem_of {V} (d : list (string * V)) (k : string) :
  k ∉ d.*1 → dict_get d k = None.
Proof.
  unfold dict_get. induction d as [|[k' v'] d IH]; intros Hk; [done|].
  rewrite fmap_cons, not_elem_of_cons in Hk. destruct Hk as [Hne Hk].
  simpl in *. rewrite decide_False by done.
  specialize (IH Hk). by destruct (list_find (λ kv, kv.1 = k) d).
Qed.

Lemma dict_get_zip_keys `{FloatStr} (keys : list string) (vals : list pyval) :
  NoDup keys → length keys = length vals →
  (λ key, default "" (csv_str <$> dict_get (zip keys vals) key)) <$> keys
  = csv_str <$> vals.
Proof.
  intros Hnd Hlen. apply list_eq. intros j. rewrite !list_lookup_fmap.
  destruct (keys !! j) as [n|] eqn:Hn; simpl.
  - destruct (lookup_lt_is_Some_2 vals j) as [v Hv].
    { rewrite <- Hlen. by eapply lookup_lt_Some. }
    rewrite Hv. simpl. f_equal.
    rewrite (dict_get_elem_of _ n v); [done|by rewrite fst_zip_same_length|].
    apply list_elem_of_lookup. exists j.
    by rewrite lookup_zip_with, Hn, Hv.
  - rewrite lookup_ge_None_2; [done|].
    rewrite <- Hlen. by apply lookup_ge_None.
Qed.

Lemma dict_get_zip_absent `{FloatStr} (keys : list string)
    (vals : list pyval) (l : list string) :
  length keys = length vals → (∀ k, k ∈ l → k ∉ keys) →
  (λ key, default "" (csv_str <$> dict_get (zip keys vals) key)) <$> l
  = replicate (length l) "".
Proof.
  intros Hlen. induction l as [|k l IH]; intros Hnot; [done|].
  csimpl. rewrite dict_get_not_elem_of.
  - simpl. f_equal. apply IH. intros k' Hk'. apply Hnot. by right.
  - rewrite fst_zip_same_length by done. apply Hnot. left.
Qed.

Section unequal_lengths.
Context `{FloatStr}.
Context (columns_to_save new_columns : list string) (reader : XportReader).
Context (Hold : NoDup columns_to_save) (Hnew : NoDup new_columns).

Lemma dict_to_list_unequal (r : gmap string pyval) :
  dict_to_list new_columns
    (row_dict (dict_of_items (zip columns_to_save new_columns))
       (fields reader) r)
  = Some (((λ old_name, csv_str (requested_value (fields reader) r old_name))
             <$> take (length new_columns) columns_to_save)
          ++ replicate (length new_columns - length columns_to_save) "").
Proof.
  set (olds := take (length new_columns) columns_to_save).
  set (news := take (length columns_to_save) new_columns).
  assert (Hlen : length olds = length news).
  { unfold olds, news. rewrite !length_take. lia. }
  assert (Hnd_olds : NoDup olds).
  { pose proof Hold as Hnd.
    rewrite <- (take_drop (length new_columns) columns_to_save) in Hnd.
    by apply NoDup_app in Hnd as [? _]. }
  assert (Hnd_news : NoDup news).
  { pose proof Hnew as Hnd.
    rewrite <- (take_drop (length columns_to_save) new_columns) in Hnd.
    by apply NoDup_app in Hnd as [? _]. }
  rewrite zip_take_both. fold olds news.
  rewrite (column_mapping_zip olds news Hnd_olds Hlen).
  rewrite (row_dict_zip olds news reader Hnd_news Hlen).
  set (vals := requested_value (fields reader) r <$> olds).
  assert (Hvals : length news = length vals).
  { unfold vals. by rewrite length_fmap. }
  unfold dict_to_list. rewrite fst_zip_same_length by done.
  rewrite bool_decide_eq_true_2.
  2:{ apply Forall_forall. intros k Hk.
      by apply (subseteq_take (length columns_to_save) new_columns k). }
  f_equal.
  rewrite <- (take_drop (length columns_to_save) new_columns) at 1.
  fold news. rewrite fmap_app. f_equal.
  - rewrite dict_get_zip_keys by done. unfold vals.
    by rewrite <- list_fmap_compose.
  - assert (Hdrop : length (drop (length columns_to_save) new_columns)
                    = length new_columns - length columns_to_save)
      by apply length_drop.
    rewrite <- Hdrop.
    assert (Hnot : ∀ k, k ∈ drop (length columns_to_save) new_columns →
                        k ∉ news).
    { intros k Hk Hk'.
      rewrite <- (take_drop (length columns_to_save) new_columns) in Hnew.
      apply NoDup_app in Hnew as (_ & Hdisj & _). by apply (Hdisj k). }
    apply dict_get_zip_absent; [done|]. apply Hnot.
Qed.
End unequal_lengths.

(** X18: with lists of different lengths the two are paired up to the
    shorter one.  A new column without a requested column is written as
    an empty cell in every row; a requested column without a new name is
    not written at all. *)
Theorem unpaired_columns_written_empty `{FloatStr}
    (columns_to_save new_columns : list string) (reader : XportReader) :
  NoDup columns_to_save → NoDup new_columns →
  data_rows (convert_xpt_to_csv columns_to_save new_columns reader)
  = (λ r,
       ((λ old_name, csv_str (requested_value (fields reader) r old_name))
          <$> take (length new_columns) columns_to_save)
       ++ replicate (length new_columns - length columns_to_save) "")
      <$> records reader.
Proof.
  intros Hold Hnew. unfold convert_xpt_to_csv. cbv zeta.
  set (cells := λ r : gmap string pyval, _ ++ replicate _ "").
  assert (Hw : ∀ rs,
    write_rows new_columns
      (dict_of_items (zip columns_to_save new_columns)) (fields reader) rs
    = (WriteRow <$> (cells <$> rs)) ++ [PrintSaved]).
  { induction rs as [|r rs IH]; [done|].
    simpl. rewrite dict_to_list_unequal by done. by rewrite IH. }
  rewrite Hw. case_bool_decide.
  - change (data_rows ([] ++ [?a; ?b] ++ ?l)) with (data_rows l).
    rewrite data_rows_WriteRow. simpl. by rewrite app_nil_r.
  - change (data_rows ([?c] ++ [?a; ?b] ++ ?l)) with (data_rows l).
    rewrite data_rows_WriteRow. simpl. by rewrite app_nil_r.
Qed.

Lemma unpaired_columns_written_empty_witness :
  data_rows (@convert_xpt_to_csv whole_float_str
               ["SEQN"; "BMXWT"] ["id"; "weight"; "height"] reader_example)
  = (λ r,
       ((λ old_name,
           @csv_str whole_float_str
             (requested_value (fields reader_example) r old_name))
          <$> take 3 ["SEQN"; "BMXWT"])
       ++ replicate 1 "")
      <$> records reader_example.
Proof.
  apply (@unpaired_columns_written_empty whole_float_str
           ["SEQN"; "BMXWT"] ["id"; "weight"; "height"] reader_example).
  - apply (bool_decide_unpack _). by vm_compute.
  - apply (bool_decide_unpack _). by vm_compute.
Defined.

(** On the example file: the third column has no source and stays
    empty. *)
Example unpaired_columns_example :
  data_rows (@convert_xpt_to_csv whole_float_str
               ["SEQN"; "BMXWT"] ["id"; "weight"; "height"] reader_example)
  = [["1.0"; "70.0"; ""]; ["2.0"; "nan"; ""]].
Proof. by vm_compute. Qed.

(** *** The loader *)

Lemma dict_get_cons {V} (kv : string * V) (d : list (string * V))
    (k : string) :
  dict_get (kv :: d) k = if decide (kv.1 = k) then Some kv.2 else dict_get d k.
Proof.
  unfold dict_get. simpl. case_decide; [done|].
  by destruct (list_find (λ kv, kv.1 = k) d) as [[??]|].
Qed.

Lemma dict_get_replace {V} (d : list (string * V)) (k k' : string) (v : V) :
  dict_get ((λ kv, if bool_decide (kv.1 = k) then (k, v) else kv) <$> d) k'
  = if decide (k' = k) then (λ _, v) <$> dict_get d k else dict_get d k'.
Proof.
  induction d as [|[k0 v0] d IH]; [by case_decide|].
  rewrite fmap_cons, !dict_get_cons, IH. simpl.
  case_bool_decide; simpl; repeat case_decide; by simplify_eq.
Qed.

Lemma dict_get_dict_set {V} (d : list (string * V)) (k k' : string) (v : V) :
  dict_get (dict_set d k v) k'
  = if decide (k' = k) then Some v else dict_get d k'.
Proof.
  unfold dict_set. case_bool_decide as Hk.
  - rewrite dict_get_replace. case_decide; [|done].
    apply list_elem_of_fmap in Hk as ([k0 v0] & -> & Hin). simpl.
    clear -Hin. induction d as [|[k1 v1] d IH].
    { by apply elem_of_nil in Hin. }
    rewrite dict_get_cons. simpl. case_decide; [done|].
    apply elem_of_cons in Hin as [?|Hin]; [by simplify_eq|]. by apply IH.
  - induction d as [|[k0 v0] d IH].
    { simpl. rewrite dict_get_cons. simpl.
      repeat case_decide; by simplify_eq. }
    rewrite fmap_cons, not_elem_of_cons in Hk. destruct Hk as [Hne Hk].
    change (((k0, v0) :: d) ++ [(k, v)]) with ((k0, v0) :: (d ++ [(k, v)])).
    rewrite !dict_get_cons, (IH Hk). simpl.
    repeat case_decide; by simplify_eq.
Qed.

Section load.
Context (csv_files : gmap string DataFrame).

Lemma load_file_get (year : string)
    (st : list (string * list DataFrame) * list string) (t t' : string) :
  dict_get (load_file csv_files year st t).1 t'
  = if decide (t' = t)
    then match csv_files !! file_path year t with
         | Some df => Some (default [] (dict_get st.1 t) ++ [df])
         | None => dict_get st.1 t
         end
    else dict_get st.1 t'.
Proof.
  unfold load_file. destruct (csv_files !! file_path year t); simpl.
  - apply dict_get_dict_set.
  - case_decide; by subst.
Qed.

Lemma load_file_printed (year : string)
    (st : list (string * list DataFrame) * list string) (t : string) :
  (load_file csv_files year st t).2
  = st.2 ++ filter (λ p, csv_files !! p = None) [file_path year t].
Proof.
  unfold load_file.
  destruct (csv_files !! file_path year t) eqn:Hp; simpl.
  - rewrite filter_cons_False by congruence. by rewrite app_nil_r.
  - by rewrite filter_cons_True by done.
Qed.

Lemma load_year_get (year : string) (types : list string)
    (st : list (string * list DataFrame) * list string) (t : string) :
  NoDup types →
  dict_get (foldl (load_file csv_files year) st types).1 t
  = if decide (t ∈ types)
    then match csv_files !! file_path year t with
         | Some df => Some (default [] (dict_get st.1 t) ++ [df])
         | None => dict_get st.1 t
         end
    else dict_get st.1 t.
Proof.
  revert st. induction types as [|t0 types IH]; intros st Hnd.
  { cbn [foldl]. rewrite decide_False; [done|apply not_elem_of_nil]. }
  apply NoDup_cons in Hnd as [Ht0 Hnd]. cbn [foldl].
  rewrite (IH _ Hnd), load_file_get.
  destruct (decide (t = t0)) as [->|Hne].
  - rewrite decide_False by done. by rewrite decide_True by left.
  - destruct (decide (t ∈ types)) as [Hin|Hnin].
    + by rewrite decide_True by (by right).
    + rewrite decide_False; [done|].
      rewrite elem_of_cons. tauto.
Qed.

Lemma load_year_printed (year : string) (types : list string)
    (st : list (string * list DataFrame) * list string) :
  (foldl (load_file csv_files year) st types).2
  = st.2 ++ filter (λ p, csv_files !! p = None) (file_path year <$> types).
Proof.
  revert st. induction types as [|t0 types IH]; intros st.
  { simpl. by rewrite app_nil_r. }
  cbn [foldl]. rewrite IH, load_file_printed, <- app_assoc. f_equal.
  rewrite fmap_cons. symmetry. apply (filter_app _ [_]).
Qed.

Lemma load_years_get (years types : list string)
    (st : list (string * list DataFrame) * list string) (t : string)
    (l : list DataFrame) :
  NoDup types → t ∈ types → dict_get st.1 t = Some l →
  dict_get
    (foldl (λ st year, foldl (load_file csv_files year) st types) st years).1
    t
  = Some (l ++ omap (λ year, csv_files !! file_path year t) years).
Proof.
  intros Hnd Ht. revert st l. induction years as [|year years IH];
    intros st l Hl.
  { simpl. by rewrite app_nil_r. }
  cbn [foldl omap list_omap].
  destruct (csv_files !! file_path year t) as [df|] eqn:Hdf.
  - rewrite (IH _ (l ++ [df])); [by rewrite <- app_assoc|].
    rewrite load_year_get, decide_True, Hdf, Hl by done. done.
  - rewrite (IH _ l); [done|].
    by rewrite load_year_get, decide_True, Hdf by done.
Qed.

Lemma load_years_printed (years types : list string)
    (st : list (string * list DataFrame) * list string) :
  (foldl (λ st year, foldl (load_file csv_files year) st types) st years).2
  = st.2 ++ filter (λ p, csv_files !! p = None)
              (year ← years; file_path year <$> types).
Proof.
  revert st. induction years as [|year years IH]; intros st.
  { simpl. by rewrite app_nil_r. }
  cbn [foldl]. rewrite IH, load_year_printed, <- app_assoc. f_equal.
  symmetry. apply filter_app.
Qed.
End load.

Lemma load_dataframes_get (csv_files : gmap string DataFrame)
    (data_type : string) :
  data_type ∈ data_types →
  dict_get (load_dataframes csv_files).1 data_type
  = Some (omap (λ year, csv_files !! file_path year data_type) survey_years).
Proof.
  intros Ht. unfold load_dataframes.
  rewrite (load_years_get csv_files survey_years data_types _ data_type []);
    [done| |done|].
  - apply (bool_decide_unpack _). by vm_compute.
  - simpl. apply list_elem_of_In in Ht. simpl in Ht.
    destruct_or!; try done; subst; by vm_compute.
Qed.

(** X19: what the two loops of the loader leave behind: for every data
    type the frames of the files that exist, in the order of the survey
    years, and one warning for every file that does not exist, in the
    order of the loops. *)
Theorem load_dataframes_spec (csv_files : gmap string DataFrame) :
  (∀ data_type, data_type ∈ data_types →
     dict_get (load_dataframes csv_files).1 data_type
     = Some (omap (λ year, csv_files !! file_path year data_type)
                  survey_years))
  ∧ (load_dataframes csv_files).2
    = filter (λ p, csv_files !! p = None)
        (year ← survey_years; file_path year <$> data_types).
Proof.
  split.
  - intros data_type. apply load_dataframes_get.
  - unfold load_dataframes. by rewrite load_years_printed.
Qed.

Lemma pd_concat_None (objs : list DataFrame) :
  pd_concat objs = None ↔ objs = [].
Proof. by destruct objs. Qed.

Lemma pd_concat_rows (objs : list DataFrame) (df : DataFrame) :
  pd_concat objs = Some df → rows df = concat (rows <$> objs).
Proof. destruct objs; [done|]. by intros [= <-]. Qed.

Lemma omap_nil_iff {A B} (f : A → option B) (l : list A) :
  omap f l = [] ↔ ∀ x, x ∈ l → f x = None.
Proof.
  induction l as [|x l IH]; csimpl.
  - split; [|done]. by intros _ x ?%elem_of_nil.
  - destruct (f x) eqn:Hx; simpl.
    + split; [done|]. intros Hall. specialize (Hall x (list_elem_of_here _ _)).
      congruence.
    + rewrite IH. split.
      * intros Hall y [->|Hy]%elem_of_cons; auto.
      * intros Hall y Hy. apply Hall. by right.
Qed.

(** X20: the loader fails (on a concatenation of nothing) exactly when,
    for one of the three data types, the file of no survey year exists.
    Otherwise every table holds the rows of its files that exist, in the
    order of the survey years; a year without a file is left out. *)
Theorem load_tables_spec (csv_files : gmap string DataFrame) :
  let present data_type :=
    omap (λ year, csv_files !! file_path year data_type) survey_years in
  ((load_tables csv_files).1 = None
   ↔ ∃ data_type, data_type ∈ data_types
       ∧ ∀ year, year ∈ survey_years →
           csv_files !! file_path year data_type = None)
  ∧ ∀ lean_fat_data body_measurements demographic_data,
      (load_tables csv_files).1
        = Some (lean_fat_data, body_measurements, demographic_data) →
      rows lean_fat_data = concat (rows <$> present "lean_fat_data")
      ∧ rows body_measurements = concat (rows <$> present "body_measures")
      ∧ rows demographic_data
        = concat (rows <$> present "demographic_data").
Proof.
  intros present.
  pose proof (load_dataframes_get csv_files "lean_fat_data"
                ltac:(apply list_elem_of_In; simpl; tauto)) as Hlean.
  pose proof (load_dataframes_get csv_files "body_measures"
                ltac:(apply list_elem_of_In; simpl; tauto)) as Hbody.
  pose proof (load_dataframes_get csv_files "demographic_data"
                ltac:(apply list_elem_of_In; simpl; tauto)) as Hdemo.
  fold (present "lean_fat_data") in Hlean.
  fold (present "body_measures") in Hbody.
  fold (present "demographic_data") in Hdemo.
  unfold load_tables.
  destruct (load_dataframes csv_files) as [dataframes printed].
  simpl in Hlean, Hbody, Hdemo. rewrite Hlean, Hbody, Hdemo. simpl.
  assert (Hnil : ∀ data_type,
    present data_type = []
    ↔ ∀ year, year ∈ survey_years →
        csv_files !! file_path year data_type = None).
  { intros data_type. apply omap_nil_iff. }
  split.
  - split.
    + intros Hnone.
      destruct (pd_concat (present "lean_fat_data")) as [lean|] eqn:Hl.
      2:{ exists "lean_fat_data". split; [apply list_elem_of_In; simpl; tauto|].
          by apply Hnil, pd_concat_None. }
      destruct (pd_concat (present "body_measures")) as [body|] eqn:Hb.
      2:{ exists "body_measures". split; [apply list_elem_of_In; simpl; tauto|].
          by apply Hnil, pd_concat_None. }
      destruct (pd_concat (present "demographic_data")) as [demo|] eqn:Hd.
      2:{ exists "demographic_data". split; [apply list_elem_of_In; simpl; tauto|].
          by apply Hnil, pd_concat_None. }
      done.
    + intros (data_type & Ht & Hmissing). apply Hnil in Hmissing.
      apply list_elem_of_In in Ht. simpl in Ht.
      destruct_or!; try done; subst data_type; rewrite Hmissing; simpl.
      * done.
      * by destruct (pd_concat _).
      * by destruct (pd_concat _), (pd_concat _).
  - intros lean body demo Hsome.
    destruct (pd_concat (present "lean_fat_data")) as [lean'|] eqn:Hl;
      [|done].
    destruct (pd_concat (present "body_measures")) as [body'|] eqn:Hb;
      [|done].
    destruct (pd_concat (present "demographic_data")) as [demo'|] eqn:Hd;
      [|done].
    simpl in Hsome. simplify_eq.
    split_and!; by apply pd_concat_rows.
Qed.

(** *** The pipeline as a whole *)

Lemma NoDup_fmap_filter {A B} (f : A → B) (P : A → Prop)
    `{!∀ x, Decision (P x)} (l : list A) :
  NoDup (f <$> l) → NoDup (f <$> filter P l).
Proof.
  induction l as [|x l IH]; [done|].
  rewrite fmap_cons, NoDup_cons. intros [Hx Hnd].
  rewrite filter_cons. case_decide; [|by apply IH].
  rewrite fmap_cons, NoDup_cons. split; [|by apply IH].
  intros (y & Hy & Hin)%list_elem_of_fmap. apply Hx.
  apply list_elem_of_filter in Hin as [_ Hin].
  rewrite Hy. by apply list_elem_of_fmap_2.
Qed.

Lemma validated_rows_cleaned (df : DataFrame)
    (ranges : list (string * (Qc * Qc))) :
  rows (filter_unrealistic_values df ranges).1
  = filter (λ r, forallb (λ item, rule_keeps (columns df) item r) ranges
                 = true) (rows df).
Proof. apply foldl_validate_rows. Qed.

Lemma series_cleaned (filtered : DataFrame) (c : string) :
  c ∉ columns_to_remove →
  ∃ P : row → Prop, ∃ _ : ∀ r, Decision (P r),
    series (cleaned_health_data filtered) c
    = (λ r, at_col r c) <$> filter P (rows filtered).
Proof.
  intros Hc.
  eexists _, _. unfold series.
  rewrite cleaned_health_data_rows, <- list_fmap_compose.
  apply list_fmap_ext. intros i r _. simpl. by apply at_col_drop.
Qed.

Lemma validated_ids_NoDup `{Float64Sum}
    (lean_fat_data body_measurements demographic_data : DataFrame) :
  NoDup (series body_measurements "id") →
  NoDup (series demographic_data "id") →
  NoDup (series (validated_health_data lean_fat_data body_measurements
                   demographic_data) "id").
Proof.
  intros Hbody Hdemo. unfold validated_health_data.
  set (aggregated := aggregated_lean_fat_df _).
  assert (Hmerged : NoDup (series (merged_health_data body_measurements
                                     demographic_data aggregated) "id")).
  { unfold merged_health_data. rewrite merge_on_id_ids.
    - apply NoDup_filter. rewrite merge_on_id_ids by done.
      by apply NoDup_filter.
    - unfold aggregated. rewrite series_aggregated_id.
      apply NoDup_fmap_2; [intros x y; congruence|apply NoDup_np_unique]. }
  set (merged := merged_health_data _ _ _) in *.
  assert (Hfiltered : NoDup (series (filtered_health_data merged) "id")).
  { unfold series, filtered_health_data, select. simpl.
    by do 2 apply NoDup_fmap_filter. }
  set (filtered := filtered_health_data merged) in *.
  destruct (series_cleaned filtered "id") as (P & HP & Hcleaned).
  { unfold columns_to_remove. rewrite !not_elem_of_cons.
    split_and!; [done|done|apply not_elem_of_nil]. }
  unfold series at 1. rewrite validated_rows_cleaned.
  apply NoDup_fmap_filter. fold (series (cleaned_health_data filtered) "id").
  rewrite Hcleaned. by apply NoDup_fmap_filter.
Qed.

(** X21: when no identifier is repeated in the body-measurement table nor
    in the demographic table, none is repeated in the validated table,
    whatever the exam table holds: the aggregation leaves one row per
    subject and no later step adds a row. *)
Theorem validated_ids_unique `{Float64Sum}
    (lean_fat_data body_measurements demographic_data : DataFrame) :
  NoDup (series body_measurements "id") →
  NoDup (series demographic_data "id") →
  NoDup (series (validated_health_data lean_fat_data body_measurements
                   demographic_data) "id").
Proof. apply validated_ids_NoDup. Qed.

Lemma validated_ids_unique_witness :
  NoDup (series (@validated_health_data whole_number_sum lean_fat_example
                   measured_example interviewed_example) "id").
Proof.
  apply (@validated_ids_unique whole_number_sum lean_fat_example
           measured_example interviewed_example).
  - apply (bool_decide_unpack _). by vm_compute.
  - apply (bool_decide_unpack _). by vm_compute.
Defined.

Lemma not_elem_of_columns_to_remove (c : string) :
  c ≠ "pregnancy_status" → c ≠ "amputation" → c ∉ columns_to_remove.
Proof.
  intros ??. unfold columns_to_remove. rewrite !not_elem_of_cons.
  split_and!; [done|done|apply not_elem_of_nil].
Qed.

(** X22: what holds of every row of the validated table, whatever the
    three input tables are: the two removed columns are gone, no value is
    missing, the age is a number of at least 15 and less than 64 years,
    and the identifier is that of a subject with a usable exam. *)
Theorem validated_row_invariants `{Float64Sum}
    (lean_fat_data body_measurements demographic_data : DataFrame) (r : row) :
  let validated :=
    validated_health_data lean_fat_data body_measurements demographic_data in
  r ∈ rows validated →
  ("amputation" ∉ columns validated)
  ∧ ("pregnancy_status" ∉ columns validated)
  ∧ (∀ c, c ∈ columns validated → isna (at_col r c) = false)
  ∧ (∃ months, at_col r "age_in_months" = Num months
       ∧ (qz 15 <= months / qz 12)%Qc ∧ (months / qz 12 < qz 64)%Qc)
  ∧ ∃ i, at_col r "id" = Num i
       ∧ Num i ∈ series (filtered_lean_fat_data lean_fat_data) "id".
Proof.
  intros validated Hr. unfold validated, validated_health_data in *.
  set (aggregated := aggregated_lean_fat_df _) in *.
  set (merged := merged_health_data _ _ aggregated) in *.
  set (filtered := filtered_health_data merged) in *.
  set (cleaned := cleaned_health_data filtered) in *.
  assert (Hcols : columns (filter_unrealistic_values cleaned valid_ranges).1
                  = filter (λ c, c ∉ columns_to_remove) (columns filtered)).
  { unfold filter_unrealistic_values. by rewrite foldl_validate_columns. }
  rewrite validated_rows_cleaned in Hr.
  apply list_elem_of_filter in Hr as [_ Hr].
  pose proof Hr as Hr'. unfold cleaned in Hr'.
  rewrite cleaned_health_data_rows in Hr'.
  apply list_elem_of_fmap in Hr' as (r0 & -> & Hr0).
  apply list_elem_of_filter in Hr0 as [Hna Hr0].
  rewrite Hcols. split_and!.
  - intros [Hin _]%list_elem_of_filter. apply Hin.
    unfold columns_to_remove. right. left.
  - intros [Hin _]%list_elem_of_filter. apply Hin.
    unfold columns_to_remove. left.
  - intros c Hc. rewrite Forall_forall in Hna.
    rewrite at_col_drop; [by apply Hna|].
    by apply list_elem_of_filter in Hc as [? _].
  - rewrite at_col_drop by (by apply not_elem_of_columns_to_remove).
    apply filtered_health_data_rows in Hr0 as (_ & _ & Hage).
    destruct (at_col r0 "age_in_months") as [|months] eqn:Hm.
    { unfold age_mask in Hage. by rewrite Hm in Hage. }
    exists months. split; [done|]. by apply (age_mask_spec r0 months Hm).
  - rewrite at_col_drop by (by apply not_elem_of_columns_to_remove).
    apply filtered_health_data_rows in Hr0 as (Hr0 & _ & _).
    assert (Hid : at_col r0 "id" ∈ series merged "id")
      by by apply (list_elem_of_fmap_2 (λ r, at_col r "id")).
    unfold merged, merged_health_data in Hid.
    rewrite merge_on_id_ids in Hid.
    + apply list_elem_of_filter in Hid as [Hid _].
      unfold aggregated in Hid. rewrite series_aggregated_id in Hid.
      apply list_elem_of_fmap in Hid as (i & Hi & Hin).
      exists i. split; [done|].
      by apply elem_of_np_unique, elem_of_numbers in Hin.
    + unfold aggregated. rewrite series_aggregated_id.
      apply NoDup_fmap_2; [intros x y; congruence|apply NoDup_np_unique].
Qed.


Lemma validated_row_invariants_witness :
  let validated :=
    @validated_health_data whole_number_sum lean_fat_example measured_example
      interviewed_example in
  ∃ r,
    r ∈ rows validated
    ∧ ("amputation" ∉ columns validated)
    ∧ ("pregnancy_status" ∉ columns validated)
    ∧ (∀ c, c ∈ columns validated → isna (at_col r c) = false)
    ∧ (∃ months, at_col r "age_in_months" = Num months
         ∧ (qz 15 <= months / qz 12)%Qc ∧ (months / qz 12 < qz 64)%Qc)
    ∧ ∃ i, at_col r "id" = Num i
         ∧ Num i ∈ series (filtered_lean_fat_data lean_fat_example) "id".
Proof.
  intros validated.
  assert (Hlen : 0 < length (rows validated)) by (vm_compute; lia).
  destruct (lookup_lt_is_Some_2 _ _ Hlen) as [r Hr0].
  assert (Hr : r ∈ rows validated) by (by eapply list_elem_of_lookup_2).
  exists r. split; [exact Hr|].
  exact (@validated_row_invariants whole_number_sum lean_fat_example
           measured_example interviewed_example r Hr).
Defined.

(** On the example tables: subjects 5 and 7 reach the validated table,
    which has the fifteen columns of the notebook's output. *)
Example validated_example :
  let validated :=
    @validated_health_data whole_number_sum lean_fat_example measured_example
      interviewed_example in
  cell_fraction <$> series validated "id" = [Some (5 # 1); Some (7 # 1)]%Q
  ∧ length (columns validated) = 15.
Proof. by vm_compute. Qed.

(** X23: from the raw tables to the split: when no identifier is repeated
    in the body-measurement table nor in the demographic table, no subject
    is both in the train and in the test table, and every row of the two
    is a row of the validated table. *)
Theorem split_keeps_subjects_apart `{Float64Sum} `{FloatStr}
    `{RandomState RS}
    (lean_fat_data body_measurements demographic_data : DataFrame)
    (train test : list strat_row) :
  let validated :=
    validated_health_data lean_fat_data body_measurements demographic_data in
  NoDup (series body_measurements "id") →
  NoDup (series demographic_data "id") →
  stratified_split validated = inr (train, test) →
  (∀ r_train r_test, r_train ∈ train → r_test ∈ test →
     at_col (base r_train) "id" ≠ at_col (base r_test) "id")
  ∧ ∀ r, r ∈ train ++ test → base r ∈ rows validated.
Proof.
  intros validated Hbody Hdemo Hsplit.
  destruct (stratified_split_inr validated train test Hsplit)
    as (Hperm & _ & _).
  pose proof (validated_ids_NoDup lean_fat_data body_measurements
                demographic_data Hbody Hdemo) as Hnd.
  fold validated in Hnd. unfold series in Hnd.
  rewrite <- Hperm, fmap_app, <- !list_fmap_compose in Hnd.
  apply NoDup_app in Hnd as (_ & Hdisj & _). split.
  - intros r_train r_test Htrain Htest Heq.
    apply (Hdisj (at_col (base r_train) "id")).
    + by apply (list_elem_of_fmap_2 ((λ r, at_col r "id") ∘ base)).
    + rewrite Heq.
      by apply (list_elem_of_fmap_2 ((λ r, at_col r "id") ∘ base)).
  - intros r Hr. rewrite <- Hperm, <- fmap_app.
    by apply list_elem_of_fmap_2.
Qed.

Lemma split_keeps_subjects_apart_witness :
  let validated :=
    @validated_health_data whole_number_sum lean_fat_example measured_example
      interviewed_example in
  ∃ train test,
    @stratified_split whole_float_str unit reversing_rng validated
      = inr (train, test)
    ∧ (∀ r_train r_test, r_train ∈ train → r_test ∈ test →
         at_col (base r_train) "id" ≠ at_col (base r_test) "id")
    ∧ ∀ r, r ∈ train ++ test → base r ∈ rows validated.
Proof.
  intros validated.
  destruct (@train_test_split_accepts unit reversing_rng strat_row
              (collapse_rare_groups
                 (@add_stratify_columns whole_float_str validated))
              (stratify_group_col
                 <$> collapse_rare_groups
                       (@add_stratify_columns whole_float_str validated))
              42) as (train & test & Hsplit);
    [by rewrite length_fmap|by vm_compute|].
  exists train, test. split; [exact Hsplit|].
  apply (@split_keeps_subjects_apart whole_number_sum whole_float_str unit
           reversing_rng lean_fat_example measured_example
           interviewed_example train test).
  - apply (bool_decide_unpack _). by vm_compute.
  - apply (bool_decide_unpack _). by vm_compute.
  - exact Hsplit.
Defined.

(** *** The batch conversion *)

Lemma process_survey_cycles_paths `{FloatStr}
    (xpt_files : gmap string XportReader) :
  (process_survey_cycles xpt_files).*1
  = (λ entry : string * string * string * list string * list string,
       csv_path_to_save entry.1.1.1.1 entry.1.1.2) <$> survey_cycles.
Proof.
  unfold process_survey_cycles. rewrite <- list_fmap_compose.
  apply list_fmap_ext. by intros i [[[[??]?]?]?] _.
Qed.

(** X24: the batch conversion writes every csv file once, and every file
    the loader of the second notebook reads is one of them, written from
    the entry of its survey cycle and data type; the exam files get the
    four columns the aggregation relies on. *)
Theorem loader_reads_converted_files `{FloatStr}
    (xpt_files : gmap string XportReader) :
  NoDup (process_survey_cycles xpt_files).*1
  ∧ ∀ year data_type,
      year ∈ survey_years → data_type ∈ data_types →
      ∃ xpt_file columns new_columns,
        (year, xpt_file, data_type, columns, new_columns) ∈ survey_cycles
        ∧ (file_path year data_type,
           convert_xpt_path xpt_files columns new_columns
             (xpt_file_path year xpt_file))
          ∈ process_survey_cycles xpt_files
        ∧ (data_type = "lean_fat_data" →
           new_columns
           = ["id"; "exam_status"; "total_fat_mass"; "total_lean_mass"]).
Proof.
  split.
  { rewrite process_survey_cycles_paths.
    apply (bool_decide_unpack _). by vm_compute. }
  intros year data_type Hyear Htype.
  assert (Hin : ∀ xpt_file columns new_columns,
    (year, xpt_file, data_type, columns, new_columns) ∈ survey_cycles →
    (file_path year data_type,
     convert_xpt_path xpt_files columns new_columns
       (xpt_file_path year xpt_file))
    ∈ process_survey_cycles xpt_files).
  { intros xpt_file columns new_columns Hentry.
    unfold process_survey_cycles.
    apply (list_elem_of_fmap_2
             (λ '(cycle, xpt_file, csv_file, columns, new_columns),
                (csv_path_to_save cycle csv_file,
                 convert_xpt_path xpt_files columns new_columns
                   (xpt_file_path cycle xpt_file))))
      in Hentry. exact Hentry. }
  apply list_elem_of_In in Hyear, Htype. simpl in Hyear, Htype.
  destruct_or!; try done; subst year data_type;
    eexists _, _, _;
    (split; [|split; [apply Hin|]]);
    try (apply list_elem_of_In; simpl;
         repeat (first [left; reflexivity|right]));
    try done; try by intros _.
Qed.
